(** * Order fulfilment over a non-transactional store

    A shallow embedding of [backend/app/routers/orders.py] (order creation,
    order read-back, status transition), of the role guards of
    [backend/app/auth/dependencies.py], of the request and response models of
    [backend/app/models], of the inventory handlers of
    [backend/app/routers/inventory.py], of the user and authentication
    handlers of [backend/app/routers/users.py] and
    [backend/app/routers/auth.py], and of the text checks of
    [backend/app/auth/password.py] and [backend/app/utils/validators.py].

    The handlers are written in a small state-and-exception monad over a
    [World]: the contents of the remote store, the behaviour the store will
    show on the coming calls, and the log of the calls issued so far. *)

From Stdlib Require Import ZArith.
From stdpp Require Import gmap strings list infinite pretty.

Local Open Scope string_scope.
Local Open Scope list_scope.
Local Open Scope Z_scope.

(** ** Models ([models/order.py], [models/inventory.py]) *)

Inductive OrderStatus := PENDING | PROCESSING | FULFILLED.

Global Instance OrderStatus_eq_dec : EqDecision OrderStatus.
Proof. solve_decision. Defined.

Record OrderItemCreate := {
  oic_item_id : string;
  oic_quantity : Z
}.

Record OrderCreate := {
  oc_customer_name : string;
  oc_items : list OrderItemCreate
}.

Record OrderItemResponse := {
  oir_id : string;
  oir_item_id : string;
  oir_item_name : string;
  oir_quantity : Z
}.

Record OrderResponse := {
  or_id : string;
  or_customer_name : string;
  or_status : OrderStatus;
  or_items : list OrderItemResponse;
  or_created_by : string
}.

Record OrderStatusUpdate := { osu_status : OrderStatus }.

Record InventoryItemUpdate := {
  iiu_name : option string;
  iiu_description : option string;
  iiu_stock_level : option Z;
  iiu_low_stock_threshold : option Z
}.

Record InventoryItemResponse := {
  iir_id : string;
  iir_name : string;
  iir_description : option string;
  iir_stock_level : Z;
  iir_low_stock_threshold : Z
}.

(** The decoded token payload handed over by [get_current_user];
    [decode_access_token] guarantees both claims are present. *)
Record Actor := {
  user_id : string;
  role : string
}.

(** ** The store

    Rows of the three collections the order handlers touch.  The
    store-assigned timestamps are copied through by the handlers and never
    inspected; they are left out of the rows. *)

Record InventoryRow := {
  inv_id : string;
  inv_name : string;
  inv_description : option string;
  inv_stock_level : Z;
  inv_low_stock_threshold : Z
}.

Record OrderRow := {
  ord_id : string;
  ord_customer_name : string;
  ord_status : OrderStatus;
  ord_created_by : string
}.

Record OrderItemRow := {
  oi_id : string;
  oi_order_id : string;
  oi_item_id : string;
  oi_quantity : Z
}.

Record Store := {
  inventory_items : list InventoryRow;
  orders : list OrderRow;
  order_items : list OrderItemRow
}.

(** Modelled from the spec: the persistence collaborator (the Supabase
    client behind [db.client]) is not part of the repository.  It is the
    keyed record store of the spec's section 6: filtered read, insert,
    update and delete per collection, an insert returning the stored row
    under a new identity, an update and a delete returning the rows they
    touched, and (section 4.2) the deletion of an order header removing its
    lines. *)

Definition used_ids (st : Store) : list string :=
  (inv_id <$> inventory_items st) ++ (ord_id <$> orders st) ++
  (oi_id <$> order_items st) ++ (oi_order_id <$> order_items st).

Definition select_inventory_by_id (id : string) (st : Store)
  : list InventoryRow * Store :=
  (filter (λ r, inv_id r = id) (inventory_items st), st).

Definition select_inventory_by_name_except (name id : string) (st : Store)
  : list InventoryRow * Store :=
  (filter (λ r, inv_name r = name ∧ inv_id r ≠ id) (inventory_items st), st).

Definition select_order_by_id (id : string) (st : Store)
  : list OrderRow * Store :=
  (filter (λ r, ord_id r = id) (orders st), st).

(** [select("*, inventory_items(name)")]: each line with the name of the
    item it references, absent when no such item exists. *)
Definition joined_name (st : Store) (r : OrderItemRow) : option string :=
  inv_name <$> head (filter (λ i, inv_id i = oi_item_id r) (inventory_items st)).

Definition select_order_items_joined (order_id : string) (st : Store)
  : list (OrderItemRow * option string) * Store :=
  ((λ r, (r, joined_name st r)) <$>
     filter (λ r, oi_order_id r = order_id) (order_items st), st).

Definition insert_order (customer created_by : string) (s : OrderStatus)
    (st : Store) : list OrderRow * Store :=
  let row := {| ord_id := fresh (used_ids st); ord_customer_name := customer;
                ord_status := s; ord_created_by := created_by |} in
  ([row], {| inventory_items := inventory_items st;
             orders := orders st ++ [row];
             order_items := order_items st |}).

Definition insert_order_item (order_id item_id : string) (q : Z) (st : Store)
  : list OrderItemRow * Store :=
  let row := {| oi_id := fresh (used_ids st); oi_order_id := order_id;
                oi_item_id := item_id; oi_quantity := q |} in
  ([row], {| inventory_items := inventory_items st;
             orders := orders st;
             order_items := order_items st ++ [row] |}).

Definition set_stock (v : Z) (r : InventoryRow) : InventoryRow :=
  {| inv_id := inv_id r; inv_name := inv_name r;
     inv_description := inv_description r; inv_stock_level := v;
     inv_low_stock_threshold := inv_low_stock_threshold r |}.

Definition update_where {A} (P : A → Prop) `{∀ x, Decision (P x)}
    (f : A → A) (l : list A) : list A :=
  (λ r, if decide (P r) then f r else r) <$> l.

Definition update_stock_level (id : string) (v : Z) (st : Store)
  : list InventoryRow * Store :=
  (set_stock v <$> filter (λ r, inv_id r = id) (inventory_items st),
   {| inventory_items :=
        update_where (λ r, inv_id r = id) (set_stock v) (inventory_items st);
      orders := orders st;
      order_items := order_items st |}).

Definition apply_item_update (u : InventoryItemUpdate) (r : InventoryRow)
  : InventoryRow :=
  {| inv_id := inv_id r;
     inv_name := default (inv_name r) (iiu_name u);
     inv_description :=
       match iiu_description u with Some d => Some d | None => inv_description r end;
     inv_stock_level := default (inv_stock_level r) (iiu_stock_level u);
     inv_low_stock_threshold :=
       default (inv_low_stock_threshold r) (iiu_low_stock_threshold u) |}.

Definition update_inventory_row (id : string) (u : InventoryItemUpdate)
    (st : Store) : list InventoryRow * Store :=
  (apply_item_update u <$> filter (λ r, inv_id r = id) (inventory_items st),
   {| inventory_items :=
        update_where (λ r, inv_id r = id) (apply_item_update u)
          (inventory_items st);
      orders := orders st;
      order_items := order_items st |}).

Definition set_status (s : OrderStatus) (r : OrderRow) : OrderRow :=
  {| ord_id := ord_id r; ord_customer_name := ord_customer_name r;
     ord_status := s; ord_created_by := ord_created_by r |}.

Definition update_status (id : string) (s : OrderStatus) (st : Store)
  : list OrderRow * Store :=
  (set_status s <$> filter (λ r, ord_id r = id) (orders st),
   {| inventory_items := inventory_items st;
      orders := update_where (λ r, ord_id r = id) (set_status s) (orders st);
      order_items := order_items st |}).

Definition delete_order (id : string) (st : Store) : list OrderRow * Store :=
  (filter (λ r, ord_id r = id) (orders st),
   {| inventory_items := inventory_items st;
      orders := filter (λ r, ord_id r ≠ id) (orders st);
      order_items := filter (λ r, oi_order_id r ≠ id) (order_items st) |}).

(** ** Calls, faults and the world *)

(** One constructor per call shape the handlers build with
    [db.client.table(..)...execute()]. *)
Inductive Query :=
  | SelectInventory (id : string)
  | SelectInventoryByName (name id : string)
  | SelectOrder (id : string)
  | SelectOrderItems (order_id : string)
  | InsertOrder (customer created_by : string) (s : OrderStatus)
  | InsertOrderItem (order_id item_id : string) (q : Z)
  | UpdateStock (item_id : string) (v : Z)
  | UpdateInventory (item_id : string) (u : InventoryItemUpdate)
  | UpdateOrderStatus (id : string) (s : OrderStatus)
  | DeleteOrder (id : string).

Definition is_write (q : Query) : bool :=
  match q with
  | SelectInventory _ | SelectInventoryByName _ _ | SelectOrder _
  | SelectOrderItems _ => false
  | _ => true
  end.

(** What the store does with a call: answer it, answer with an empty result
    and no effect, or make [execute()] raise. *)
Inductive Fault := NoFault | EmptyResult | Raises.

Global Instance Fault_eq_dec : EqDecision Fault.
Proof. solve_decision. Defined.

Record World := {
  store : Store;
  faults : list Fault;
  calls : list Query
}.

(** ** Outcomes and the handler monad *)

Inductive Detail :=
  | Text (msg : string)
  | ErrorDetail (error message : string) (details : list string).

Record HTTPException := {
  status_code : nat;
  detail : Detail
}.

Definition HTTP_400_BAD_REQUEST : nat := 400.
Definition HTTP_403_FORBIDDEN : nat := 403.
Definition HTTP_404_NOT_FOUND : nat := 404.
Definition HTTP_409_CONFLICT : nat := 409.
Definition HTTP_500_INTERNAL_SERVER_ERROR : nat := 500.

(** A handler returns, raises an [HTTPException], or raises some other
    [Exception]. *)
Inductive Outcome (A : Type) :=
  | Return (a : A)
  | RaiseHTTP (e : HTTPException)
  | RaiseException.
Arguments Return {A} a.
Arguments RaiseHTTP {A} e.
Arguments RaiseException {A}.

Definition M (A : Type) : Type := World → Outcome A * World.

Definition ret {A} (a : A) : M A := λ w, (Return a, w).

Definition bind {A B} (m : M A) (k : A → M B) : M B := λ w,
  match m w with
  | (Return a, w') => k a w'
  | (RaiseHTTP e, w') => (RaiseHTTP e, w')
  | (RaiseException, w') => (RaiseException, w')
  end.

Definition raise {A} (code : nat) (d : Detail) : M A := λ w,
  (RaiseHTTP {| status_code := code; detail := d |}, w).

Definition raise_exception {A} : M A := λ w, (RaiseException, w).

Notation "'do' x <~ m 'in' k" := (bind m (λ x, k))
  (at level 10, x name, m at level 100, k at level 200).

(** [try: ... except HTTPException: raise / except Exception: raise
    HTTPException(500, msg)]. *)
Definition try_except {A} (body : M A) (msg : string) : M A := λ w,
  match body w with
  | (RaiseException, w') =>
      (RaiseHTTP {| status_code := HTTP_500_INTERNAL_SERVER_ERROR;
                    detail := Text msg |}, w')
  | r => r
  end.

Definition after_call (q : Query) (st : Store) (w : World) : World :=
  {| store := st; faults := tail (faults w); calls := calls w ++ [q] |}.

(** [.execute()]: the call is logged, the next fault is consumed, and the
    store answers accordingly. *)
Definition execute {A} (q : Query) (run : Store → list A * Store)
  : M (list A) := λ w,
  match head (faults w) with
  | Some Raises => (RaiseException, after_call q (store w) w)
  | Some EmptyResult => (Return [], after_call q (store w) w)
  | _ => (Return (run (store w)).1, after_call q (run (store w)).2 w)
  end.

(** ** Role guards ([auth/dependencies.py]) *)

Definition require_salesperson (current_user : Actor) : M Actor :=
  if decide (role current_user ≠ "salesperson")
  then raise HTTP_403_FORBIDDEN (Text "Salesperson access required")
  else ret current_user.

Definition allowed_roles : list string := ["warehouse_manager"; "admin"].

Definition require_warehouse_manager_or_admin (current_user : Actor) : M Actor :=
  if decide (role current_user ∉ allowed_roles)
  then raise HTTP_403_FORBIDDEN (Text "Warehouse manager or admin access required")
  else ret current_user.

Definition require_authenticated_user (current_user : Actor) : M Actor :=
  ret current_user.

(** ** Order creation ([routers/orders.py], [create_order]) *)

Definition not_found_message (order_item : OrderItemCreate) : string :=
  "Inventory item " +:+ oic_item_id order_item +:+ " not found".

Definition insufficient_message (order_item : OrderItemCreate)
    (inventory_item : InventoryRow) : string :=
  "Insufficient stock for item '" +:+ inv_name inventory_item +:+ "'. " +:+
  "Requested: " +:+ pretty (oic_quantity order_item) +:+
  ", Available: " +:+ pretty (inv_stock_level inventory_item).

(** The first loop: one read per requested line; problems are appended to
    [stock_validation_errors], found rows are kept in the dictionary
    [inventory_items] under their item id. *)
Fixpoint validate_stock (items : list OrderItemCreate)
    (stock_validation_errors : list string)
    (cached : gmap string InventoryRow)
  : M (list string * gmap string InventoryRow) :=
  match items with
  | [] => ret (stock_validation_errors, cached)
  | order_item :: rest =>
      do inventory_result <~
        execute (SelectInventory (oic_item_id order_item))
                (select_inventory_by_id (oic_item_id order_item)) in
      match inventory_result with
      | [] =>
          validate_stock rest
            (stock_validation_errors ++ [not_found_message order_item]) cached
      | inventory_item :: _ =>
          let cached' := <[oic_item_id order_item := inventory_item]> cached in
          if decide (inv_stock_level inventory_item < oic_quantity order_item)
          then validate_stock rest
                 (stock_validation_errors ++
                    [insufficient_message order_item inventory_item]) cached'
          else validate_stock rest stock_validation_errors cached'
      end
  end.

(** The rollback of the second loop: delete the header, then raise. *)
Definition rollback {A} (order_id : string) (msg : string) : M A :=
  do _deleted <~ execute (DeleteOrder order_id) (delete_order order_id) in
  raise HTTP_500_INTERNAL_SERVER_ERROR (Text msg).

(** The body of the second loop, for one requested line. *)
Definition commit_line (order_id : string) (cached : gmap string InventoryRow)
    (order_item : OrderItemCreate) : M OrderItemResponse :=
  do order_item_result <~
    execute (InsertOrderItem order_id (oic_item_id order_item)
                             (oic_quantity order_item))
            (insert_order_item order_id (oic_item_id order_item)
                               (oic_quantity order_item)) in
  match order_item_result with
  | [] => rollback order_id "Failed to create order items"
  | created_item :: _ =>
      match cached !! oic_item_id order_item with
      | None => raise_exception
      | Some inventory_item =>
          let new_stock_level :=
            inv_stock_level inventory_item - oic_quantity order_item in
          do stock_update_result <~
            execute (UpdateStock (oic_item_id order_item) new_stock_level)
                    (update_stock_level (oic_item_id order_item)
                                        new_stock_level) in
          match stock_update_result with
          | [] => rollback order_id "Failed to update inventory stock levels"
          | _ :: _ =>
              ret {| oir_id := oi_id created_item;
                     oir_item_id := oic_item_id order_item;
                     oir_item_name := inv_name inventory_item;
                     oir_quantity := oic_quantity order_item |}
          end
      end
  end.

Fixpoint commit_lines (order_id : string) (cached : gmap string InventoryRow)
    (items : list OrderItemCreate) (order_items_data : list OrderItemResponse)
  : M (list OrderItemResponse) :=
  match items with
  | [] => ret order_items_data
  | order_item :: rest =>
      do line <~ commit_line order_id cached order_item in
      commit_lines order_id cached rest (order_items_data ++ [line])
  end.

Definition insufficient_stock_detail (errors : list string) : Detail :=
  ErrorDetail "Insufficient stock"
    "Order cannot be fulfilled due to insufficient inventory" errors.

Definition create_order_body (order_data : OrderCreate) (current_user : Actor)
  : M OrderResponse :=
  do validated <~ validate_stock (oc_items order_data) [] ∅ in
  match validated.1 with
  | _ :: _ =>
      raise HTTP_400_BAD_REQUEST (insufficient_stock_detail validated.1)
  | [] =>
      do order_result <~
        execute (InsertOrder (oc_customer_name order_data)
                             (user_id current_user) PENDING)
                (insert_order (oc_customer_name order_data)
                              (user_id current_user) PENDING) in
      match order_result with
      | [] => raise HTTP_500_INTERNAL_SERVER_ERROR (Text "Failed to create order")
      | created_order :: _ =>
          do order_items_data <~
            commit_lines (ord_id created_order) validated.2
                         (oc_items order_data) [] in
          ret {| or_id := ord_id created_order;
                 or_customer_name := ord_customer_name created_order;
                 or_status := ord_status created_order;
                 or_items := order_items_data;
                 or_created_by := ord_created_by created_order |}
      end
  end.

Definition create_order (order_data : OrderCreate) (current_user : Actor)
  : M OrderResponse :=
  try_except (create_order_body order_data current_user)
             "Internal server error during order creation".

(** [POST /orders]: the dependency runs first, then the handler. *)
Definition POST_orders (order_data : OrderCreate) (payload : Actor)
  : M OrderResponse :=
  do current_user <~ require_salesperson payload in
  create_order order_data current_user.

(** ** Order read-back ([get_order_details]) *)

(** [order_item["inventory_items"]["name"]] has no value to index when the
    join found no item: the loop raises. *)
Fixpoint order_item_responses (rows : list (OrderItemRow * option string))
  : option (list OrderItemResponse) :=
  match rows with
  | [] => Some []
  | (order_item, joined) :: rest =>
      match joined, order_item_responses rest with
      | Some name, Some tl =>
          Some ({| oir_id := oi_id order_item;
                   oir_item_id := oi_item_id order_item;
                   oir_item_name := name;
                   oir_quantity := oi_quantity order_item |} :: tl)
      | _, _ => None
      end
  end.

Definition read_order_items (order_id : string) : M (list OrderItemResponse) :=
  do order_items_result <~
    execute (SelectOrderItems order_id) (select_order_items_joined order_id) in
  match order_item_responses order_items_result with
  | Some order_items_data => ret order_items_data
  | None => raise_exception
  end.

Definition order_response (order : OrderRow)
    (order_items_data : list OrderItemResponse) : OrderResponse :=
  {| or_id := ord_id order;
     or_customer_name := ord_customer_name order;
     or_status := ord_status order;
     or_items := order_items_data;
     or_created_by := ord_created_by order |}.

Definition get_order_details (order_id : string) (current_user : Actor)
  : M OrderResponse :=
  try_except
    (do order_result <~
       execute (SelectOrder order_id) (select_order_by_id order_id) in
     match order_result with
     | [] => raise HTTP_404_NOT_FOUND (Text "Order not found")
     | order :: _ =>
         do order_items_data <~ read_order_items order_id in
         ret (order_response order order_items_data)
     end)
    "Internal server error while retrieving order details".

Definition GET_order (order_id : string) (payload : Actor) : M OrderResponse :=
  do current_user <~ require_authenticated_user payload in
  get_order_details order_id current_user.

(** ** Status transition ([update_order_status])

    [OrderStatusUpdate] is configured with [use_enum_values = True]: the
    validated model keeps in [status] the value of the requested member, a
    plain [str], not the member.  A [str] has no attribute [value], so
    reading [.value] from it raises [AttributeError]. *)

Inductive StatusField :=
  | Member (s : OrderStatus)
  | PlainStr (v : string).

Definition OrderStatus_value (s : OrderStatus) : string :=
  match s with
  | PENDING => "pending"
  | PROCESSING => "processing"
  | FULFILLED => "fulfilled"
  end.

(** [status_update.status] *)
Definition status_attribute (status_update : OrderStatusUpdate)
  : StatusField :=
  PlainStr (OrderStatus_value (osu_status status_update)).

(** [x.value]: the status a member stands for (the store keeps a status
    and its value apart no more than the column does). *)
Definition value_attribute (x : StatusField) : M OrderStatus :=
  match x with
  | Member s => ret s
  | PlainStr _ => raise_exception
  end.

Definition update_order_status (order_id : string)
    (status_update : OrderStatusUpdate) (current_user : Actor)
  : M OrderResponse :=
  try_except
    (do order_result <~
       execute (SelectOrder order_id) (select_order_by_id order_id) in
     match order_result with
     | [] => raise HTTP_404_NOT_FOUND (Text "Order not found")
     | current_order :: _ =>
         let new_status := status_attribute status_update in
         do value <~ value_attribute new_status in
         do update_result <~
           execute (UpdateOrderStatus order_id value)
                   (update_status order_id value) in
         match update_result with
         | [] =>
             raise HTTP_500_INTERNAL_SERVER_ERROR
                   (Text "Failed to update order status")
         | updated_order :: _ =>
             do order_items_data <~ read_order_items order_id in
             ret (order_response updated_order order_items_data)
         end
     end)
    "Internal server error during order status update".

Definition PUT_order_status (order_id : string)
    (status_update : OrderStatusUpdate) (payload : Actor) : M OrderResponse :=
  do current_user <~ require_warehouse_manager_or_admin payload in
  update_order_status order_id status_update current_user.

(** ** Inventory update ([routers/inventory.py], [update_inventory_item]) *)

Definition inventory_response (r : InventoryRow) : InventoryItemResponse :=
  {| iir_id := inv_id r; iir_name := inv_name r;
     iir_description := inv_description r;
     iir_stock_level := inv_stock_level r;
     iir_low_stock_threshold := inv_low_stock_threshold r |}.

Definition no_update (u : InventoryItemUpdate) : bool :=
  match iiu_name u, iiu_description u, iiu_stock_level u,
        iiu_low_stock_threshold u with
  | None, None, None, None => true
  | _, _, _, _ => false
  end.

Definition check_name_free (item_id : string) (item_data : InventoryItemUpdate)
  : M unit :=
  match iiu_name item_data with
  | None => ret tt
  | Some name =>
      do name_check_result <~
        execute (SelectInventoryByName name item_id)
                (select_inventory_by_name_except name item_id) in
      match name_check_result with
      | _ :: _ =>
          raise HTTP_409_CONFLICT
                (Text "Another inventory item with this name already exists")
      | [] => ret tt
      end
  end.

Definition update_inventory_item (item_id : string)
    (item_data : InventoryItemUpdate) (current_user : Actor)
  : M InventoryItemResponse :=
  try_except
    (do existing_item_result <~
       execute (SelectInventory item_id) (select_inventory_by_id item_id) in
     match existing_item_result with
     | [] => raise HTTP_404_NOT_FOUND (Text "Inventory item not found")
     | existing_item :: _ =>
         do _checked <~ check_name_free item_id item_data in
         if no_update item_data then ret (inventory_response existing_item)
         else
           do update_result <~
             execute (UpdateInventory item_id item_data)
                     (update_inventory_row item_id item_data) in
           match update_result with
           | [] =>
               raise HTTP_500_INTERNAL_SERVER_ERROR
                     (Text "Failed to update inventory item")
           | updated_item :: _ => ret (inventory_response updated_item)
           end
     end)
    "Internal server error during inventory item update".

Definition PUT_inventory_item (item_id : string)
    (item_data : InventoryItemUpdate) (payload : Actor)
  : M InventoryItemResponse :=
  do current_user <~ require_warehouse_manager_or_admin payload in
  update_inventory_item item_id item_data current_user.

(** ** Sample data *)

Definition item_A : InventoryRow :=
  {| inv_id := "A"; inv_name := "Oak plywood"; inv_description := None;
     inv_stock_level := 5; inv_low_stock_threshold := 1 |}.

Definition item_B : InventoryRow :=
  {| inv_id := "B"; inv_name := "Birch plywood"; inv_description := None;
     inv_stock_level := 2; inv_low_stock_threshold := 1 |}.

Definition store_AB : Store :=
  {| inventory_items := [item_A; item_B]; orders := []; order_items := [] |}.

Definition world_of (st : Store) (fs : list Fault) : World :=
  {| store := st; faults := fs; calls := [] |}.

Definition line (id : string) (q : Z) : OrderItemCreate :=
  {| oic_item_id := id; oic_quantity := q |}.

Definition request (ls : list OrderItemCreate) : OrderCreate :=
  {| oc_customer_name := "Acme Joinery"; oc_items := ls |}.

Definition sales : Actor := {| user_id := "u-sales"; role := "salesperson" |}.
Definition manager : Actor := {| user_id := "u-wm"; role := "warehouse_manager" |}.
Definition admin : Actor := {| user_id := "u-admin"; role := "admin" |}.

(** ** What a request means against a store

    The reference notions the theorems are stated with: the row a read by
    id yields, the problem (if any) a requested line has, and the calls of
    the commit phase. *)

Definition store_row (st : Store) (id : string) : option InventoryRow :=
  head (filter (λ r, inv_id r = id) (inventory_items st)).

Definition stock_of (st : Store) (id : string) : option Z :=
  inv_stock_level <$> store_row st id.

Definition name_of (st : Store) (id : string) : option string :=
  inv_name <$> store_row st id.

(** A line is unsatisfiable when its item is absent or holds less than the
    requested quantity; [line_error] is the entry reported for it. *)
Definition line_error (st : Store) (order_item : OrderItemCreate)
  : option string :=
  match store_row st (oic_item_id order_item) with
  | None => Some (not_found_message order_item)
  | Some r =>
      if decide (inv_stock_level r < oic_quantity order_item)
      then Some (insufficient_message order_item r)
      else None
  end.

Definition unsatisfiable (st : Store) (order_item : OrderItemCreate) : Prop :=
  store_row st (oic_item_id order_item) = None ∨
  ∃ r, store_row st (oic_item_id order_item) = Some r ∧
       inv_stock_level r < oic_quantity order_item.

Definition validation_errors (st : Store) (items : list OrderItemCreate)
  : list string :=
  omap (line_error st) items.

Definition cache_step (st : Store) (cached : gmap string InventoryRow)
    (order_item : OrderItemCreate) : gmap string InventoryRow :=
  match store_row st (oic_item_id order_item) with
  | Some r => <[oic_item_id order_item := r]> cached
  | None => cached
  end.

Definition cache_of (st : Store) (items : list OrderItemCreate)
    (cached : gmap string InventoryRow) : gmap string InventoryRow :=
  foldl (cache_step st) cached items.

(** The store behaves on its next [n] calls. *)
Definition quiet (n : nat) (fs : list Fault) : Prop :=
  Forall (λ f, f = NoFault) (take n fs).

Global Instance quiet_dec n fs : Decision (quiet n fs).
Proof. unfold quiet. apply _. Defined.

Definition stock_nonneg (st : Store) : Prop :=
  Forall (λ r, (0 ≤ inv_stock_level r)%Z) (inventory_items st).

Definition is_rejected {A} (o : Outcome A) : Prop :=
  match o with Return _ => False | _ => True end.

Definition new_calls (w w' : World) : list Query :=
  drop (length (calls w)) (calls w').

Definition forbidden (msg : string) : HTTPException :=
  {| status_code := HTTP_403_FORBIDDEN; detail := Text msg |}.

(** The world after the calls [qs] were answered and left the store [st]. *)
Definition after_calls (qs : list Query) (st : Store) (w : World) : World :=
  {| store := st; faults := drop (length qs) (faults w);
     calls := calls w ++ qs |}.

Definition select_calls (items : list OrderItemCreate) : list Query :=
  (λ order_item, SelectInventory (oic_item_id order_item)) <$> items.

(** A stock write that stores a non-negative level; any other call. *)
Definition nonneg_write (q : Query) : Prop :=
  match q with
  | UpdateStock _ v => 0 ≤ v
  | _ => True
  end.

Definition is_stock_write (q : Query) : bool :=
  match q with
  | UpdateStock _ _ => true
  | _ => false
  end.

(** A stock write that stores, for the item of one of the requested lines,
    the level the store held at [st] less that line's quantity, the
    quantity being within that level; any other call. *)
Definition validated_write (st : Store) (items : list OrderItemCreate)
    (q : Query) : Prop :=
  match q with
  | UpdateStock id v =>
      ∃ order_item r,
        order_item ∈ items ∧ oic_item_id order_item = id ∧
        store_row st id = Some r ∧
        oic_quantity order_item ≤ inv_stock_level r ∧
        v = inv_stock_level r - oic_quantity order_item
  | _ => True
  end.

(** A discipline on calls: it constrains stock writes only, and the stock
    writes it allows store non-negative levels. *)
Class StockDiscipline (good : Query → Prop) := {
  good_nonneg : ∀ q, good q → nonneg_write q;
  good_other : ∀ q, is_stock_write q = false → good q
}.

(** [w'] is reached from [w] by calls within the discipline, which keep
    stock levels non-negative. *)
Definition keeps_stock (good : Query → Prop) (w w' : World) : Prop :=
  (stock_nonneg (store w) → stock_nonneg (store w')) ∧
  ∃ qs, calls w' = calls w ++ qs ∧ Forall good qs.

(** Every run of [m] relates the world before to the world after by [R]. *)
Definition preserves {A} (R : relation World) (m : M A) : Prop :=
  ∀ w out w', m w = (out, w') → R w w'.

(** The commit phase against a store that answers: the response, the calls
    and the resulting store of one line, given the cached rows. *)
Definition line_response (line_id : string) (r : InventoryRow)
    (order_item : OrderItemCreate) : OrderItemResponse :=
  {| oir_id := line_id; oir_item_id := oic_item_id order_item;
     oir_item_name := inv_name r; oir_quantity := oic_quantity order_item |}.

Definition commit_store (order_id : string)
    (cached : gmap string InventoryRow) (st : Store)
    (order_item : OrderItemCreate) : Store :=
  match cached !! oic_item_id order_item with
  | Some r =>
      (update_stock_level (oic_item_id order_item)
         (inv_stock_level r - oic_quantity order_item)
         (insert_order_item order_id (oic_item_id order_item)
            (oic_quantity order_item) st).2).2
  | None => st
  end.

Definition commit_calls (order_id : string)
    (cached : gmap string InventoryRow) (order_item : OrderItemCreate)
  : list Query :=
  match cached !! oic_item_id order_item with
  | Some r =>
      [InsertOrderItem order_id (oic_item_id order_item)
                       (oic_quantity order_item);
       UpdateStock (oic_item_id order_item)
                   (inv_stock_level r - oic_quantity order_item)]
  | None => []
  end.

Fixpoint commit_responses (order_id : string)
    (cached : gmap string InventoryRow) (st : Store)
    (items : list OrderItemCreate) : list OrderItemResponse :=
  match items with
  | [] => []
  | order_item :: rest =>
      match cached !! oic_item_id order_item with
      | Some r =>
          line_response (fresh (used_ids st)) r order_item ::
          commit_responses order_id cached
            (commit_store order_id cached st order_item) rest
      | None => []
      end
  end.

(** The whole of a successful creation, as a function of the store. *)
Definition new_order_row (order_data : OrderCreate) (current_user : Actor)
    (st : Store) : OrderRow :=
  {| ord_id := fresh (used_ids st);
     ord_customer_name := oc_customer_name order_data;
     ord_status := PENDING; ord_created_by := user_id current_user |}.

Definition store_with_header (order_data : OrderCreate) (current_user : Actor)
    (st : Store) : Store :=
  (insert_order (oc_customer_name order_data) (user_id current_user)
                PENDING st).2.

Definition created_store (order_data : OrderCreate) (current_user : Actor)
    (st : Store) : Store :=
  foldl (commit_store (fresh (used_ids st))
                      (cache_of st (oc_items order_data) ∅))
        (store_with_header order_data current_user st)
        (oc_items order_data).

Definition created_calls (order_data : OrderCreate) (current_user : Actor)
    (st : Store) : list Query :=
  select_calls (oc_items order_data) ++
  [InsertOrder (oc_customer_name order_data) (user_id current_user) PENDING] ++
  mjoin (commit_calls (fresh (used_ids st))
                      (cache_of st (oc_items order_data) ∅)
           <$> oc_items order_data).

Definition created_response (order_data : OrderCreate) (current_user : Actor)
    (st : Store) : OrderResponse :=
  order_response (new_order_row order_data current_user st)
    (commit_responses (fresh (used_ids st))
       (cache_of st (oc_items order_data) ∅)
       (store_with_header order_data current_user st)
       (oc_items order_data)).

(** The number of calls a creation of [n] lines issues when nothing
    fails: [n] reads, the header, and a line and a stock write per line. *)
Definition creation_calls (n : nat) : nat := (n + 1 + 2 * n)%nat.

(** The reads of the inventory item [id] among the calls [qs]. *)
Definition is_read_of (id : string) (q : Query) : bool :=
  match q with
  | SelectInventory id' => bool_decide (id' = id)
  | _ => false
  end.

Definition reads_of (id : string) (qs : list Query) : nat :=
  length (filter (λ q, is_read_of id q) qs).

(** The requested lines that name the item [id]. *)
Definition lines_naming (id : string) (items : list OrderItemCreate)
  : list OrderItemCreate :=
  filter (λ order_item, oic_item_id order_item = id) items.

(** The stored line behind a line of a response, and the lines a read of
    an order yields from a store. *)
Definition line_row (order_id : string) (l : OrderItemResponse)
  : OrderItemRow :=
  {| oi_id := oir_id l; oi_order_id := order_id;
     oi_item_id := oir_item_id l; oi_quantity := oir_quantity l |}.

Definition order_lines (st : Store) (order_id : string)
  : list OrderItemResponse :=
  omap (λ row, (λ name, {| oir_id := oi_id row;
                            oir_item_id := oi_item_id row;
                            oir_item_name := name;
                            oir_quantity := oi_quantity row |})
                 <$> joined_name st row)
       (filter (λ row, oi_order_id row = order_id) (order_items st)).

(** What was asked for, line by line. *)
Definition requested (order_item : OrderItemCreate) : string * Z :=
  (oic_item_id order_item, oic_quantity order_item).

Definition delivered (l : OrderItemResponse) : string * Z :=
  (oir_item_id l, oir_quantity l).

(** The last requested line for an item. *)
Definition last_line (id : string) (items : list OrderItemCreate)
  : option OrderItemCreate :=
  last (filter (λ order_item, oic_item_id order_item = id) items).

(** The calls of the commit of one line, from the level the store held. *)
Definition line_calls (st : Store) (order_id : string)
    (order_item : OrderItemCreate) : list Query :=
  match store_row st (oic_item_id order_item) with
  | Some r =>
      [InsertOrderItem order_id (oic_item_id order_item)
                       (oic_quantity order_item);
       UpdateStock (oic_item_id order_item)
                   (inv_stock_level r - oic_quantity order_item)]
  | None => []
  end.

Definition insufficient_stock (errors : list string) : HTTPException :=
  {| status_code := HTTP_400_BAD_REQUEST;
     detail := insufficient_stock_detail errors |}.

Definition store_A : Store :=
  {| inventory_items := [item_A]; orders := []; order_items := [] |}.

Definition rename_to (name : string) : InventoryItemUpdate :=
  {| iiu_name := Some name; iiu_description := None;
     iiu_stock_level := None; iiu_low_stock_threshold := None |}.

Definition not_found (msg : string) : HTTPException :=
  {| status_code := HTTP_404_NOT_FOUND; detail := Text msg |}.

Definition internal_error (msg : string) : HTTPException :=
  {| status_code := HTTP_500_INTERNAL_SERVER_ERROR; detail := Text msg |}.

Definition to_status (s : OrderStatus) : OrderStatusUpdate :=
  {| osu_status := s |}.

(** A store with a fulfilled order of one line. *)
Definition store_fulfilled : Store :=
  {| inventory_items := [item_A; item_B];
     orders := [{| ord_id := "o1"; ord_customer_name := "Acme Joinery";
                   ord_status := FULFILLED; ord_created_by := "u-sales" |}];
     order_items := [{| oi_id := "l1"; oi_order_id := "o1";
                        oi_item_id := "B"; oi_quantity := 1 |}] |}.

(** ** Notions for the further properties *)

(** What identifies an inventory item besides its stock level. *)
Definition item_identity (r : InventoryRow)
  : string * string * option string * Z :=
  (inv_id r, inv_name r, inv_description r, inv_low_stock_threshold r).

(** The store [st] still holds the orders and order lines of [st0], in
    place, and the same inventory items up to their stock levels. *)
Definition records_kept (st0 st : Store) : Prop :=
  orders st0 `prefix_of` orders st ∧
  order_items st0 `prefix_of` order_items st ∧
  item_identity <$> inventory_items st = item_identity <$> inventory_items st0.

Definition keeps_records (st0 : Store) (w w' : World) : Prop :=
  records_kept st0 (store w) → records_kept st0 (store w').

(** No order and no order line of [st] carries the order id [order_id]. *)
Definition unused_order_id (order_id : string) (st : Store) : Prop :=
  Forall (λ r, ord_id r ≠ order_id) (orders st) ∧
  Forall (λ r, oi_order_id r ≠ order_id) (order_items st).

(** [w'] is reached from [w] by reads alone. *)
Definition reads_only (w w' : World) : Prop :=
  store w' = store w ∧
  ∃ qs, calls w' = calls w ++ qs ∧ Forall (λ q, is_write q = false) qs.

(** An inventory row as it was, or the row of [item_id] with the update
    [u] applied. *)
Definition item_changed (item_id : string) (u : InventoryItemUpdate)
    (r r' : InventoryRow) : Prop :=
  r' = r ∨ (inv_id r = item_id ∧ r' = apply_item_update u r).

(** [w'] differs from [w] at most in that the item [item_id] carries the
    update [u]. *)
Definition item_only (item_id : string) (u : InventoryItemUpdate)
    (w w' : World) : Prop :=
  orders (store w') = orders (store w) ∧
  order_items (store w') = order_items (store w) ∧
  Forall2 (item_changed item_id u)
          (inventory_items (store w)) (inventory_items (store w')).

(** The constraint [Field(None, ge=0)] of [InventoryItemUpdate] on the two
    counters. *)
Definition update_counters_valid (u : InventoryItemUpdate) : Prop :=
  (∀ v, iiu_stock_level u = Some v → 0 ≤ v) ∧
  (∀ v, iiu_low_stock_threshold u = Some v → 0 ≤ v).

(** ** The other guards and accessors of [auth/dependencies.py] *)

Definition require_admin (current_user : Actor) : M Actor :=
  if decide (role current_user ≠ "admin")
  then raise HTTP_403_FORBIDDEN (Text "Admin access required")
  else ret current_user.

Definition sales_roles : list string := ["salesperson"; "admin"].

Definition require_salesperson_or_admin (current_user : Actor) : M Actor :=
  if decide (role current_user ∉ sales_roles)
  then raise HTTP_403_FORBIDDEN (Text "Salesperson or admin access required")
  else ret current_user.

Definition get_user_id (current_user : Actor) : string := user_id current_user.

Definition get_user_role (current_user : Actor) : string := role current_user.

(** The guard lets the actor through. *)
Definition passes (guard : Actor → M Actor) (current_user : Actor) : Prop :=
  ∀ w, guard current_user w = (Return current_user, w).

(** The guard refuses the actor with 403 and touches nothing. *)
Definition refuses (guard : Actor → M Actor) (current_user : Actor) : Prop :=
  ∀ w, ∃ msg, guard current_user w = (RaiseHTTP (forbidden msg), w).

(** ** Text utilities ([utils/validators.py], [auth/password.py],
    [models/user.py])

    A [str] is the list of its code points, so that [len] counts
    characters.  The tables of the Unicode database that [re] and [str]
    consult are not part of the repository and are taken as parameters:
    the decimal digits that [\d] matches, the characters [str.isdigit]
    accepts, and the whitespace [str.strip] removes. *)

Definition text : Type := list N.

Definition text_of (s : string) : text :=
  Ascii.N_of_ascii <$> String.list_ascii_of_string s.

Definition in_range (lo hi c : N) : bool := (lo <=? c)%N && (c <=? hi)%N.

(** [re.search] of a pattern that is a single character class. *)
Definition re_search (class : N → bool) (s : text) : bool := existsb class s.

Definition upper (c : N) : bool := in_range 65 90 c.
Definition lower (c : N) : bool := in_range 97 122 c.

(** The class of the last rule; the double quote is code point 34. *)
Definition special_characters : text :=
  text_of "!@#$%^&*(),.?" ++ [34%N] ++ text_of ":{}|<>".

Definition special (c : N) : bool := bool_decide (c ∈ special_characters).

Definition too_short : string := "Password must be at least 8 characters long".
Definition no_upper : string :=
  "Password must contain at least one uppercase letter".
Definition no_lower : string :=
  "Password must contain at least one lowercase letter".
Definition no_digit : string := "Password must contain at least one number".
Definition no_special : string :=
  "Password must contain at least one special character".

Section text_utilities.
Context (unicode_decimal py_isdigit py_isspace : N → bool).

(** [auth/password.py] *)
Definition validate_password_complexity (password : text)
  : bool * option string :=
  if (length password <? 8)%nat then (false, Some too_short)
  else if negb (re_search upper password) then (false, Some no_upper)
  else if negb (re_search lower password) then (false, Some no_lower)
  else if negb (re_search unicode_decimal password) then (false, Some no_digit)
  else if negb (re_search special password) then (false, Some no_special)
  else (true, None).

Definition is_password_valid (password : text) : bool :=
  (validate_password_complexity password).1.

(** [utils/validators.py] *)
Definition validate_password_strength (password : text)
  : bool * list string :=
  let errors : list string := [] in
  let errors :=
    if (length password <? 8)%nat then errors ++ [too_short] else errors in
  let errors :=
    if negb (re_search upper password) then errors ++ [no_upper]
    else errors in
  let errors :=
    if negb (re_search lower password) then errors ++ [no_lower]
    else errors in
  let errors :=
    if negb (re_search unicode_decimal password) then errors ++ [no_digit]
    else errors in
  let errors :=
    if negb (re_search special password) then errors ++ [no_special]
    else errors in
  (bool_decide (length errors = 0%nat), errors).

(** The validator of [UserRegister.password] in [models/user.py]: the left
    injection is the [ValueError] raised, the right one the value
    returned. *)
Definition UserRegister_validate_password (v : text) : string + text :=
  if (length v <? 8)%nat then inl too_short
  else if negb (re_search upper v) then inl no_upper
  else if negb (re_search lower v) then inl no_lower
  else if negb (re_search unicode_decimal v) then inl no_digit
  else if negb (re_search special v) then inl no_special
  else inr v.

(** [str.isdigit]: false on the empty string. *)
Definition isdigit (s : text) : bool :=
  match s with
  | [] => false
  | _ => forallb py_isdigit s
  end.

Definition validate_phone_number (phone : text) : bool :=
  match phone with
  | [] => false
  | _ =>
      let digits_only := filter (λ c, unicode_decimal c = true) phone in
      (10 <=? length digits_only)%nat && (length digits_only <=? 14)%nat &&
      isdigit digits_only
  end.

Fixpoint lstrip (s : text) : text :=
  match s with
  | [] => []
  | c :: rest => if py_isspace c then lstrip rest else s
  end.

(** [str.strip()] *)
Definition strip (s : text) : text := rev (lstrip (rev (lstrip s))).

(** The class [[\x00-\x08\x0B\x0C\x0E-\x1F\x7F]]. *)
Definition is_control (c : N) : bool :=
  in_range 0 8 c || (c =? 11)%N || (c =? 12)%N || in_range 14 31 c ||
  (c =? 127)%N.

(** [s[:m]], for a bound [m] of either sign. *)
Definition slice_to (m : Z) (s : text) : text :=
  if m <? 0 then take (Z.to_nat (Z.of_nat (length s) + m)) s
  else take (Z.to_nat m) s.

(** [value] is [None] or a [str]; [max_length] is [None] or an [int]. *)
Definition sanitize_string_input (value : option text) (max_length : option Z)
  : text :=
  match value with
  | None => []
  | Some v =>
      let sanitized := strip v in
      let sanitized := filter (λ c, is_control c = false) sanitized in
      match max_length with
      | Some m =>
          if negb (m =? 0) && (m <? Z.of_nat (length sanitized))
          then slice_to m sanitized
          else sanitized
      | None => sanitized
      end
  end.
End text_utilities.

Definition quote : N := 39.

(** [value.replace] of each single quote by two. *)
Definition sanitize_sql_input (value : text) : text :=
  c ← value; if (c =? quote)%N then [quote; quote] else [c].

(** Every single quote of the text is one of a pair. *)
Inductive quotes_paired : text → Prop :=
  | paired_nil : quotes_paired []
  | paired_other c s : c ≠ quote → quotes_paired s → quotes_paired (c :: s)
  | paired_quotes s : quotes_paired s → quotes_paired (quote :: quote :: s).

(** The digits of ASCII, a stand-in for the Unicode tables in examples. *)
Definition ascii_digit (c : N) : bool := in_range 48 57 c.
Definition ascii_space (c : N) : bool :=
  (c =? 32)%N || in_range 9 13 c.

(** ** Handlers over other collections

    The handlers of [routers/users.py], [routers/auth.py] and the listing
    and creation of [routers/inventory.py] issue calls of other shapes and
    (for the first two) work on the collection of users.  They run in the
    same kind of monad, over a store type [S] and a call type [Q]. *)

Section handlers.
Context {S Q : Type}.

Record Db := {
  db_store : S;
  db_faults : list Fault;
  db_calls : list Q
}.

Definition Handler (A : Type) : Type := Db → Outcome A * Db.

Definition h_ret {A} (a : A) : Handler A := λ d, (Return a, d).

Definition h_bind {A B} (m : Handler A) (k : A → Handler B) : Handler B :=
  λ d,
  match m d with
  | (Return a, d') => k a d'
  | (RaiseHTTP e, d') => (RaiseHTTP e, d')
  | (RaiseException, d') => (RaiseException, d')
  end.

Definition h_raise {A} (code : nat) (msg : string) : Handler A := λ d,
  (RaiseHTTP {| status_code := code; detail := Text msg |}, d).

Definition h_raise_exception {A} : Handler A := λ d, (RaiseException, d).

(** [try: ... except HTTPException: raise / except Exception: raise
    HTTPException(500, msg)]. *)
Definition h_try {A} (body : Handler A) (msg : string) : Handler A := λ d,
  match body d with
  | (RaiseException, d') => (RaiseHTTP (internal_error msg), d')
  | r => r
  end.

(** [try: ... except Exception: raise HTTPException(500, msg)], with no
    clause that lets an [HTTPException] through. *)
Definition h_try_all {A} (body : Handler A) (msg : string) : Handler A := λ d,
  match body d with
  | (Return a, d') => (Return a, d')
  | (_, d') => (RaiseHTTP (internal_error msg), d')
  end.

Definition db_after (q : Q) (st : S) (d : Db) : Db :=
  {| db_store := st; db_faults := tail (db_faults d);
     db_calls := db_calls d ++ [q] |}.

Definition h_execute {A} (q : Q) (run : S → list A * S) : Handler (list A) :=
  λ d,
  match head (db_faults d) with
  | Some Raises => (RaiseException, db_after q (db_store d) d)
  | Some EmptyResult => (Return [], db_after q (db_store d) d)
  | _ => (Return (run (db_store d)).1, db_after q (run (db_store d)).2 d)
  end.

(** A value that may fail to build (a model that does not validate, a
    token that cannot be signed) raises. *)
Definition h_built {A} (o : option A) : Handler A :=
  match o with
  | Some a => h_ret a
  | None => h_raise_exception
  end.

Definition h_require_authenticated_user (current_user : Actor)
  : Handler Actor :=
  h_ret current_user.

Definition h_require_admin (current_user : Actor) : Handler Actor :=
  if decide (role current_user ≠ "admin")
  then h_raise HTTP_403_FORBIDDEN "Admin access required"
  else h_ret current_user.

Definition h_require_warehouse_manager_or_admin (current_user : Actor)
  : Handler Actor :=
  if decide (role current_user ∉ allowed_roles)
  then h_raise HTTP_403_FORBIDDEN "Warehouse manager or admin access required"
  else h_ret current_user.
End handlers.

Arguments Db : clear implicits.
Arguments Handler : clear implicits.

Notation "'hdo' x <~ m 'in' k" := (h_bind m (λ x, k))
  (at level 10, x name, m at level 100, k at level 200).

(** ** list UserRow ([models/user.py]) *)

Inductive UserRole := ADMIN | SALESPERSON | WAREHOUSE_MANAGER.

Inductive UserStatus := INVITED | ACTIVE.

Definition role_value (r : UserRole) : string :=
  match r with
  | ADMIN => "admin"
  | SALESPERSON => "salesperson"
  | WAREHOUSE_MANAGER => "warehouse_manager"
  end.

Definition status_value (s : UserStatus) : string :=
  match s with
  | INVITED => "invited"
  | ACTIVE => "active"
  end.

(** [UserRole(value)] and [UserStatus(value)]: no member, no value. *)
Definition to_role (v : string) : option UserRole :=
  if decide (v = "admin") then Some ADMIN
  else if decide (v = "salesperson") then Some SALESPERSON
  else if decide (v = "warehouse_manager") then Some WAREHOUSE_MANAGER
  else None.

Definition to_user_status (v : string) : option UserStatus :=
  if decide (v = "invited") then Some INVITED
  else if decide (v = "active") then Some ACTIVE
  else None.

Record UserCreate := {
  uc_email : string;
  uc_role : UserRole
}.

Record UserRegister := {
  reg_first_name : string;
  reg_last_name : string;
  reg_email : string;
  reg_phone_number : string;
  reg_emergency_contact_number : string;
  reg_password : string
}.

Record LoginRequest := {
  lr_email : string;
  lr_password : string
}.

Record UserResponse := {
  ur_id : string;
  ur_email : string;
  ur_first_name : option string;
  ur_last_name : option string;
  ur_phone_number : option string;
  ur_emergency_contact_number : option string;
  ur_role : UserRole;
  ur_status : UserStatus
}.

Record LoginResponse := {
  lg_access_token : string;
  lg_token_type : string;
  lg_user : UserResponse
}.

(** A row of the collection of users, as the store holds it. *)
Record UserRow := {
  usr_id : string;
  usr_email : string;
  usr_first_name : option string;
  usr_last_name : option string;
  usr_phone_number : option string;
  usr_emergency_contact_number : option string;
  usr_role : string;
  usr_status : string;
  usr_password_hash : option string
}.

(** [UserResponse(...)] of a row: it validates only when role and status
    are members of their enumerations. *)
Definition user_response (u : UserRow) : option UserResponse :=
  match to_role (usr_role u), to_user_status (usr_status u) with
  | Some r, Some s =>
      Some {| ur_id := usr_id u; ur_email := usr_email u;
              ur_first_name := usr_first_name u;
              ur_last_name := usr_last_name u;
              ur_phone_number := usr_phone_number u;
              ur_emergency_contact_number := usr_emergency_contact_number u;
              ur_role := r; ur_status := s |}
  | _, _ => None
  end.

(** The collection of users in the persistence collaborator: the
    filtered read, the insert, the update and the delete behave as they do
    on the other collections. *)
Inductive UserQuery :=
  | SelectUserByEmail (email : string)
  | SelectUserById (id : string)
  | SelectUsersByStatus (statuses : list string)
  | InsertUser (email role status : string)
  | UpdateUser (id : string) (registration : UserRegister) (hash : string)
  | DeleteUser (id : string).

Definition select_user_by_email (email : string) (us : list UserRow)
  : list UserRow * list UserRow :=
  (filter (λ u, usr_email u = email) us, us).

Definition select_user_by_id (id : string) (us : list UserRow)
  : list UserRow * list UserRow :=
  (filter (λ u, usr_id u = id) us, us).

Definition select_users_by_status (statuses : list string) (us : list UserRow)
  : list UserRow * list UserRow :=
  (filter (λ u, usr_status u ∈ statuses) us, us).

Definition insert_user (email role status : string) (us : list UserRow)
  : list UserRow * list UserRow :=
  let row := {| usr_id := fresh (usr_id <$> us); usr_email := email;
                usr_first_name := None; usr_last_name := None;
                usr_phone_number := None;
                usr_emergency_contact_number := None;
                usr_role := role; usr_status := status;
                usr_password_hash := None |} in
  ([row], us ++ [row]).

Definition registered (registration : UserRegister) (hash : string)
    (u : UserRow) : UserRow :=
  {| usr_id := usr_id u; usr_email := usr_email u;
     usr_first_name := Some (reg_first_name registration);
     usr_last_name := Some (reg_last_name registration);
     usr_phone_number := Some (reg_phone_number registration);
     usr_emergency_contact_number :=
       Some (reg_emergency_contact_number registration);
     usr_role := usr_role u; usr_status := "active";
     usr_password_hash := Some hash |}.

Definition update_user (id : string) (registration : UserRegister)
    (hash : string) (us : list UserRow) : list UserRow * list UserRow :=
  (registered registration hash <$> filter (λ u, usr_id u = id) us,
   update_where (λ u, usr_id u = id) (registered registration hash) us).

Definition delete_user_rows (id : string) (us : list UserRow)
  : list UserRow * list UserRow :=
  (filter (λ u, usr_id u = id) us, filter (λ u, usr_id u ≠ id) us).

Definition UserDb : Type := Db (list UserRow) UserQuery.

(** ** User management ([routers/users.py]) *)

Definition invitable_roles : list string := ["salesperson"; "warehouse_manager"].

Definition invite_user (user_data : UserCreate) (current_user : Actor)
  : Handler (list UserRow) UserQuery UserResponse :=
  h_try
    (hdo existing_user_result <~
       h_execute (SelectUserByEmail (uc_email user_data))
                 (select_user_by_email (uc_email user_data)) in
     match existing_user_result with
     | _ :: _ => h_raise HTTP_409_CONFLICT "User with this email already exists"
     | [] =>
         if decide (role_value (uc_role user_data) ∉ invitable_roles)
         then h_raise HTTP_400_BAD_REQUEST
                "Role must be either 'salesperson' or 'warehouse_manager'"
         else
           hdo result <~
             h_execute (InsertUser (uc_email user_data)
                                   (role_value (uc_role user_data)) "invited")
                       (insert_user (uc_email user_data)
                                    (role_value (uc_role user_data))
                                    "invited") in
           match result with
           | [] => h_raise HTTP_500_INTERNAL_SERVER_ERROR
                     "Failed to create user invitation"
           | created_user :: _ => h_built (user_response created_user)
           end
     end)
    "Internal server error during user invitation".

Definition POST_users_invite (user_data : UserCreate) (payload : Actor)
  : Handler (list UserRow) UserQuery UserResponse :=
  hdo current_user <~ h_require_admin payload in
  invite_user user_data current_user.

Definition user_responses (rows : list UserRow) : option (list UserResponse) :=
  mapM user_response rows.

Definition list_users (current_user : Actor)
  : Handler (list UserRow) UserQuery (list UserResponse) :=
  h_try_all
    (hdo result <~
       h_execute (SelectUsersByStatus ["invited"; "active"])
                 (select_users_by_status ["invited"; "active"]) in
     h_built (user_responses result))
    "Internal server error while retrieving users".

Definition GET_users (payload : Actor)
  : Handler (list UserRow) UserQuery (list UserResponse) :=
  hdo current_user <~ h_require_admin payload in
  list_users current_user.

Definition delete_user (id : string) (current_user : Actor)
  : Handler (list UserRow) UserQuery string :=
  h_try
    (hdo existing_user_result <~
       h_execute (SelectUserById id) (select_user_by_id id) in
     match existing_user_result with
     | [] => h_raise HTTP_404_NOT_FOUND "User not found"
     | _ :: _ =>
         if decide (id = user_id current_user)
         then h_raise HTTP_400_BAD_REQUEST "Cannot delete your own account"
         else
           hdo delete_result <~
             h_execute (DeleteUser id) (delete_user_rows id) in
           match delete_result with
           | [] => h_raise HTTP_500_INTERNAL_SERVER_ERROR
                     "Failed to delete user"
           | _ :: _ => h_ret "User deleted successfully"
           end
     end)
    "Internal server error during user deletion".

Definition DELETE_user (id : string) (payload : Actor)
  : Handler (list UserRow) UserQuery string :=
  hdo current_user <~ h_require_admin payload in
  delete_user id current_user.

(** ** Authentication ([routers/auth.py])

    bcrypt and the token library are not part of the repository:
    [verify_password] and [hash_password] stand for the two functions of
    [auth/password.py] built on bcrypt, [create_access_token] for the
    function of [auth/jwt_handler.py].  [verify_password] catches what
    bcrypt raises and answers [False]; [hash_password] does not, and
    raises when bcrypt refuses the password (the salt drawn by a call is
    not modelled); [create_access_token] raises when the token cannot be
    made.  A raise is [None]. *)

Section authentication.
Context (verify_password : string → string → bool).
Context (hash_password : string → option string).
Context (create_access_token : string → string → option string).

Definition has_hash (u : UserRow) : bool :=
  match usr_password_hash u with
  | None => false
  | Some h => negb (bool_decide (h = ""))
  end.

Definition login (login_data : LoginRequest)
  : Handler (list UserRow) UserQuery LoginResponse :=
  h_try
    (hdo result <~
       h_execute (SelectUserByEmail (lr_email login_data))
                 (select_user_by_email (lr_email login_data)) in
     match result with
     | [] => h_raise 401 "Invalid email or password"
     | user_data :: _ =>
         if decide (usr_status user_data ≠ "active")
         then h_raise 401
                "Account is not active. Please complete registration first."
         else if negb (has_hash user_data)
         then h_raise 401 "Invalid email or password"
         else if negb (verify_password (lr_password login_data)
                         (default "" (usr_password_hash user_data)))
         then h_raise 401 "Invalid email or password"
         else
           hdo access_token <~
             h_built (create_access_token (usr_id user_data)
                                          (usr_role user_data)) in
           hdo user_response <~ h_built (user_response user_data) in
           h_ret {| lg_access_token := access_token;
                    lg_token_type := "bearer";
                    lg_user := user_response |}
     end)
    "Internal server error during authentication".

Definition register (registration_data : UserRegister)
  : Handler (list UserRow) UserQuery UserResponse :=
  h_try
    (hdo result <~
       h_execute (SelectUserByEmail (reg_email registration_data))
                 (select_user_by_email (reg_email registration_data)) in
     match result with
     | [] => h_raise HTTP_403_FORBIDDEN
               "This email is not authorized to register"
     | user_data :: _ =>
         if decide (usr_status user_data ≠ "invited")
         then
           if decide (usr_status user_data = "active")
           then h_raise HTTP_409_CONFLICT
                  "User is already registered and active"
           else h_raise HTTP_403_FORBIDDEN
                  "This email is not authorized to register"
         else
           hdo password_hash <~
             h_built (hash_password (reg_password registration_data)) in
           hdo update_result <~
             h_execute (UpdateUser (usr_id user_data) registration_data
                                   password_hash)
                       (update_user (usr_id user_data) registration_data
                                    password_hash) in
           match update_result with
           | [] => h_raise HTTP_500_INTERNAL_SERVER_ERROR
                     "Failed to complete registration"
           | updated_user :: _ => h_built (user_response updated_user)
           end
     end)
    "Internal server error during registration".
End authentication.

(** ** Listing and creating inventory items ([routers/inventory.py]) *)

Record InventoryItemCreate := {
  iic_name : string;
  iic_description : option string;
  iic_stock_level : Z;
  iic_low_stock_threshold : Z
}.

Inductive CatalogueQuery :=
  | SelectAllItems
  | SelectItemsByName (name : string)
  | InsertItem (item_data : InventoryItemCreate).

Definition select_all_items (st : Store) : list InventoryRow * Store :=
  (inventory_items st, st).

Definition select_items_by_name (name : string) (st : Store)
  : list InventoryRow * Store :=
  (filter (λ r, inv_name r = name) (inventory_items st), st).

Definition insert_item (item_data : InventoryItemCreate) (st : Store)
  : list InventoryRow * Store :=
  let row := {| inv_id := fresh (used_ids st);
                inv_name := iic_name item_data;
                inv_description := iic_description item_data;
                inv_stock_level := iic_stock_level item_data;
                inv_low_stock_threshold := iic_low_stock_threshold item_data |} in
  ([row], {| inventory_items := inventory_items st ++ [row];
             orders := orders st;
             order_items := order_items st |}).

Definition list_inventory_items (current_user : Actor)
  : Handler Store CatalogueQuery (list InventoryItemResponse) :=
  h_try_all
    (hdo result <~ h_execute SelectAllItems select_all_items in
     h_ret (inventory_response <$> result))
    "Internal server error while retrieving inventory items".

Definition GET_inventory (payload : Actor)
  : Handler Store CatalogueQuery (list InventoryItemResponse) :=
  hdo current_user <~ h_require_authenticated_user payload in
  list_inventory_items current_user.

Definition create_inventory_item (item_data : InventoryItemCreate)
    (current_user : Actor)
  : Handler Store CatalogueQuery InventoryItemResponse :=
  h_try
    (hdo existing_item_result <~
       h_execute (SelectItemsByName (iic_name item_data))
                 (select_items_by_name (iic_name item_data)) in
     match existing_item_result with
     | _ :: _ => h_raise HTTP_409_CONFLICT
                   "Inventory item with this name already exists"
     | [] =>
         hdo result <~
           h_execute (InsertItem item_data) (insert_item item_data) in
         match result with
         | [] => h_raise HTTP_500_INTERNAL_SERVER_ERROR
                   "Failed to create inventory item"
         | created_item :: _ => h_ret (inventory_response created_item)
         end
     end)
    "Internal server error during inventory item creation".

Definition POST_inventory (item_data : InventoryItemCreate) (payload : Actor)
  : Handler Store CatalogueQuery InventoryItemResponse :=
  hdo current_user <~ h_require_warehouse_manager_or_admin payload in
  create_inventory_item item_data current_user.

(** [is_low_stock] of [InventoryItemResponse] ([models/inventory.py]). *)
Definition is_low_stock (r : InventoryItemResponse) : bool :=
  bool_decide (iir_stock_level r ≤ iir_low_stock_threshold r).

Definition db_of {S Q} (st : S) (fs : list Fault) : Db S Q :=
  {| db_store := st; db_faults := fs; db_calls := [] |}.

(** ** Reference notions and sample data for users and the catalogue *)

(** A row that is an invitation for [email]. *)
Definition invitation_for (email : string) (u : UserRow) : Prop :=
  usr_email u = email ∧ usr_status u = "invited" ∧
  usr_role u ∈ invitable_roles ∧ usr_password_hash u = None.

Definition user_emails (us : list UserRow) : list string := usr_email <$> us.

Definition user_ids (us : list UserRow) : list string := usr_id <$> us.

(** What a registration may do to a row: nothing, or complete it, under
    the hash made of the password, when it is the invitation for the
    address given. *)
Definition registration_step (registration : UserRegister)
    (hash : option string) (u u' : UserRow) : Prop :=
  u' = u ∨
  (usr_status u = "invited" ∧ usr_email u = reg_email registration ∧
   ∃ h, hash = Some h ∧ u' = registered registration h u).

Definition sample_admin_row : UserRow :=
  {| usr_id := "u-admin"; usr_email := "root@example.com";
     usr_first_name := Some "Ada"; usr_last_name := Some "Root";
     usr_phone_number := Some "5551234567";
     usr_emergency_contact_number := Some "5557654321";
     usr_role := "admin"; usr_status := "active";
     usr_password_hash := Some "#Secret1!" |}.

Definition sample_invited_row : UserRow :=
  {| usr_id := "u-kim"; usr_email := "kim@example.com";
     usr_first_name := None; usr_last_name := None;
     usr_phone_number := None; usr_emergency_contact_number := None;
     usr_role := "salesperson"; usr_status := "invited";
     usr_password_hash := None |}.

Definition sample_users : list UserRow := [sample_admin_row; sample_invited_row].

Definition invitation (email : string) (r : UserRole) : UserCreate :=
  {| uc_email := email; uc_role := r |}.

Definition registration (email password : string) : UserRegister :=
  {| reg_first_name := "Kim"; reg_last_name := "Lee"; reg_email := email;
     reg_phone_number := "5550001111";
     reg_emergency_contact_number := "5550002222";
     reg_password := password |}.

Definition credentials (email password : string) : LoginRequest :=
  {| lr_email := email; lr_password := password |}.

(** Stand-ins for bcrypt and the token library in the examples. *)
Definition sample_hash (password : string) : option string :=
  Some (String.append "#" password).

Definition sample_verify (password hashed : string) : bool :=
  bool_decide (Some hashed = sample_hash password).

Definition sample_token (id r : string) : option string :=
  Some (String.append id (String.append ":" r)).

Definition sample_item : InventoryItemCreate :=
  {| iic_name := "Maple plywood"; iic_description := None;
     iic_stock_level := 7; iic_low_stock_threshold := 2 |}.

(** * Properties *)

(** ** The monad and [execute] *)

Lemma quiet_0 fs : quiet 0 fs.
Proof. unfold quiet. rewrite take_0. constructor. Qed.

Lemma quiet_S n fs :
  quiet (S n) fs ↔ fs = [] ∨ ∃ fs', fs = NoFault :: fs' ∧ quiet n fs'.
Proof.
  unfold quiet. destruct fs as [|f fs]; simpl.
  - split; [by left | constructor].
  - rewrite Forall_cons. split.
    + intros [-> H]. right. by exists fs.
    + intros [?|(fs' & [= -> ->] & H)]; done.
Qed.

Lemma quiet_nil n : quiet n [].
Proof. unfold quiet. rewrite take_nil. constructor. Qed.

Lemma quiet_le n m fs : (n ≤ m)%nat → quiet m fs → quiet n fs.
Proof.
  unfold quiet. intros Hle H.
  replace n with (n `min` m)%nat by lia.
  rewrite <- take_take. by apply Forall_take.
Qed.

Lemma quiet_tail n fs : quiet (S n) fs → quiet n (tail fs).
Proof.
  rewrite quiet_S. intros [->|(fs' & -> & H)]; [apply quiet_nil | done].
Qed.

Lemma quiet_drop n m fs : quiet (n + m) fs → quiet m (drop n fs).
Proof.
  revert fs. induction n as [|n IH]; intros fs H; [done|].
  destruct fs as [|f fs]; [rewrite drop_nil; apply quiet_nil|].
  simpl. apply IH. by apply (quiet_tail _ (f :: fs)).
Qed.

Lemma execute_quiet {A} q (run : Store → list A * Store) w :
  quiet 1 (faults w) →
  execute q run w = (Return (run (store w)).1, after_call q (run (store w)).2 w).
Proof.
  rewrite quiet_S. unfold execute.
  intros [->|(fs' & -> & _)]; done.
Qed.

(** Whatever the store does, a call leaves it as [run] would or untouched. *)
Lemma execute_inv {A} q (run : Store → list A * Store) w out w' :
  execute q run w = (out, w') →
  faults w' = tail (faults w) ∧ calls w' = calls w ++ [q] ∧
  ((out = RaiseException ∧ store w' = store w ∧ ¬ quiet 1 (faults w)) ∨
   (out = Return [] ∧ store w' = store w ∧ ¬ quiet 1 (faults w)) ∨
   (out = Return (run (store w)).1 ∧ store w' = (run (store w)).2 ∧
    quiet 1 (faults w))).
Proof.
  unfold execute. intros H.
  destruct (faults w) as [|[] fs] eqn:Hf; simpl in H; simplify_eq; simpl;
    rewrite ?Hf; (split; [done|split; [done|]]).
  - right; right. split_and!; [done..|apply quiet_nil].
  - right; right. split_and!; [done..|]. apply quiet_S. right. eexists.
    split; [done|apply quiet_0].
  - right; left. split_and!; [done..|]. rewrite quiet_S.
    intros [?|(? & ? & _)]; simplify_eq.
  - left. split_and!; [done..|]. rewrite quiet_S.
    intros [?|(? & ? & _)]; simplify_eq.
Qed.

Lemma bind_eq {A B} (m : M A) (k : A → M B) w :
  bind m k w =
  match m w with
  | (Return a, w') => k a w'
  | (RaiseHTTP e, w') => (RaiseHTTP e, w')
  | (RaiseException, w') => (RaiseException, w')
  end.
Proof. done. Qed.

Lemma execute_no_http {A} q (run : Store → list A * Store) w e w' :
  execute q run w ≠ (RaiseHTTP e, w').
Proof.
  intros H. apply execute_inv in H as (_ & _ & [(? & _)|[(? & _)|(? & _)]]);
    discriminate.
Qed.

Lemma read_order_items_no_http order_id w e w' :
  read_order_items order_id w ≠ (RaiseHTTP e, w').
Proof.
  unfold read_order_items. rewrite bind_eq.
  destruct (execute _ _ w) as [[rows|e1|] w1] eqn:E.
  - destruct (order_item_responses rows); unfold ret, raise_exception; congruence.
  - by apply execute_no_http in E.
  - congruence.
Qed.

(** ** Role gates *)

Lemma require_salesperson_other payload w :
  role payload ≠ "salesperson" →
  require_salesperson payload w =
  (RaiseHTTP (forbidden "Salesperson access required"), w).
Proof. intros H. unfold require_salesperson. by rewrite decide_True. Qed.

Lemma require_salesperson_ok payload w :
  role payload = "salesperson" →
  require_salesperson payload w = (Return payload, w).
Proof.
  intros H. unfold require_salesperson. rewrite decide_False; [done|].
  by intros ?.
Qed.

Lemma require_manager_ok payload w :
  role payload = "warehouse_manager" ∨ role payload = "admin" →
  require_warehouse_manager_or_admin payload w = (Return payload, w).
Proof.
  intros H. unfold require_warehouse_manager_or_admin, allowed_roles.
  rewrite decide_False; [done|]. intros Hn. apply Hn.
  destruct H as [-> | ->]; [by left|right; by left].
Qed.

Lemma require_manager_other payload w :
  role payload ≠ "warehouse_manager" → role payload ≠ "admin" →
  require_warehouse_manager_or_admin payload w =
  (RaiseHTTP (forbidden "Warehouse manager or admin access required"), w).
Proof.
  intros H1 H2. unfold require_warehouse_manager_or_admin, allowed_roles.
  rewrite decide_True; [done|]. intros Hin.
  apply elem_of_cons in Hin as [?|Hin]; [done|].
  apply elem_of_cons in Hin as [?|Hin]; [done|].
  by apply elem_of_nil in Hin.
Qed.

Lemma POST_orders_salesperson order_data payload w :
  role payload = "salesperson" →
  POST_orders order_data payload w = create_order order_data payload w.
Proof.
  intros H. unfold POST_orders. rewrite bind_eq.
  by rewrite require_salesperson_ok.
Qed.

Lemma PUT_order_status_allowed order_id su payload w :
  role payload = "warehouse_manager" ∨ role payload = "admin" →
  PUT_order_status order_id su payload w =
  update_order_status order_id su payload w.
Proof.
  intros H. unfold PUT_order_status. rewrite bind_eq.
  by rewrite require_manager_ok.
Qed.

Lemma get_order_details_status order_id current_user w e w' :
  get_order_details order_id current_user w = (RaiseHTTP e, w') →
  status_code e = HTTP_404_NOT_FOUND ∨
  status_code e = HTTP_500_INTERNAL_SERVER_ERROR.
Proof.
  unfold get_order_details, try_except. rewrite bind_eq.
  destruct (execute _ _ w) as [[rows|e1|] w1] eqn:E.
  - destruct rows as [|order rows].
    + unfold raise. intros [= <- <-]. by left.
    + rewrite bind_eq.
      destruct (read_order_items order_id w1) as [[its|e2|] w2] eqn:R.
      * unfold ret. intros [=].
      * by apply read_order_items_no_http in R.
      * intros [= <- <-]. by right.
  - by apply execute_no_http in E.
  - intros [= <- <-]. by right.
Qed.

(** C10.  Creating an order is open to the role [salesperson] alone: any
    other role, [admin] included, gets 403 Forbidden with no call issued and
    the world untouched.  A status transition is open to
    [warehouse_manager] and [admin] alone.  Reading an order does not look
    at the role: it answers every actor alike and never with 403. *)
Theorem role_gates :
  (∀ order_data payload w,
     role payload ≠ "salesperson" →
     POST_orders order_data payload w =
     (RaiseHTTP (forbidden "Salesperson access required"), w)) ∧
  (∀ order_data w,
     POST_orders order_data admin w =
     (RaiseHTTP (forbidden "Salesperson access required"), w)) ∧
  (∀ order_data payload w resp w',
     POST_orders order_data payload w = (Return resp, w') →
     role payload = "salesperson") ∧
  (∀ order_id su payload w,
     role payload ≠ "warehouse_manager" → role payload ≠ "admin" →
     PUT_order_status order_id su payload w =
     (RaiseHTTP (forbidden "Warehouse manager or admin access required"), w)) ∧
  (∀ order_id su payload w resp w',
     PUT_order_status order_id su payload w = (Return resp, w') →
     role payload = "warehouse_manager" ∨ role payload = "admin") ∧
  (∀ order_id payload payload' w,
     GET_order order_id payload w = GET_order order_id payload' w) ∧
  (∀ order_id payload w e w',
     GET_order order_id payload w = (RaiseHTTP e, w') →
     status_code e ≠ HTTP_403_FORBIDDEN).
Proof.
  split_and!.
  - intros order_data payload w H. unfold POST_orders. rewrite bind_eq.
    by rewrite require_salesperson_other.
  - intros order_data w. unfold POST_orders. rewrite bind_eq.
    by rewrite require_salesperson_other.
  - intros order_data payload w resp w' H.
    destruct (decide (role payload = "salesperson")) as [|Hn]; [done|].
    unfold POST_orders in H. rewrite bind_eq in H.
    by rewrite require_salesperson_other in H.
  - intros order_id su payload w H1 H2. unfold PUT_order_status.
    rewrite bind_eq. by rewrite require_manager_other.
  - intros order_id su payload w resp w' H.
    destruct (decide (role payload = "warehouse_manager")) as [|H1]; [by left|].
    destruct (decide (role payload = "admin")) as [|H2]; [by right|].
    unfold PUT_order_status in H. rewrite bind_eq in H.
    by rewrite require_manager_other in H.
  - done.
  - intros order_id payload w e w' H. unfold GET_order in H.
    rewrite bind_eq in H. simpl in H.
    apply get_order_details_status in H as [-> | ->]; done.
Qed.

(** ** Pre-validation *)

Lemma after_call_calls q st w : after_call q st w = after_calls [q] st w.
Proof. unfold after_call, after_calls. simpl. by destruct (faults w). Qed.

Lemma after_calls_compose qs1 qs2 st1 st2 w :
  after_calls qs2 st2 (after_calls qs1 st1 w) = after_calls (qs1 ++ qs2) st2 w.
Proof.
  unfold after_calls. simpl. f_equal.
  - by rewrite drop_drop, length_app.
  - by rewrite <- app_assoc.
Qed.

Lemma after_calls_nil w : after_calls [] (store w) w = w.
Proof. destruct w. unfold after_calls. simpl. by rewrite app_nil_r. Qed.

Lemma validate_stock_quiet items : ∀ errs cached w,
  quiet (length items) (faults w) →
  validate_stock items errs cached w =
  (Return (errs ++ validation_errors (store w) items,
           cache_of (store w) items cached),
   after_calls (select_calls items) (store w) w).
Proof.
  induction items as [|order_item items IH]; intros errs cached w Hq.
  - simpl. unfold ret. by rewrite app_nil_r, after_calls_nil.
  - cbn [validate_stock]. rewrite bind_eq, execute_quiet
      by (eapply quiet_le; [|done]; simpl; lia).
    cbn [select_inventory_by_id fst snd]. rewrite after_call_calls.
    assert (Hq' : quiet (length items)
                    (faults (after_calls [SelectInventory (oic_item_id order_item)]
                                         (store w) w))).
    { simpl. by apply (quiet_drop 1). }
    unfold validation_errors, cache_of. cbn [omap list_omap foldl].
    unfold line_error at 1, cache_step at 2, store_row.
    destruct (filter _ (inventory_items (store w))) as [|r rows] eqn:Hrows;
      cbn [head].
    + rewrite IH by done. rewrite after_calls_compose. cbn [store after_calls].
      by rewrite <- app_assoc.
    + destruct (decide (inv_stock_level r < oic_quantity order_item));
        rewrite IH by done; rewrite after_calls_compose; cbn [store after_calls];
        by rewrite <- ?app_assoc.
Qed.

Lemma validate_stock_inv items : ∀ errs cached w out w',
  validate_stock items errs cached w = (out, w') →
  store w' = store w ∧
  (∃ k, calls w' = calls w ++ select_calls (take k items)) ∧
  match out with
  | Return validated =>
      ∃ more, validated.1 = errs ++ more ∧
              (more = [] → quiet (length items) (faults w))
  | RaiseHTTP _ => False
  | RaiseException => True
  end.
Proof.
  induction items as [|order_item items IH]; intros errs cached w out w' H.
  - simpl in H. unfold ret in H. simplify_eq. split; [done|]. split.
    + exists 0%nat. simpl. by rewrite app_nil_r.
    + exists []. simpl. rewrite app_nil_r. split; [done|]. intros _. apply quiet_0.
  - cbn [validate_stock] in H. rewrite bind_eq in H.
    destruct (execute _ _ w) as [o w1] eqn:E.
    apply execute_inv in E as (Hf & Hc & Hcase).
    assert (Hstep : ∀ errs1 cached1 more1,
      validate_stock items errs1 cached1 w1 = (out, w') →
      store w1 = store w →
      errs1 = errs ++ more1 →
      (more1 = [] → quiet 1 (faults w)) →
      store w' = store w ∧
      (∃ k, calls w' = calls w ++ select_calls (take k (order_item :: items))) ∧
      match out with
      | Return validated =>
          ∃ more, validated.1 = errs ++ more ∧
                  (more = [] → quiet (length (order_item :: items)) (faults w))
      | RaiseHTTP _ => False
      | RaiseException => True
      end).
    { intros errs1 cached1 more1 Hv Hst -> Hq1.
      apply IH in Hv as (Hs & (k & Hk) & Ho). split; [congruence|]. split.
      - exists (S k). rewrite Hk, Hc. simpl. by rewrite <- app_assoc.
      - destruct out as [validated| |]; [|done..].
        destruct Ho as (more & Hm & Hq). exists (more1 ++ more).
        rewrite Hm, <- app_assoc. split; [done|].
        intros [-> ->]%app_eq_nil. specialize (Hq eq_refl). specialize (Hq1 eq_refl).
        rewrite Hf in Hq. apply quiet_S. apply quiet_S in Hq1.
        destruct Hq1 as [Hnil|(fs' & Hfs & _)].
        + by left.
        + right. exists fs'. split; [done|]. by rewrite Hfs in Hq. }
    destruct Hcase as [(-> & Hs & _)|[(-> & Hs & _)|(-> & Hs & Hq1)]].
    + simplify_eq. split; [done|]. split; [|done].
      exists 1%nat. simpl. by destruct items.
    + eapply (Hstep _ _ [_]); [exact H|done|done|done].
    + cbn [select_inventory_by_id fst snd] in *.
      destruct (filter _ (inventory_items (store w))) as [|r rows].
      * eapply (Hstep _ _ [_]); [exact H|done|done|done].
      * destruct (decide (inv_stock_level r < oic_quantity order_item)).
        -- eapply (Hstep _ _ [_]); [exact H|done|done|done].
        -- eapply (Hstep _ _ []); [exact H|done|by rewrite app_nil_r|done].
Qed.

(** ** A relational logic for handlers *)

Section preserves.
Context (R : relation World) `{!PreOrder R}.

Lemma preserves_ret {A} (a : A) : preserves R (ret a).
Proof. intros w out w' [= <- <-]. done. Qed.

Lemma preserves_raise {A} code d : preserves R (@raise A code d).
Proof. intros w out w' [= <- <-]. done. Qed.

Lemma preserves_raise_exception {A} : preserves R (@raise_exception A).
Proof. intros w out w' [= <- <-]. done. Qed.

Lemma preserves_bind {A B} (m : M A) (k : A → M B) :
  preserves R m → (∀ a, preserves R (k a)) → preserves R (bind m k).
Proof.
  intros Hm Hk w out w'. rewrite bind_eq.
  destruct (m w) as [[a|e|] w1] eqn:E.
  - intros H. etrans; [by eapply Hm|by eapply Hk].
  - intros [= <- <-]. by eapply Hm.
  - intros [= <- <-]. by eapply Hm.
Qed.

Lemma preserves_try_except {A} (m : M A) msg :
  preserves R m → preserves R (try_except m msg).
Proof.
  intros Hm w out w'. unfold try_except.
  destruct (m w) as [[a|e|] w1] eqn:E; intros [= <- <-]; by eapply Hm.
Qed.

Lemma preserves_execute {A} q (run : Store → list A * Store) :
  (∀ w, R w (after_call q (store w) w)) →
  (∀ w, quiet 1 (faults w) → R w (after_call q (run (store w)).2 w)) →
  preserves R (execute q run).
Proof.
  intros Hsame Hrun w out w' H. unfold execute in H.
  destruct (head (faults w)) as [[]|] eqn:Hh; simplify_eq; try apply Hsame;
    apply Hrun; destruct (faults w) as [|f fs]; simplify_eq/=;
    try apply quiet_nil.
  apply quiet_S. right. eexists. split; [done|apply quiet_0].
Qed.
End preserves.

Global Instance nonneg_write_discipline : StockDiscipline nonneg_write.
Proof. split; [done|]. by intros []. Qed.

Global Instance validated_write_discipline st items :
  StockDiscipline (validated_write st items).
Proof.
  split.
  - intros [] H; try done. simpl in *.
    destruct H as (oi & r & _ & _ & _ & Hq & ->). lia.
  - by intros [].
Qed.

Section keeps_stock.
Context (good : Query → Prop) `{!StockDiscipline good}.

Global Instance keeps_stock_preorder : PreOrder (keeps_stock good).
Proof.
  split.
  - intros w. split; [done|]. exists []. by rewrite app_nil_r.
  - intros w1 w2 w3 [H1 (qs1 & Hc1 & Hq1)] [H2 (qs2 & Hc2 & Hq2)].
    split; [auto|]. exists (qs1 ++ qs2).
    rewrite Hc2, Hc1, <- app_assoc. split; [done|]. by apply Forall_app.
Qed.

Lemma keeps_stock_call q st w :
  good q →
  (stock_nonneg (store w) → stock_nonneg st) →
  keeps_stock good w (after_call q st w).
Proof.
  intros Hq Hst. split; [done|]. exists [q]. split; [done|].
  by constructor.
Qed.

Lemma stock_nonneg_update id v st :
  0 ≤ v → stock_nonneg st → stock_nonneg (update_stock_level id v st).2.
Proof.
  unfold stock_nonneg, update_stock_level, update_where.
  cbn [snd inventory_items].
  intros Hv H. rewrite Forall_fmap. eapply Forall_impl; [exact H|].
  intros r Hr. simpl. by case_decide.
Qed.

Lemma keeps_stock_select {A} q (run : Store → list A * Store) :
  is_stock_write q = false →
  (∀ st, inventory_items (run st).2 = inventory_items st) →
  preserves (keeps_stock good) (execute q run).
Proof.
  intros Hq Hrun. apply (preserves_execute (keeps_stock good)); intros w;
    [|intros _]; apply keeps_stock_call; try done; try by apply good_other.
  unfold stock_nonneg. by rewrite Hrun.
Qed.

Lemma keeps_stock_rollback {A} order_id msg :
  preserves (keeps_stock good) (@rollback A order_id msg).
Proof.
  unfold rollback. apply (preserves_bind (keeps_stock good)).
  - by apply keeps_stock_select.
  - intros _. apply (preserves_raise (keeps_stock good)).
Qed.

Lemma keeps_stock_commit_line order_id cached order_item :
  (∀ r, cached !! oic_item_id order_item = Some r →
        good (UpdateStock (oic_item_id order_item)
                (inv_stock_level r - oic_quantity order_item))) →
  preserves (keeps_stock good) (commit_line order_id cached order_item).
Proof.
  intros Hc. unfold commit_line. apply (preserves_bind (keeps_stock good)).
  - by apply keeps_stock_select.
  - intros [|created_item rows]; [apply keeps_stock_rollback|].
    destruct (cached !! oic_item_id order_item) as [r|] eqn:Hr;
      [|apply (preserves_raise_exception (keeps_stock good))].
    specialize (Hc r eq_refl). apply (preserves_bind (keeps_stock good)).
    + apply (preserves_execute (keeps_stock good)); intros w; [|intros _];
        apply keeps_stock_call; simpl; try done.
      apply stock_nonneg_update. by apply good_nonneg in Hc.
    + intros [|? ?]; [apply keeps_stock_rollback|].
      apply (preserves_ret (keeps_stock good)).
Qed.

Lemma keeps_stock_commit_lines order_id cached items : ∀ acc,
  (∀ order_item r, order_item ∈ items →
     cached !! oic_item_id order_item = Some r →
     good (UpdateStock (oic_item_id order_item)
             (inv_stock_level r - oic_quantity order_item))) →
  preserves (keeps_stock good) (commit_lines order_id cached items acc).
Proof.
  induction items as [|order_item items IH]; intros acc Hc.
  - apply (preserves_ret (keeps_stock good)).
  - cbn [commit_lines]. apply (preserves_bind (keeps_stock good)).
    + apply keeps_stock_commit_line. intros r. apply Hc. by left.
    + intros line. apply IH. intros oi r Hin. apply Hc. by right.
Qed.

Lemma keeps_stock_validate items errs cached :
  preserves (keeps_stock good) (validate_stock items errs cached).
Proof.
  intros w out w' H. apply validate_stock_inv in H as (Hs & (k & Hk) & _).
  split; [by rewrite Hs|]. eexists. split; [done|].
  unfold select_calls. rewrite Forall_fmap. apply Forall_true.
  intros oi. simpl. by apply (good_other (good:=good)).
Qed.
End keeps_stock.

Lemma keeps_stock_weaken (good good' : Query → Prop) w w' :
  (∀ q, good q → good' q) → keeps_stock good w w' → keeps_stock good' w w'.
Proof.
  intros Hg [H (qs & Hc & Hq)]. split; [done|]. exists qs. split; [done|].
  by eapply Forall_impl.
Qed.

(** ** What pre-validation establishes *)

Lemma unsatisfiable_line_error st order_item :
  unsatisfiable st order_item ↔ is_Some (line_error st order_item).
Proof.
  unfold unsatisfiable, line_error.
  destruct (store_row st (oic_item_id order_item)) as [r|].
  - case_decide; split.
    + by eexists.
    + intros _. right. by exists r.
    + intros [?|(r' & [= <-] & ?)]; [done|lia].
    + by intros [? ?].
  - split; [by eexists|by left].
Qed.

Lemma satisfiable_line_error st order_item :
  line_error st order_item = None ↔
  ∃ r, store_row st (oic_item_id order_item) = Some r ∧
       oic_quantity order_item ≤ inv_stock_level r.
Proof.
  unfold line_error.
  destruct (store_row st (oic_item_id order_item)) as [r|].
  - case_decide; split; try done.
    + intros (r' & [= <-] & ?). lia.
    + intros _. exists r. split; [done|lia].
  - split; [done|]. by intros (r & ? & _).
Qed.

Lemma validation_errors_nil st items :
  validation_errors st items = [] ↔
  ∀ order_item, order_item ∈ items → line_error st order_item = None.
Proof.
  unfold validation_errors. induction items as [|x items IH]; simpl.
  - split; [|done]. intros _ oi Hin. by apply elem_of_nil in Hin.
  - destruct (line_error st x) eqn:Hx.
    + split; [done|]. intros H. specialize (H x). rewrite Hx in H.
      discriminate H. by left.
    + rewrite IH. split.
      * intros H oi [->|Hin]%elem_of_cons; auto.
      * intros H oi Hin. apply H. by right.
Qed.


Lemma cache_of_lookup st items : ∀ cached id r,
  cache_of st items cached !! id = Some r →
  cached !! id = Some r ∨ store_row st id = Some r.
Proof.
  unfold cache_of.
  induction items as [|x items IH]; intros cached id r H; [by left|].
  simpl in H. apply IH in H as [H|H]; [|by right].
  unfold cache_step in H. destruct (store_row st (oic_item_id x)) as [r'|] eqn:Hx;
    [|by left].
  destruct (decide (oic_item_id x = id)) as [<-|Hne].
  - rewrite lookup_insert_eq in H. right. congruence.
  - rewrite lookup_insert_ne in H by done. by left.
Qed.

Lemma cache_of_stable st items : ∀ cached id r,
  cached !! id = Some r → store_row st id = Some r →
  cache_of st items cached !! id = Some r.
Proof.
  unfold cache_of.
  induction items as [|x items IH]; intros cached id r Hc Hs; [done|].
  simpl. apply IH; [|done]. unfold cache_step.
  destruct (store_row st (oic_item_id x)) as [r'|] eqn:Hx; [|done].
  destruct (decide (oic_item_id x = id)) as [<-|Hne].
  - rewrite lookup_insert_eq. congruence.
  - by rewrite lookup_insert_ne.
Qed.

Lemma cache_of_covers st items : ∀ cached order_item r,
  order_item ∈ items →
  store_row st (oic_item_id order_item) = Some r →
  cache_of st items cached !! oic_item_id order_item = Some r.
Proof.
  induction items as [|x items IH]; intros cached oi r Hin Hs.
  - by apply elem_of_nil in Hin.
  - apply elem_of_cons in Hin as [->|Hin].
    + unfold cache_of. simpl. apply cache_of_stable; [|done].
      unfold cache_step. rewrite Hs. apply lookup_insert_eq.
    + unfold cache_of. simpl. by apply IH.
Qed.

Lemma cache_of_sound st items order_item r :
  validation_errors st items = [] →
  order_item ∈ items →
  cache_of st items ∅ !! oic_item_id order_item = Some r →
  store_row st (oic_item_id order_item) = Some r ∧
  oic_quantity order_item ≤ inv_stock_level r.
Proof.
  intros Hv Hin Hc.
  apply cache_of_lookup in Hc as [Hc|Hc]; [by rewrite lookup_empty in Hc|].
  split; [done|].
  rewrite validation_errors_nil in Hv. specialize (Hv _ Hin).
  apply satisfiable_line_error in Hv as (r' & Hr' & Hq). congruence.
Qed.

(** A validation that returns no problem met a store that answered every
    read, and it cached what the store holds. *)
Lemma validate_stock_ok items w validated w' :
  validate_stock items [] ∅ w = (Return validated, w') →
  validated.1 = [] →
  quiet (length items) (faults w) ∧
  w' = after_calls (select_calls items) (store w) w ∧
  validated.2 = cache_of (store w) items ∅ ∧
  validation_errors (store w) items = [].
Proof.
  intros H Hnil. pose proof H as Hinv.
  apply validate_stock_inv in Hinv as (_ & _ & more & Hm & Hq).
  rewrite Hnil in Hm. simpl in Hm. subst more. specialize (Hq eq_refl).
  rewrite validate_stock_quiet in H by done. simplify_eq. simpl in *.
  done.
Qed.

(** Every run of order creation stays within the writes pre-validation
    allowed. *)
Lemma keeps_stock_create_order order_data current_user w out w' :
  create_order order_data current_user w = (out, w') →
  keeps_stock (validated_write (store w) (oc_items order_data)) w w'.
Proof.
  set (good := validated_write (store w) (oc_items order_data)).
  assert (Hgood : StockDiscipline good) by (unfold good; apply _).
  unfold create_order, try_except, create_order_body.
  rewrite bind_eq.
  destruct (validate_stock _ _ _ w) as [[validated|e|] w1] eqn:V;
    pose proof (keeps_stock_validate good _ _ _ _ _ _ V) as Hk.
  - destruct (validated.1) as [|err errs] eqn:Hv.
    + apply validate_stock_ok in V as (_ & Hw1 & Hc & Hnil); [|done].
      assert (Hrest : preserves (keeps_stock good)
        (do order_result <~
           execute (InsertOrder (oc_customer_name order_data)
                                (user_id current_user) PENDING)
                   (insert_order (oc_customer_name order_data)
                                 (user_id current_user) PENDING) in
         match order_result with
         | [] => raise HTTP_500_INTERNAL_SERVER_ERROR
                       (Text "Failed to create order")
         | created_order :: _ =>
             do order_items_data <~
               commit_lines (ord_id created_order) validated.2
                            (oc_items order_data) [] in
             ret {| or_id := ord_id created_order;
                    or_customer_name := ord_customer_name created_order;
                    or_status := ord_status created_order;
                    or_items := order_items_data;
                    or_created_by := ord_created_by created_order |}
         end)).
      { apply (preserves_bind (keeps_stock good)).
        - by apply keeps_stock_select.
        - intros [|created_order rows];
            [apply (preserves_raise (keeps_stock good))|].
          apply (preserves_bind (keeps_stock good));
            [|intros ?; apply (preserves_ret (keeps_stock good))].
          apply keeps_stock_commit_lines; [done|]. intros oi r Hin Hr.
          rewrite Hc in Hr. apply cache_of_sound in Hr as [Hr Hq]; [|done..].
          exists oi, r. done. }
      match goal with
      | |- context [bind ?m ?k w1] =>
          destruct (bind m k w1) as [[a|e|] w2] eqn:E
      end; intros [= <- <-]; (etrans; [exact Hk|]); by eapply Hrest.
    + intros [= <- <-]. done.
  - intros [= <- <-]. done.
  - intros [= <- <-]. done.
Qed.

Lemma keeps_stock_POST_orders order_data payload w out w' :
  POST_orders order_data payload w = (out, w') →
  keeps_stock (validated_write (store w) (oc_items order_data)) w w'.
Proof.
  unfold POST_orders, require_salesperson. rewrite bind_eq. case_decide.
  - intros [= <- <-]. done.
  - apply keeps_stock_create_order.
Qed.

(** A request with a line the store cannot satisfy never gets past
    pre-validation, whatever the store does with the reads. *)
Lemma create_order_rejects order_data current_user w out w' :
  create_order order_data current_user w = (out, w') →
  (∃ order_item, order_item ∈ oc_items order_data ∧
                 unsatisfiable (store w) order_item) →
  is_rejected out ∧ store w' = store w ∧
  ∃ k, calls w' = calls w ++ select_calls (take k (oc_items order_data)).
Proof.
  intros H (oi & Hin & Hu). apply unsatisfiable_line_error in Hu as [msg Hu].
  unfold create_order, try_except, create_order_body in H.
  rewrite bind_eq in H.
  destruct (validate_stock _ _ _ w) as [[validated|e|] w1] eqn:V;
    pose proof (validate_stock_inv _ _ _ _ _ _ V) as (Hs & Hk & Hm).
  - destruct (validated.1) as [|err errs] eqn:Hv.
    + apply validate_stock_ok in V as (_ & _ & _ & Hnil); [|done].
      rewrite validation_errors_nil in Hnil. specialize (Hnil _ Hin).
      congruence.
    + unfold raise in H. simplify_eq. done.
  - done.
  - simplify_eq. done.
Qed.

(** ** The commit phase against a store that answers *)

Lemma filter_update_where (P : InventoryRow → Prop) `{∀ x, Decision (P x)}
    id (f : InventoryRow → InventoryRow) l :
  (∀ r, P (f r) ↔ P r) →
  filter P (update_where (λ r, inv_id r = id) f l) =
  (λ r, if decide (inv_id r = id) then f r else r) <$> filter P l.
Proof.
  intros Hf. unfold update_where. induction l as [|x l IH]; [done|].
  rewrite fmap_cons, !filter_cons.
  destruct (decide (inv_id x = id)).
  - destruct (decide (P x)) as [HP|HP].
    + rewrite decide_True by by apply Hf. rewrite fmap_cons, IH.
      by rewrite decide_True.
    + rewrite decide_False by by rewrite Hf. done.
  - destruct (decide (P x)); [|done]. rewrite fmap_cons, IH.
    by rewrite decide_False.
Qed.

Lemma store_row_update id v st id' :
  store_row (update_stock_level id v st).2 id' =
  (λ r, if decide (inv_id r = id) then set_stock v r else r) <$>
    store_row st id'.
Proof.
  unfold store_row, update_stock_level. cbn [snd inventory_items].
  rewrite filter_update_where by done.
  by destruct (filter _ (inventory_items st)).
Qed.

Lemma store_row_id st id r : store_row st id = Some r → inv_id r = id.
Proof.
  unfold store_row. intros H. apply head_Some_elem_of in H.
  by apply list_elem_of_filter in H as [? _].
Qed.

Lemma store_row_commit_store order_id cached st order_item id' :
  store_row (commit_store order_id cached st order_item) id' =
  match cached !! oic_item_id order_item with
  | Some r =>
      if decide (oic_item_id order_item = id')
      then set_stock (inv_stock_level r - oic_quantity order_item) <$>
             store_row st id'
      else store_row st id'
  | None => store_row st id'
  end.
Proof.
  unfold commit_store. destruct (cached !! oic_item_id order_item) as [r|];
    [|done].
  rewrite store_row_update.
  change (store_row (insert_order_item _ _ _ st).2 id') with (store_row st id').
  destruct (store_row st id') as [r'|] eqn:Hr'; [|by case_decide].
  apply store_row_id in Hr'. simpl. subst id'.
  destruct (decide (inv_id r' = oic_item_id order_item)) as [->|Hne].
  - by rewrite decide_True.
  - rewrite decide_False; [done|]. by intros ?.
Qed.

Lemma store_row_commit_is_Some order_id cached st order_item id' :
  is_Some (store_row st id') →
  is_Some (store_row (commit_store order_id cached st order_item) id').
Proof.
  intros [r Hr]. rewrite store_row_commit_store, Hr.
  destruct (cached !! _); [case_decide|]; by eexists.
Qed.

Lemma commit_line_quiet order_id cached order_item r w :
  cached !! oic_item_id order_item = Some r →
  is_Some (store_row (store w) (oic_item_id order_item)) →
  quiet 2 (faults w) →
  commit_line order_id cached order_item w =
  (Return (line_response (fresh (used_ids (store w))) r order_item),
   after_calls (commit_calls order_id cached order_item)
               (commit_store order_id cached (store w) order_item) w).
Proof.
  intros Hc [r0 Hr0] Hq. unfold commit_line, commit_calls, commit_store.
  rewrite bind_eq, execute_quiet by (eapply quiet_le; [|done]; lia).
  cbn [insert_order_item fst snd]. rewrite Hc, bind_eq.
  rewrite execute_quiet by (simpl; by apply quiet_tail).
  rewrite !after_call_calls, after_calls_compose.
  cbn [update_stock_level fst snd store after_calls inventory_items].
  unfold store_row in Hr0.
  destruct (filter _ (inventory_items (store w))) as [|r1 rows]; [done|].
  done.
Qed.

Lemma commit_lines_quiet order_id cached items : ∀ acc w,
  (∀ order_item, order_item ∈ items →
     is_Some (cached !! oic_item_id order_item) ∧
     is_Some (store_row (store w) (oic_item_id order_item))) →
  quiet (2 * length items) (faults w) →
  commit_lines order_id cached items acc w =
  (Return (acc ++ commit_responses order_id cached (store w) items),
   after_calls (mjoin (commit_calls order_id cached <$> items))
               (foldl (commit_store order_id cached) (store w) items) w).
Proof.
  induction items as [|order_item items IH]; intros acc w Hc Hq.
  - simpl. unfold ret. by rewrite app_nil_r, after_calls_nil.
  - destruct (Hc order_item) as [[r Hr] Hs]; [by left|].
    cbn [commit_lines]. rewrite bind_eq.
    rewrite (commit_line_quiet _ _ _ r);
      [|done|done|eapply quiet_le; [|done]; simpl; lia].
    rewrite IH.
    + rewrite after_calls_compose. cbn [store after_calls].
      cbn [commit_responses fmap list_fmap mjoin list_join foldl].
      rewrite Hr, <- app_assoc. done.
    + intros oi Hin. destruct (Hc oi) as [? ?]; [by right|].
      split; [done|]. cbn [store after_calls].
      by apply store_row_commit_is_Some.
    + cbn [faults after_calls]. unfold commit_calls. rewrite Hr.
      apply (quiet_drop 2). eapply quiet_le; [|done]. simpl. lia.
Qed.

Lemma create_order_quiet order_data current_user w :
  validation_errors (store w) (oc_items order_data) = [] →
  quiet (creation_calls (length (oc_items order_data))) (faults w) →
  create_order order_data current_user w =
  (Return (created_response order_data current_user (store w)),
   after_calls (created_calls order_data current_user (store w))
               (created_store order_data current_user (store w)) w).
Proof.
  intros Hv Hq. unfold create_order, try_except, create_order_body.
  rewrite bind_eq, validate_stock_quiet
    by (eapply quiet_le; [|done]; unfold creation_calls; lia).
  cbn [fst snd]. rewrite Hv. cbn [app]. rewrite bind_eq.
  rewrite execute_quiet.
  2:{ cbn [faults after_calls]. unfold select_calls. rewrite length_fmap.
      apply quiet_drop. eapply quiet_le; [|done]. unfold creation_calls. lia. }
  cbn [insert_order fst snd]. rewrite bind_eq, !after_call_calls.
  rewrite after_calls_compose. cbn [store after_calls].
  rewrite commit_lines_quiet.
  - unfold ret. rewrite after_calls_compose, <- app_assoc. done.
  - intros oi Hin. cbn [store after_calls].
    rewrite validation_errors_nil in Hv. specialize (Hv _ Hin).
    apply satisfiable_line_error in Hv as (r & Hr & _). split.
    + exists r. by apply cache_of_covers.
    + by exists r.
  - cbn [faults after_calls]. rewrite length_app. unfold select_calls.
    rewrite length_fmap. simpl.
    apply (quiet_drop (length (oc_items order_data) + 1)).
    eapply quiet_le; [|done]. unfold creation_calls. lia.
Qed.

(** ** A creation that returns met no fault *)

Lemma quiet_add n m fs : quiet n fs → quiet m (drop n fs) → quiet (n + m) fs.
Proof.
  revert fs. induction n as [|n IH]; intros fs Hn Hm; [done|].
  destruct fs as [|f fs]; [apply quiet_nil|].
  apply quiet_S in Hn as [?|(fs' & [= -> ->] & Hn)]; [done|].
  simpl. apply quiet_S. right. eexists. split; [done|]. by apply IH.
Qed.

Lemma tail_drop {A} (l : list A) n : tail (drop n l) = drop (S n) l.
Proof.
  revert l. induction n as [|n IH]; intros [|x l]; simpl; done.
Qed.

Lemma rollback_not_return {A} order_id msg w (a : A) w' :
  rollback order_id msg w ≠ (Return a, w').
Proof.
  unfold rollback. rewrite bind_eq.
  by destruct (execute _ _ w) as [[?|?|] ?].
Qed.

Lemma commit_line_return order_id cached order_item w line w' :
  commit_line order_id cached order_item w = (Return line, w') →
  quiet 2 (faults w) ∧ faults w' = drop 2 (faults w).
Proof.
  unfold commit_line. rewrite bind_eq.
  destruct (execute _ _ w) as [o1 w1] eqn:E1.
  apply execute_inv in E1 as (Hf1 & _ & Hcase1).
  destruct Hcase1 as [(-> & _)|[(-> & _)|(-> & _ & Hq1)]]; [done| |].
  { intros H. by apply rollback_not_return in H. }
  cbn [insert_order_item fst].
  destruct (cached !! oic_item_id order_item) as [r|]; [|done].
  rewrite bind_eq. destruct (execute _ _ w1) as [o2 w2] eqn:E2.
  apply execute_inv in E2 as (Hf2 & _ & Hcase2).
  assert (Hd : faults w2 = drop 2 (faults w)).
  { rewrite Hf2, Hf1. by destruct (faults w) as [|? [|? ?]]. }
  destruct Hcase2 as [(-> & _)|[(-> & _)|(-> & _ & Hq2)]]; [done| |].
  { intros H. by apply rollback_not_return in H. }
  destruct (update_stock_level _ _ _).1; [intros H; by apply rollback_not_return in H|].
  intros [= <- <-]. split; [|done].
  apply (quiet_add 1 1); [done|]. rewrite Hf1 in Hq2.
  by destruct (faults w).
Qed.

Lemma commit_lines_return order_id cached items : ∀ acc w lines w',
  commit_lines order_id cached items acc w = (Return lines, w') →
  quiet (2 * length items) (faults w).
Proof.
  induction items as [|order_item items IH]; intros acc w lines w' H.
  - apply quiet_0.
  - cbn [commit_lines] in H. rewrite bind_eq in H.
    destruct (commit_line _ _ _ w) as [[line|e|] w1] eqn:E; [|done..].
    apply commit_line_return in E as [Hq Hf]. apply IH in H.
    rewrite Hf in H.
    replace (2 * length (order_item :: items))%nat
      with (2 + 2 * length items)%nat by (simpl; lia).
    by apply quiet_add.
Qed.

Lemma create_order_return order_data current_user w resp w' :
  create_order order_data current_user w = (Return resp, w') →
  validation_errors (store w) (oc_items order_data) = [] ∧
  quiet (creation_calls (length (oc_items order_data))) (faults w).
Proof.
  unfold create_order, try_except, create_order_body. rewrite bind_eq.
  destruct (validate_stock _ _ _ w) as [[validated|e|] w1] eqn:V; [|done..].
  destruct (validated.1) as [|err errs] eqn:Hv; [|done].
  apply validate_stock_ok in V as (Hq & -> & _ & Hnil); [|done].
  rewrite bind_eq. destruct (execute _ _ _) as [o2 w2] eqn:E2.
  apply execute_inv in E2 as (Hf2 & _ & Hcase2).
  cbn [faults after_calls] in Hf2. unfold select_calls in Hf2.
  rewrite length_fmap, tail_drop in Hf2.
  destruct Hcase2 as [(-> & _)|[(-> & _)|(-> & _ & Hq2)]]; [done..|].
  cbn [insert_order fst]. rewrite bind_eq.
  destruct (commit_lines _ _ _ _ w2) as [[lines|e|] w3] eqn:C; [|done..].
  intros _. split; [done|]. apply commit_lines_return in C.
  rewrite Hf2 in C. cbn [faults after_calls] in Hq2.
  unfold select_calls in Hq2. rewrite length_fmap in Hq2.
  unfold creation_calls. rewrite <- Nat.add_assoc.
  apply quiet_add; [done|]. apply (quiet_add 1); [done|].
  by rewrite drop_drop, Nat.add_1_r.
Qed.

(** The one shape of a successful creation. *)
Lemma create_order_success order_data current_user w resp w' :
  create_order order_data current_user w = (Return resp, w') →
  resp = created_response order_data current_user (store w) ∧
  w' = after_calls (created_calls order_data current_user (store w))
                   (created_store order_data current_user (store w)) w.
Proof.
  intros H. pose proof (create_order_return _ _ _ _ _ H) as [Hv Hq].
  rewrite create_order_quiet in H by done. by simplify_eq.
Qed.

(** ** The store a successful creation leaves *)

Section committed.
Context (order_id : string) (cached : gmap string InventoryRow).

Lemma commit_store_orders st items :
  orders (foldl (commit_store order_id cached) st items) = orders st.
Proof.
  revert st. induction items as [|x items IH]; intros st; [done|].
  simpl. rewrite IH. unfold commit_store. by destruct (cached !! _).
Qed.

Lemma commit_store_order_items st items :
  (∀ order_item, order_item ∈ items →
     is_Some (cached !! oic_item_id order_item)) →
  order_items (foldl (commit_store order_id cached) st items) =
  order_items st ++
    (line_row order_id <$> commit_responses order_id cached st items).
Proof.
  revert st. induction items as [|x items IH]; intros st Hc.
  - simpl. by rewrite app_nil_r.
  - destruct (Hc x) as [r Hr]; [by left|].
    cbn [foldl commit_responses]. rewrite Hr, IH.
    + assert (Hx : order_items (commit_store order_id cached st x) =
                   order_items st ++
                   [line_row order_id
                      (line_response (fresh (used_ids st)) r x)]).
      { unfold commit_store. by rewrite Hr. }
      rewrite Hx, fmap_cons, <- app_assoc. done.
    + intros oi Hin. apply Hc. by right.
Qed.

Lemma commit_responses_delivered st items :
  (∀ order_item, order_item ∈ items →
     is_Some (cached !! oic_item_id order_item)) →
  delivered <$> commit_responses order_id cached st items =
  requested <$> items.
Proof.
  revert st. induction items as [|x items IH]; intros st Hc; [done|].
  destruct (Hc x) as [r Hr]; [by left|].
  cbn [commit_responses]. rewrite Hr, !fmap_cons, IH; [done|].
  intros oi Hin. apply Hc. by right.
Qed.

Lemma commit_responses_names st items l :
  l ∈ commit_responses order_id cached st items →
  ∃ r, cached !! oir_item_id l = Some r ∧ oir_item_name l = inv_name r.
Proof.
  revert st. induction items as [|x items IH]; intros st Hin.
  - by apply elem_of_nil in Hin.
  - cbn [commit_responses] in Hin.
    destruct (cached !! oic_item_id x) as [r|] eqn:Hr;
      [|by apply elem_of_nil in Hin].
    apply elem_of_cons in Hin as [->|Hin]; [by exists r|by eapply IH].
Qed.

Lemma commit_store_name st items id :
  name_of (foldl (commit_store order_id cached) st items) id = name_of st id.
Proof.
  revert st. induction items as [|x items IH]; intros st; [done|].
  simpl. rewrite IH. unfold name_of. rewrite store_row_commit_store.
  destruct (cached !! _); [|done]. case_decide; [|done].
  by destruct (store_row st id).
Qed.

Lemma commit_store_stock st items id :
  (∀ order_item, order_item ∈ items →
     is_Some (cached !! oic_item_id order_item)) →
  is_Some (store_row st id) →
  stock_of (foldl (commit_store order_id cached) st items) id =
  match last_line id items with
  | Some order_item =>
      (λ r, inv_stock_level r - oic_quantity order_item) <$> cached !! id
  | None => stock_of st id
  end.
Proof.
  unfold last_line.
  induction items as [|x items IH] using rev_ind; intros Hc Hs; [done|].
  destruct (Hc x) as [r Hr]; [apply elem_of_app; right; by left|].
  assert (Hc' : ∀ oi, oi ∈ items → is_Some (cached !! oic_item_id oi)).
  { intros oi Hin. apply Hc, elem_of_app. by left. }
  rewrite foldl_snoc, filter_app, filter_cons, filter_nil.
  unfold stock_of at 1. rewrite store_row_commit_store, Hr.
  destruct (decide (oic_item_id x = id)) as [<-|Hne].
  - rewrite last_snoc, Hr.
    assert (is_Some (store_row
      (foldl (commit_store order_id cached) st items) (oic_item_id x)))
      as [r' ->]; [|done].
    clear IH Hc Hr. induction items as [|y items IH] using rev_ind; [done|].
    rewrite foldl_snoc. apply store_row_commit_is_Some, IH.
    intros oi Hin. apply Hc', elem_of_app. by left.
  - rewrite app_nil_r. by apply IH.
Qed.
End committed.

Lemma fresh_order_id st :
  filter (λ r, ord_id r = fresh (used_ids st)) (orders st) = [] ∧
  filter (λ r, oi_order_id r = fresh (used_ids st)) (order_items st) = [].
Proof.
  pose proof (infinite_is_fresh (used_ids st)) as Hf. unfold used_ids in Hf.
  rewrite !elem_of_app in Hf. split.
  - destruct (filter _ (orders st)) as [|r rows] eqn:E; [done|].
    assert (r ∈ filter (λ r, ord_id r = fresh (used_ids st)) (orders st))
      as [Hid Hin]%list_elem_of_filter by (rewrite E; by left).
    destruct Hf. right; left. apply list_elem_of_fmap. by exists r.
  - destruct (filter _ (order_items st)) as [|r rows] eqn:E; [done|].
    assert (r ∈ filter (λ r, oi_order_id r = fresh (used_ids st))
                       (order_items st))
      as [Hid Hin]%list_elem_of_filter by (rewrite E; by left).
    destruct Hf. right; right; right. apply list_elem_of_fmap. by exists r.
Qed.

Lemma filter_line_rows order_id (lines : list OrderItemResponse) :
  filter (λ r, oi_order_id r = order_id) (line_row order_id <$> lines) =
  line_row order_id <$> lines.
Proof.
  induction lines as [|l lines IH]; [done|].
  rewrite fmap_cons, filter_cons_True by done. by rewrite IH.
Qed.

Lemma order_lines_line_rows st order_id rows
    (lines : list OrderItemResponse) :
  filter (λ r, oi_order_id r = order_id) (order_items st) =
    line_row order_id <$> lines →
  (∀ l, l ∈ lines → name_of st (oir_item_id l) = Some (oir_item_name l)) →
  (select_order_items_joined order_id st).1 = rows →
  order_item_responses rows = Some lines.
Proof.
  unfold select_order_items_joined. cbn [fst]. intros -> Hn <-.
  induction lines as [|l lines IH]; [done|].
  rewrite !fmap_cons. cbn [order_item_responses].
  rewrite IH by (intros ? ?; apply Hn; by right).
  unfold joined_name. cbn [line_row oi_item_id].
  specialize (Hn l). unfold name_of, store_row in Hn. rewrite Hn by by left.
  by destruct l.
Qed.

(** ** Reading an order *)

Lemma read_order_items_quiet order_id w lines :
  quiet 1 (faults w) →
  order_item_responses (select_order_items_joined order_id (store w)).1 =
    Some lines →
  read_order_items order_id w =
  (Return lines, after_calls [SelectOrderItems order_id] (store w) w).
Proof.
  intros Hq Hl. unfold read_order_items. rewrite bind_eq, execute_quiet by done.
  rewrite Hl. unfold ret. by rewrite after_call_calls.
Qed.

Lemma get_order_details_quiet order_id current_user w order rows lines :
  quiet 2 (faults w) →
  filter (λ r, ord_id r = order_id) (orders (store w)) = order :: rows →
  order_item_responses (select_order_items_joined order_id (store w)).1 =
    Some lines →
  get_order_details order_id current_user w =
  (Return (order_response order lines),
   after_calls [SelectOrder order_id; SelectOrderItems order_id] (store w) w).
Proof.
  intros Hq Ho Hl. unfold get_order_details, try_except.
  rewrite bind_eq, execute_quiet by (eapply quiet_le; [|done]; lia).
  cbn [select_order_by_id fst snd]. rewrite Ho, bind_eq, after_call_calls.
  rewrite (read_order_items_quiet _ _ lines).
  - unfold ret. by rewrite after_calls_compose.
  - simpl. by apply (quiet_drop 1 1).
  - done.
Qed.

Lemma order_item_responses_names st : ∀ rs lines,
  order_item_responses ((λ r, (r, joined_name st r)) <$> rs) = Some lines →
  Forall (λ l, name_of st (oir_item_id l) = Some (oir_item_name l)) lines.
Proof.
  induction rs as [|r rs IH]; intros lines H.
  - simpl in H. simplify_eq. constructor.
  - rewrite fmap_cons in H. cbn [order_item_responses] in H.
    destruct (joined_name st r) as [name|] eqn:Hn; [|done].
    destruct (order_item_responses _) as [tl|]; [|done].
    simplify_eq. constructor; [|by apply IH]. done.
Qed.

Lemma read_order_items_names order_id w lines w' :
  read_order_items order_id w = (Return lines, w') →
  Forall (λ l, name_of (store w) (oir_item_id l) = Some (oir_item_name l))
         lines.
Proof.
  unfold read_order_items. rewrite bind_eq.
  destruct (execute _ _ w) as [o w1] eqn:E.
  apply execute_inv in E as (_ & _ & [(-> & _)|[(-> & _)|(-> & _)]]).
  - done.
  - simpl. intros [= <- _]. constructor.
  - destruct (order_item_responses _) as [ls|] eqn:Hl; [|done].
    intros [= <- _]. unfold select_order_items_joined in Hl.
    by eapply order_item_responses_names.
Qed.

(** Whatever the store does, the item names of a read order are the names
    the inventory holds at the time of the read. *)
Lemma get_order_details_names order_id current_user w resp w' :
  get_order_details order_id current_user w = (Return resp, w') →
  Forall (λ l, name_of (store w) (oir_item_id l) = Some (oir_item_name l))
         (or_items resp).
Proof.
  unfold get_order_details, try_except. rewrite bind_eq.
  destruct (execute _ _ w) as [o w1] eqn:E.
  apply execute_inv in E as (_ & _ & [(-> & _)|[(-> & _)|(-> & Hs & _)]]);
    [done..|].
  cbn [select_order_by_id fst snd] in *.
  destruct (filter _ (orders (store w))) as [|order rows]; [done|].
  rewrite bind_eq.
  destruct (read_order_items order_id w1) as [[lines|e|] w2] eqn:R; [|done..].
  intros [= <- _]. apply read_order_items_names in R. by rewrite Hs in R.
Qed.

(** ** Reading back what was just created *)

Lemma created_store_orders order_data current_user st :
  filter (λ r, ord_id r = fresh (used_ids st))
         (orders (created_store order_data current_user st)) =
  [new_order_row order_data current_user st].
Proof.
  unfold created_store. rewrite commit_store_orders.
  unfold store_with_header. cbn [insert_order snd orders].
  rewrite filter_app, (proj1 (fresh_order_id st)).
  by rewrite filter_cons_True.
Qed.

Lemma cached_items_covered st items :
  validation_errors st items = [] →
  ∀ order_item, order_item ∈ items →
    is_Some (cache_of st items ∅ !! oic_item_id order_item).
Proof.
  intros Hv oi Hin. rewrite validation_errors_nil in Hv.
  specialize (Hv _ Hin). apply satisfiable_line_error in Hv as (r & Hr & _).
  exists r. by apply cache_of_covers.
Qed.

Lemma created_store_order_items order_data current_user st :
  validation_errors st (oc_items order_data) = [] →
  filter (λ r, oi_order_id r = fresh (used_ids st))
         (order_items (created_store order_data current_user st)) =
  line_row (fresh (used_ids st)) <$>
    or_items (created_response order_data current_user st).
Proof.
  intros Hv. unfold created_store.
  rewrite commit_store_order_items by by apply cached_items_covered.
  rewrite filter_app, filter_line_rows.
  unfold store_with_header at 1. cbn [insert_order snd order_items].
  by rewrite (proj2 (fresh_order_id st)).
Qed.

Lemma created_store_names order_data current_user st l :
  l ∈ or_items (created_response order_data current_user st) →
  name_of (created_store order_data current_user st) (oir_item_id l) =
    Some (oir_item_name l) ∧
  name_of st (oir_item_id l) = Some (oir_item_name l).
Proof.
  intros Hin. unfold created_response in Hin. cbn [order_response or_items] in Hin.
  apply commit_responses_names in Hin as (r & Hr & Hn).
  apply cache_of_lookup in Hr as [Hr|Hr]; [by rewrite lookup_empty in Hr|].
  unfold created_store. rewrite commit_store_name.
  assert (name_of st (oir_item_id l) = Some (oir_item_name l)) as Hst.
  { unfold name_of. by rewrite Hr, Hn. }
  split; [|done]. rewrite <- Hst. done.
Qed.

Lemma read_back_created order_data current_user reader w resp w' :
  create_order order_data current_user w = (Return resp, w') →
  quiet 2 (faults w') →
  get_order_details (or_id resp) reader w' =
  (Return resp,
   after_calls [SelectOrder (or_id resp); SelectOrderItems (or_id resp)]
               (store w') w').
Proof.
  intros H Hq. pose proof (create_order_return _ _ _ _ _ H) as [Hv _].
  apply create_order_success in H as [-> ->].
  cbn [created_response order_response or_id new_order_row ord_id].
  erewrite get_order_details_quiet; [|done|..].
  - done.
  - cbn [store after_calls]. apply created_store_orders.
  - cbn [store after_calls]. eapply order_lines_line_rows; [| |done].
    + by apply created_store_order_items.
    + intros l Hl. by apply created_store_names.
Qed.

(** ** Order creation: the stock invariant and the rejections *)

Lemma new_calls_app w w' qs : calls w' = calls w ++ qs → new_calls w w' = qs.
Proof. unfold new_calls. intros ->. apply drop_app_length. Qed.

Lemma select_calls_reads items :
  Forall (λ q, is_write q = false) (select_calls items).
Proof. unfold select_calls. rewrite Forall_fmap. by apply Forall_true. Qed.

Lemma create_order_rejected_quiet order_data current_user w :
  quiet (length (oc_items order_data)) (faults w) →
  validation_errors (store w) (oc_items order_data) ≠ [] →
  create_order order_data current_user w =
  (RaiseHTTP (insufficient_stock
                (validation_errors (store w) (oc_items order_data))),
   after_calls (select_calls (oc_items order_data)) (store w) w).
Proof.
  intros Hq Hne. unfold create_order, try_except, create_order_body.
  rewrite bind_eq, validate_stock_quiet by done. cbn [fst snd app].
  by destruct (validation_errors _ _).
Qed.

Lemma unsatisfiable_errors st items :
  (∃ order_item, order_item ∈ items ∧ unsatisfiable st order_item) →
  validation_errors st items ≠ [].
Proof.
  intros (oi & Hin & Hu) Hnil. rewrite validation_errors_nil in Hnil.
  apply unsatisfiable_line_error in Hu as [msg Hu].
  specialize (Hnil _ Hin). congruence.
Qed.

Lemma POST_orders_rejects order_data payload w out w' :
  POST_orders order_data payload w = (out, w') →
  (∃ order_item, order_item ∈ oc_items order_data ∧
                 unsatisfiable (store w) order_item) →
  is_rejected out ∧ store w' = store w ∧
  Forall (λ q, is_write q = false) (new_calls w w').
Proof.
  intros H Hu. unfold POST_orders, require_salesperson in H.
  rewrite bind_eq in H. case_decide.
  - unfold raise in H. simplify_eq. split_and!; [done..|].
    unfold new_calls. rewrite drop_all. constructor.
  - apply create_order_rejects in H as (Hr & Hs & k & Hk); [|done].
    split_and!; [done..|]. rewrite (new_calls_app _ _ _ Hk).
    apply select_calls_reads.
Qed.

(** C1.  Whatever the store does during an order creation, stock levels
    that were non-negative stay non-negative and every stock write stores a
    non-negative level; and a request with a line asking for more than the
    item holds is rejected as a whole, the store left as it was. *)
Theorem stock_never_negative order_data payload w out w' :
  POST_orders order_data payload w = (out, w') →
  (stock_nonneg (store w) → stock_nonneg (store w')) ∧
  Forall nonneg_write (new_calls w w') ∧
  ((∃ order_item r,
      order_item ∈ oc_items order_data ∧
      store_row (store w) (oic_item_id order_item) = Some r ∧
      inv_stock_level r < oic_quantity order_item) →
   is_rejected out ∧ store w' = store w).
Proof.
  intros H. pose proof (keeps_stock_POST_orders _ _ _ _ _ H) as Hk.
  apply (keeps_stock_weaken _ nonneg_write) in Hk;
    [|apply (good_nonneg (good:=validated_write _ _))].
  destruct Hk as [Hst (qs & Hc & Hq)]. split_and!; [done| |].
  - by rewrite (new_calls_app _ _ _ Hc).
  - intros (oi & r & Hin & Hr & Hlt).
    eapply POST_orders_rejects in H as (? & ? & _); [done|].
    exists oi. split; [done|]. right. by exists r.
Qed.

Lemma stock_never_negative_witness :
  let run := POST_orders (request [line "A" 9; line "B" 1]) sales
                         (world_of store_AB []) in
  stock_nonneg (store run.2) ∧ is_rejected run.1 ∧ store run.2 = store_AB.
Proof.
  intros run.
  destruct (stock_never_negative (request [line "A" 9; line "B" 1]) sales
              (world_of store_AB []) run.1 run.2 eq_refl) as (H1 & _ & H2).
  split.
  - apply H1. unfold stock_nonneg. simpl. repeat constructor; simpl; lia.
  - apply H2. exists (line "A" 9), item_A. split_and!.
    + by left.
    + reflexivity.
    + simpl. lia.
Defined.



(** ** Order creation: the successful run *)

Lemma POST_orders_quiet order_data payload w :
  role payload = "salesperson" →
  validation_errors (store w) (oc_items order_data) = [] →
  quiet (creation_calls (length (oc_items order_data))) (faults w) →
  POST_orders order_data payload w =
  (Return (created_response order_data payload (store w)),
   after_calls (created_calls order_data payload (store w))
               (created_store order_data payload (store w)) w).
Proof.
  intros Hr Hv Hq. rewrite POST_orders_salesperson by done.
  by apply create_order_quiet.
Qed.

Lemma POST_orders_success order_data payload w resp w' :
  POST_orders order_data payload w = (Return resp, w') →
  create_order order_data payload w = (Return resp, w').
Proof.
  unfold POST_orders, require_salesperson. rewrite bind_eq.
  by case_decide.
Qed.

Lemma commit_calls_line_calls st items order_id :
  validation_errors st items = [] →
  commit_calls order_id (cache_of st items ∅) <$> items =
  line_calls st order_id <$> items.
Proof.
  intros Hv. apply Forall_fmap_ext, Forall_forall. intros oi Hin.
  rewrite validation_errors_nil in Hv. specialize (Hv _ Hin).
  apply satisfiable_line_error in Hv as (r & Hr & _).
  unfold commit_calls, line_calls.
  by rewrite (cache_of_covers _ _ _ _ r), Hr.
Qed.

Lemma satisfiable_no_errors st items :
  (∀ order_item, order_item ∈ items →
     ∃ r, store_row st (oic_item_id order_item) = Some r ∧
          oic_quantity order_item ≤ inv_stock_level r) →
  validation_errors st items = [].
Proof.
  intros H. apply validation_errors_nil. intros oi Hin.
  by apply satisfiable_line_error, H.
Qed.

(** C4.  A request that passes pre-validation against a store that answers
    every call succeeds: the calls issued are the reads, then the insertion
    of the header with status pending, then for each requested line in the
    caller's order the insertion of the line immediately followed by the
    stock write for its item; the returned order is pending and carries the
    requested lines in order; header and lines are in the store.  With A
    holding 5 and B holding 2, a request for A:3 and B:1 succeeds, leaves
    A at 2 and B at 1, and the order is pending. *)
Theorem creation_commits_in_order :
  (∀ order_data payload w,
     role payload = "salesperson" →
     validation_errors (store w) (oc_items order_data) = [] →
     quiet (creation_calls (length (oc_items order_data))) (faults w) →
     ∃ resp w',
       POST_orders order_data payload w = (Return resp, w') ∧
       or_status resp = PENDING ∧
       delivered <$> or_items resp = requested <$> oc_items order_data ∧
       new_calls w w' =
         select_calls (oc_items order_data) ++
         [InsertOrder (oc_customer_name order_data) (user_id payload) PENDING] ++
         mjoin (line_calls (store w) (or_id resp) <$> oc_items order_data) ∧
       filter (λ r, ord_id r = or_id resp) (orders (store w')) =
         [{| ord_id := or_id resp;
             ord_customer_name := oc_customer_name order_data;
             ord_status := PENDING;
             ord_created_by := user_id payload |}] ∧
       filter (λ r, oi_order_id r = or_id resp) (order_items (store w')) =
         line_row (or_id resp) <$> or_items resp) ∧
  (∃ resp w',
     POST_orders (request [line "A" 3; line "B" 1]) sales
                 (world_of store_AB []) = (Return resp, w') ∧
     or_status resp = PENDING ∧
     delivered <$> or_items resp = [("A", 3); ("B", 1)] ∧
     stock_of (store w') "A" = Some 2 ∧
     stock_of (store w') "B" = Some 1).
Proof.
  split.
  - intros order_data payload w Hr Hv Hq. eexists _, _.
    split; [by apply POST_orders_quiet|]. split_and!.
    + done.
    + apply commit_responses_delivered. by apply cached_items_covered.
    + erewrite new_calls_app; [|done]. unfold created_calls.
      by rewrite commit_calls_line_calls.
    + apply created_store_orders.
    + by apply created_store_order_items.
  - eexists _, _. split; [vm_compute; reflexivity|]. by vm_compute.
Qed.

Lemma creation_commits_in_order_witness :
  ∃ resp w',
    POST_orders (request [line "B" 2; line "A" 1]) sales
                (world_of store_AB [NoFault]) = (Return resp, w') ∧
    delivered <$> or_items resp = [("B", 2); ("A", 1)] ∧
    new_calls (world_of store_AB [NoFault]) w' =
      [SelectInventory "B"; SelectInventory "A";
       InsertOrder "Acme Joinery" "u-sales" PENDING;
       InsertOrderItem (or_id resp) "B" 2; UpdateStock "B" 0;
       InsertOrderItem (or_id resp) "A" 1; UpdateStock "A" 4].
Proof.
  destruct (proj1 creation_commits_in_order
              (request [line "B" 2; line "A" 1]) sales
              (world_of store_AB [NoFault]))
    as (resp & w' & H & _ & Hd & Hc & _).
  - reflexivity.
  - reflexivity.
  - unfold quiet. simpl. repeat constructor.
  - exists resp, w'. split; [exact H|]. split; [exact Hd|].
    rewrite Hc. reflexivity.
Defined.

Lemma last_line_elem id items order_item :
  last_line id items = Some order_item →
  order_item ∈ items ∧ oic_item_id order_item = id.
Proof.
  unfold last_line. intros H. apply last_Some_elem_of in H.
  apply list_elem_of_filter in H as [? ?]. done.
Qed.

Lemma created_store_stock order_data current_user st id r :
  validation_errors st (oc_items order_data) = [] →
  store_row st id = Some r →
  stock_of (created_store order_data current_user st) id =
  Some (match last_line id (oc_items order_data) with
        | Some order_item => inv_stock_level r - oic_quantity order_item
        | None => inv_stock_level r
        end).
Proof.
  intros Hv Hr. unfold created_store.
  rewrite commit_store_stock.
  - destruct (last_line id (oc_items order_data)) as [oi|] eqn:Hl.
    + apply last_line_elem in Hl as [Hin <-].
      by rewrite (cache_of_covers _ _ _ _ r).
    + unfold stock_of. change (store_row (store_with_header _ _ st) id)
        with (store_row st id). by rewrite Hr.
  - by apply cached_items_covered.
  - change (store_row (store_with_header order_data current_user st) id)
      with (store_row st id). by rewrite Hr.
Qed.

Lemma reads_of_app id qs qs' :
  reads_of id (qs ++ qs') = (reads_of id qs + reads_of id qs')%nat.
Proof. unfold reads_of. by rewrite filter_app, length_app. Qed.

Lemma reads_of_select_calls id items :
  reads_of id (select_calls items) = length (lines_naming id items).
Proof.
  unfold reads_of, select_calls, lines_naming.
  induction items as [|x items IH]; [done|].
  rewrite fmap_cons, (filter_cons _ x items), filter_cons.
  destruct (decide (oic_item_id x = id)) as [Hid|Hne].
  - rewrite decide_True by (cbn; by rewrite bool_decide_eq_true_2).
    cbn [length]. by rewrite IH.
  - rewrite decide_False; [done|].
    cbn. rewrite bool_decide_eq_false_2 by done. by intros [].
Qed.

Lemma reads_of_commit_calls id order_id cached items :
  reads_of id (mjoin (commit_calls order_id cached <$> items)) = 0%nat.
Proof.
  induction items as [|x items IH]; [done|].
  rewrite fmap_cons.
  change (reads_of id (commit_calls order_id cached x ++
                       mjoin (commit_calls order_id cached <$> items)) = 0%nat).
  rewrite reads_of_app, IH.
  unfold commit_calls. by destruct (cached !! oic_item_id x).
Qed.

(** C7, as stated, fails on the reads: the level of an item is read once
    for every line that names it, not once per item.  With A holding 5, the
    request A:3, A:3 succeeds and the calls it issued hold two reads of
    A. *)
Lemma read_once_per_item_counterexample :
  let run := POST_orders (request [line "A" 3; line "A" 3]) sales
               (world_of store_AB []) in
  (∃ resp, run.1 = Return resp) ∧
  reads_of "A" (calls run.2) = 2%nat ∧
  reads_of "A" (calls run.2) ≠ 1%nat.
Proof.
  cbn zeta. split; [eexists; vm_compute; reflexivity|].
  split; [vm_compute; reflexivity|vm_compute; discriminate].
Qed.

(** C7, amended.  Pre-validation reads the level of an item once for every
    line that names it and judges every line on its own against the level
    the store holds for its item, never adding up the quantities of lines
    that name the same item: the request is rejected, with nothing written,
    as soon as one line on its own cannot be satisfied, and is accepted
    when every line on its own can.  Every stock write then stores that
    level less the quantity of its own line, so after a successful creation
    an item holds the level it had less the quantity of the last line that
    named it. *)
Theorem duplicate_lines_judged_one_by_one order_data payload w :
  role payload = "salesperson" →
  quiet (creation_calls (length (oc_items order_data))) (faults w) →
  let items := oc_items order_data in
  let st := store w in
  let run := POST_orders order_data payload w in
  (∀ id, reads_of id (new_calls w run.2) = length (lines_naming id items)) ∧
  ((∃ order_item, order_item ∈ items ∧ unsatisfiable st order_item) →
   run.1 = RaiseHTTP (insufficient_stock (validation_errors st items)) ∧
   store run.2 = st ∧
   new_calls w run.2 = select_calls items) ∧
  ((∀ order_item, order_item ∈ items →
      ∃ r, store_row st (oic_item_id order_item) = Some r ∧
           oic_quantity order_item ≤ inv_stock_level r) →
   ∃ resp,
     run.1 = Return resp ∧
     new_calls w run.2 =
       select_calls items ++
       [InsertOrder (oc_customer_name order_data) (user_id payload) PENDING] ++
       mjoin (line_calls st (or_id resp) <$> items) ∧
     ∀ id r, store_row st id = Some r →
       stock_of (store run.2) id =
       Some (match last_line id items with
             | Some order_item => inv_stock_level r - oic_quantity order_item
             | None => inv_stock_level r
             end)).
Proof.
  intros Hr Hq items st run.
  assert (Hq' : quiet (length items) (faults w)).
  { eapply quiet_le; [|exact Hq]. unfold creation_calls, items. lia. }
  assert (Hrej : validation_errors st items ≠ [] →
            run = (RaiseHTTP (insufficient_stock (validation_errors st items)),
                   after_calls (select_calls items) st w)).
  { intros Hne. unfold run. rewrite POST_orders_salesperson by done.
    by apply create_order_rejected_quiet. }
  assert (Hacc : validation_errors st items = [] →
            run = (Return (created_response order_data payload st),
                   after_calls (created_calls order_data payload st)
                               (created_store order_data payload st) w)).
  { intros Hv. by apply POST_orders_quiet. }
  split_and!.
  - intros id. destruct (validation_errors st items) as [|e es] eqn:Hv.
    + rewrite Hacc by done. cbn [snd].
      erewrite new_calls_app; [|done]. unfold created_calls.
      rewrite !reads_of_app, reads_of_select_calls, reads_of_commit_calls.
      rewrite (eq_refl : reads_of id
                 [InsertOrder (oc_customer_name order_data) (user_id payload)
                              PENDING] = 0%nat).
      fold items. lia.
    + rewrite Hrej by done. cbn [snd].
      erewrite new_calls_app; [|done]. apply reads_of_select_calls.
  - intros Hu%unsatisfiable_errors. rewrite Hrej by done. cbn [fst snd].
    split_and!; [done..|]. by erewrite new_calls_app.
  - intros Hsat%satisfiable_no_errors. rewrite Hacc by done. cbn [fst snd].
    eexists. split; [done|]. split.
    + erewrite new_calls_app; [|done]. unfold created_calls.
      by rewrite commit_calls_line_calls.
    + intros id r Hrow. by apply created_store_stock.
Qed.

Lemma duplicate_lines_judged_one_by_one_witness :
  let run := POST_orders (request [line "A" 3; line "A" 3]) sales
               (world_of store_AB []) in
  reads_of "A" (calls run.2) = 2%nat ∧
  (∃ resp, run.1 = Return resp) ∧
  stock_of store_AB "A" = Some 5 ∧
  stock_of (store run.2) "A" = Some 2.
Proof.
  destruct (duplicate_lines_judged_one_by_one
              (request [line "A" 3; line "A" 3]) sales
              (world_of store_AB []))
    as (Hreads & _ & Hok).
  - reflexivity.
  - apply quiet_nil.
  - destruct Hok as (resp & Hresp & _ & Hs).
    + intros oi Hin. vm_compute in Hin.
      apply elem_of_cons in Hin as [->|Hin];
        [exists item_A; split; [reflexivity|simpl; lia]|].
      apply elem_of_cons in Hin as [->|Hin];
        [exists item_A; split; [reflexivity|simpl; lia]|].
      by apply elem_of_nil in Hin.
    + cbn zeta. split; [exact (Hreads "A")|]. split; [by exists resp|].
      split; [reflexivity|]. rewrite (Hs "A" item_A eq_refl). reflexivity.
Defined.

(** ** Item names of a read order *)

(** C5, as stated, fails: the lines carry no name of their own.  An order
    for item A is created while A is named "Oak plywood"; A is then renamed;
    the order read back shows the new name. *)
Lemma snapshot_counterexample :
  ∃ created w1 renamed w2 read w3,
    POST_orders (request [line "A" 3]) sales (world_of store_AB []) =
      (Return created, w1) ∧
    PUT_inventory_item "A" (rename_to "Maple plywood") manager w1 =
      (Return renamed, w2) ∧
    GET_order (or_id created) sales w2 = (Return read, w3) ∧
    oir_item_name <$> or_items created = ["Oak plywood"] ∧
    delivered <$> or_items read = [("A", 3)] ∧
    oir_item_name <$> or_items read = ["Maple plywood"] ∧
    oir_item_name <$> or_items read ≠ oir_item_name <$> or_items created.
Proof.
  eexists _, _, _, _, _, _. split_and!.
  - vm_compute. reflexivity.
  - vm_compute. reflexivity.
  - vm_compute. reflexivity.
  - reflexivity.
  - reflexivity.
  - reflexivity.
  - discriminate.
Qed.

(** C5, amended.  An order read back right after its creation is the order
    the creation returned: its lines are the requested lines, in the order
    and with the quantities submitted, and each line's name is the name the
    inventory holds for the item.  In every read the names are those the
    inventory holds at the time of the read. *)
Theorem read_back_joins_current_names :
  (∀ order_data payload reader w resp w',
     POST_orders order_data payload w = (Return resp, w') →
     quiet 2 (faults w') →
     delivered <$> or_items resp = requested <$> oc_items order_data ∧
     GET_order (or_id resp) reader w' =
       (Return resp,
        after_calls [SelectOrder (or_id resp); SelectOrderItems (or_id resp)]
                    (store w') w') ∧
     Forall (λ l, name_of (store w) (oir_item_id l) = Some (oir_item_name l))
            (or_items resp)) ∧
  (∀ order_id reader w resp w',
     GET_order order_id reader w = (Return resp, w') →
     Forall (λ l, name_of (store w) (oir_item_id l) = Some (oir_item_name l))
            (or_items resp)).
Proof.
  split.
  - intros order_data payload reader w resp w' H Hq.
    apply POST_orders_success in H.
    pose proof (create_order_return _ _ _ _ _ H) as [Hv _].
    split_and!.
    + apply create_order_success in H as [-> _].
      apply commit_responses_delivered. by apply cached_items_covered.
    + unfold GET_order. rewrite bind_eq. simpl.
      by eapply read_back_created.
    + apply create_order_success in H as [-> _]. apply Forall_forall.
      intros l Hl. by apply created_store_names in Hl as [_ ?].
  - intros order_id reader w resp w' H. unfold GET_order in H.
    rewrite bind_eq in H. simpl in H. by eapply get_order_details_names.
Qed.

Lemma read_back_joins_current_names_witness :
  ∃ resp w' w'',
    POST_orders (request [line "B" 1; line "A" 2]) sales
                (world_of store_AB []) = (Return resp, w') ∧
    GET_order (or_id resp) manager w' = (Return resp, w'') ∧
    delivered <$> or_items resp = [("B", 1); ("A", 2)].
Proof.
  eexists _, _, _.
  destruct (proj1 read_back_joins_current_names
              (request [line "B" 1; line "A" 2]) sales manager
              (world_of store_AB []) _ _ eq_refl)
    as (Hd & Hg & _).
  - apply quiet_nil.
  - split; [reflexivity|]. split; [exact Hg|exact Hd].
Defined.

(** ** Stock writes *)

(** C6, as stated, fails: no stock write looks at the level the store
    holds.  With A holding 5, a request for A:3 and A:4 passes
    pre-validation; the first line leaves A at 2; the second would take the
    stored level below zero, yet it is committed: the write stores 1 and
    the creation succeeds. *)
Lemma write_time_check_counterexample :
  let cached : gmap string InventoryRow := <["A" := item_A]> ∅ in
  ∃ header w0 line1 w1 line2 w2 resp w',
    execute (InsertOrder "Acme Joinery" "u-sales" PENDING)
            (insert_order "Acme Joinery" "u-sales" PENDING)
            (world_of store_AB []) = (Return [header], w0) ∧
    commit_line (ord_id header) cached (line "A" 3) w0 = (Return line1, w1) ∧
    stock_of (store w1) "A" = Some 2 ∧
    2 - oic_quantity (line "A" 4) < 0 ∧
    commit_line (ord_id header) cached (line "A" 4) w1 = (Return line2, w2) ∧
    stock_of (store w2) "A" = Some 1 ∧
    POST_orders (request [line "A" 3; line "A" 4]) sales
                (world_of store_AB []) = (Return resp, w') ∧
    new_calls (world_of store_AB []) w' =
      [SelectInventory "A"; SelectInventory "A";
       InsertOrder "Acme Joinery" "u-sales" PENDING;
       InsertOrderItem (or_id resp) "A" 3; UpdateStock "A" 2;
       InsertOrderItem (or_id resp) "A" 4; UpdateStock "A" 1] ∧
    stock_of (store w') "A" = Some 1.
Proof.
  intros cached. eexists _, _, _, _, _, _, _, _. split_and!.
  - vm_compute. reflexivity.
  - vm_compute. reflexivity.
  - reflexivity.
  - simpl. lia.
  - vm_compute. reflexivity.
  - reflexivity.
  - vm_compute. reflexivity.
  - reflexivity.
  - reflexivity.
Qed.

(** C6, amended.  Every stock write of an order creation stores, for the
    item of a requested line, the level the store held for that item when
    the request was validated less that line's quantity, the quantity being
    within that level: no write stores a negative level.  A line asking
    for more than that level makes the creation fail before any write, the
    store unchanged, with the insufficient-stock rejection when the store
    answers the reads. *)
Theorem stock_writes_validated order_data payload w out w' :
  POST_orders order_data payload w = (out, w') →
  Forall (validated_write (store w) (oc_items order_data)) (new_calls w w') ∧
  Forall nonneg_write (new_calls w w') ∧
  ((∃ order_item r,
      order_item ∈ oc_items order_data ∧
      store_row (store w) (oic_item_id order_item) = Some r ∧
      inv_stock_level r < oic_quantity order_item) →
   is_rejected out ∧ store w' = store w ∧
   Forall (λ q, is_write q = false) (new_calls w w') ∧
   (role payload = "salesperson" →
    quiet (length (oc_items order_data)) (faults w) →
    out = RaiseHTTP (insufficient_stock
            (validation_errors (store w) (oc_items order_data))))).
Proof.
  intros H. pose proof (keeps_stock_POST_orders _ _ _ _ _ H) as Hk.
  destruct Hk as [_ (qs & Hc & Hq)]. rewrite (new_calls_app _ _ _ Hc).
  split_and!; [done| |].
  - eapply Forall_impl; [exact Hq|].
    apply (good_nonneg (good:=validated_write _ _)).
  - intros (oi & r & Hin & Hr & Hlt).
    assert (Hu : ∃ oi, oi ∈ oc_items order_data ∧ unsatisfiable (store w) oi).
    { exists oi. split; [done|]. right. by exists r. }
    pose proof (POST_orders_rejects _ _ _ _ _ H Hu) as (? & ? & Hw).
    rewrite (new_calls_app _ _ _ Hc) in Hw. split_and!; [done..|].
    intros Hrole Hquiet. rewrite POST_orders_salesperson in H by done.
    rewrite create_order_rejected_quiet in H
      by (try done; by apply unsatisfiable_errors).
    by simplify_eq.
Qed.

Lemma stock_writes_validated_witness :
  let w := world_of store_AB [] in
  let run := POST_orders (request [line "A" 3; line "A" 4]) sales w in
  Forall (validated_write store_AB [line "A" 3; line "A" 4])
         (new_calls w run.2) ∧
  Forall nonneg_write (new_calls w run.2).
Proof.
  intros w run.
  destruct (stock_writes_validated (request [line "A" 3; line "A" 4]) sales
              w run.1 run.2 eq_refl) as (H1 & H2 & _).
  split; [exact H1|exact H2].
Defined.

(** ** Status transitions *)

Lemma filter_absent order_id (os : list OrderRow) :
  order_id ∉ ord_id <$> os → filter (λ r, ord_id r = order_id) os = [].
Proof.
  intros Hn. destruct (filter _ os) as [|r rows] eqn:E; [done|].
  assert (r ∈ filter (λ r, ord_id r = order_id) os)
    as [Hid Hin]%list_elem_of_filter by (rewrite E; by left).
  destruct Hn. apply list_elem_of_fmap. by exists r.
Qed.

(** C8.  A status transition on an order id the store does not hold ends
    with 404 Not Found, for every requested target status, provided the
    read does not raise; only that read was issued and the store is
    unchanged. *)
Theorem transition_missing_order order_id status_update payload w :
  role payload = "warehouse_manager" ∨ role payload = "admin" →
  head (faults w) ≠ Some Raises →
  order_id ∉ ord_id <$> orders (store w) →
  ∃ w',
    PUT_order_status order_id status_update payload w =
      (RaiseHTTP (not_found "Order not found"), w') ∧
    store w' = store w ∧
    new_calls w w' = [SelectOrder order_id].
Proof.
  intros Hrole Hf Hn. rewrite PUT_order_status_allowed by done.
  unfold update_order_status, try_except. rewrite bind_eq.
  destruct (execute _ _ w) as [o w1] eqn:E.
  pose proof (execute_inv _ _ _ _ _ E) as (_ & Hc & Hcase).
  exists w1.
  destruct Hcase as [(-> & Hs & _)|[(-> & Hs & _)|(-> & Hs & _)]].
  - unfold execute in E. destruct (head (faults w)) as [[]|]; simplify_eq.
  - split_and!; [done..|]. by apply new_calls_app.
  - cbn [select_order_by_id fst snd] in *. rewrite filter_absent by done.
    split_and!; [done..|]. by apply new_calls_app.
Qed.

Lemma transition_missing_order_witness :
  ∃ w',
    PUT_order_status "o9" (to_status PROCESSING) admin
                     (world_of store_fulfilled [EmptyResult]) =
      (RaiseHTTP (not_found "Order not found"), w') ∧
    store w' = store_fulfilled.
Proof.
  destruct (transition_missing_order "o9" (to_status PROCESSING) admin
              (world_of store_fulfilled [EmptyResult]))
    as (w' & H & Hs & _).
  - right. reflexivity.
  - discriminate.
  - vm_compute. intros Hin. apply elem_of_cons in Hin as [Hin|Hin];
      [discriminate|by apply elem_of_nil in Hin].
  - exists w'. split; [exact H|exact Hs].
Defined.

(** A transition never gets to its write: whatever the store does, the
    only call is the lookup, the store is untouched and no order is
    returned. *)
Lemma update_order_status_inv order_id status_update current_user w out w' :
  update_order_status order_id status_update current_user w = (out, w') →
  store w' = store w ∧ new_calls w w' = [SelectOrder order_id] ∧
  is_rejected out.
Proof.
  unfold update_order_status, try_except. rewrite bind_eq.
  destruct (execute _ _ w) as [o w1] eqn:E.
  apply execute_inv in E as (_ & Hc & Hcase).
  apply new_calls_app in Hc.
  destruct Hcase as [(-> & Hs & _)|[(-> & Hs & _)|(-> & Hs & _)]].
  - by intros [= <- <-].
  - unfold raise. by intros [= <- <-].
  - cbn [select_order_by_id fst snd] in *.
    destruct (filter _ (orders (store w))) as [|order rows].
    + unfold raise. by intros [= <- <-].
    + unfold status_attribute, value_attribute. rewrite bind_eq.
      unfold raise_exception. by intros [= <- <-].
Qed.

Lemma update_order_status_found order_id status_update current_user w order :
  quiet 1 (faults w) →
  head (filter (λ r, ord_id r = order_id) (orders (store w))) = Some order →
  update_order_status order_id status_update current_user w =
  (RaiseHTTP (internal_error
                "Internal server error during order status update"),
   after_call (SelectOrder order_id) (store w) w).
Proof.
  intros Hq Ho. unfold update_order_status, try_except.
  rewrite bind_eq, execute_quiet by done.
  cbn [select_order_by_id fst snd].
  destruct (filter _ (orders (store w))) as [|order' rows]; [done|].
  by unfold status_attribute, value_attribute.
Qed.

(** C9, as the code has it.  For an order the store holds, a transition
    to any target status, from any current status, is not carried out:
    reading [.value] from the requested status raises before the write,
    so the answer is 500, the lookup is the only call issued and the order
    keeps the status it had. *)
Theorem transition_raises_before_write order_id status_update payload w
    order :
  role payload = "warehouse_manager" ∨ role payload = "admin" →
  quiet 1 (faults w) →
  head (filter (λ r, ord_id r = order_id) (orders (store w))) = Some order →
  ∃ w',
    PUT_order_status order_id status_update payload w =
      (RaiseHTTP (internal_error
                    "Internal server error during order status update"),
       w') ∧
    store w' = store w ∧
    new_calls w w' = [SelectOrder order_id].
Proof.
  intros Hrole Hq Ho. rewrite PUT_order_status_allowed by done.
  rewrite (update_order_status_found _ _ _ _ order) by done.
  eexists. split; [done|]. split; [done|].
  by apply new_calls_app.
Qed.

Lemma transition_raises_before_write_witness :
  ∃ w',
    PUT_order_status "o1" (to_status PENDING) manager
                     (world_of store_fulfilled []) =
      (RaiseHTTP (internal_error
                    "Internal server error during order status update"),
       w') ∧
    ord_status <$> orders (store w') = [FULFILLED].
Proof.
  destruct (transition_raises_before_write "o1" (to_status PENDING) manager
              (world_of store_fulfilled [])
              {| ord_id := "o1"; ord_customer_name := "Acme Joinery";
                 ord_status := FULFILLED; ord_created_by := "u-sales" |})
    as (w' & H & Hs & _).
  - left. reflexivity.
  - apply quiet_nil.
  - reflexivity.
  - exists w'. split; [exact H|]. rewrite Hs. reflexivity.
Defined.

Lemma role_gates_witness :
  POST_orders (request [line "A" 1]) manager (world_of store_AB []) =
    (RaiseHTTP (forbidden "Salesperson access required"),
     world_of store_AB []) ∧
  PUT_order_status "o1" (to_status PROCESSING) sales
                   (world_of store_fulfilled []) =
    (RaiseHTTP (forbidden "Warehouse manager or admin access required"),
     world_of store_fulfilled []).
Proof.
  destruct role_gates as (H1 & _ & _ & H4 & _). split.
  - apply H1. discriminate.
  - apply H4; discriminate.
Defined.

(** ** A failure in the commit phase *)

(** C3 at a failing run.  A holds 5 and B holds 2; the request is A:3,
    B:1; the store raises on the sixth call, the insertion of the line for
    B.  The creation answers 500, but no deletion of the header is issued:
    the header and the line for A stay in the store, the order can still be
    read, and A stays at 2.  When the same call comes back empty instead,
    the header is deleted and the order is gone. *)
Theorem compensation_skipped_on_raise :
  let quietly := [NoFault; NoFault; NoFault; NoFault; NoFault] in
  let order_data := request [line "A" 3; line "B" 1] in
  (∃ w' read w'',
     POST_orders order_data sales (world_of store_AB (quietly ++ [Raises])) =
       (RaiseHTTP (internal_error "Internal server error during order creation"),
        w') ∧
     calls w' =
       [SelectInventory "A"; SelectInventory "B";
        InsertOrder "Acme Joinery" "u-sales" PENDING;
        InsertOrderItem "0" "A" 3; UpdateStock "A" 2;
        InsertOrderItem "0" "B" 1] ∧
     ord_id <$> orders (store w') = ["0"] ∧
     GET_order "0" sales w' = (Return read, w'') ∧
     or_id read = "0" ∧
     delivered <$> or_items read = [("A", 3)] ∧
     stock_of (store w') "A" = Some 2) ∧
  (∃ w' w'',
     POST_orders order_data sales (world_of store_AB (quietly ++ [EmptyResult])) =
       (RaiseHTTP (internal_error "Failed to create order items"), w') ∧
     calls w' =
       [SelectInventory "A"; SelectInventory "B";
        InsertOrder "Acme Joinery" "u-sales" PENDING;
        InsertOrderItem "0" "A" 3; UpdateStock "A" 2;
        InsertOrderItem "0" "B" 1; DeleteOrder "0"] ∧
     orders (store w') = [] ∧
     order_items (store w') = [] ∧
     GET_order "0" sales w' = (RaiseHTTP (not_found "Order not found"), w'') ∧
     stock_of (store w') "A" = Some 2).
Proof.
  intros quietly order_data. split.
  - eexists _, _, _. split_and!.
    + vm_compute. reflexivity.
    + reflexivity.
    + reflexivity.
    + vm_compute. reflexivity.
    + reflexivity.
    + reflexivity.
    + reflexivity.
  - eexists _, _. split_and!.
    + vm_compute. reflexivity.
    + reflexivity.
    + reflexivity.
    + reflexivity.
    + vm_compute. reflexivity.
    + reflexivity.
Qed.

(** ** Compensation after an empty result *)

Lemma quiet_replicate n m fs : (n ≤ m)%nat → quiet n (replicate m NoFault ++ fs).
Proof.
  intros Hle. apply (quiet_le n m); [done|]. unfold quiet.
  rewrite take_app_length' by by rewrite length_replicate.
  by apply Forall_replicate.
Qed.

Lemma drop_replicate_app {A} n m (x : A) l :
  drop n (replicate (n + m) x ++ l) = replicate m x ++ l.
Proof.
  rewrite replicate_add, <- app_assoc.
  by rewrite drop_app_length' by by rewrite length_replicate.
Qed.

Lemma rollback_quiet {A} order_id msg w :
  quiet 1 (faults w) →
  @rollback A order_id msg w =
  (RaiseHTTP (internal_error msg),
   after_calls [DeleteOrder order_id] (delete_order order_id (store w)).2 w).
Proof.
  intros Hq. unfold rollback. rewrite bind_eq, execute_quiet by done.
  by rewrite after_call_calls.
Qed.

Lemma commit_line_insert_empty order_id cached order_item w rest :
  faults w = EmptyResult :: rest →
  quiet 1 rest →
  commit_line order_id cached order_item w =
  (RaiseHTTP (internal_error "Failed to create order items"),
   after_calls [InsertOrderItem order_id (oic_item_id order_item)
                                (oic_quantity order_item);
                DeleteOrder order_id]
               (delete_order order_id (store w)).2 w).
Proof.
  intros Hf Hq. unfold commit_line. rewrite bind_eq. unfold execute at 1.
  rewrite Hf. cbn [head]. rewrite rollback_quiet by (simpl; by rewrite Hf).
  by rewrite after_call_calls, after_calls_compose.
Qed.

Lemma commit_line_update_empty order_id cached order_item r w rest :
  cached !! oic_item_id order_item = Some r →
  faults w = NoFault :: EmptyResult :: rest →
  quiet 1 rest →
  commit_line order_id cached order_item w =
  (RaiseHTTP (internal_error "Failed to update inventory stock levels"),
   after_calls [InsertOrderItem order_id (oic_item_id order_item)
                                (oic_quantity order_item);
                UpdateStock (oic_item_id order_item)
                            (inv_stock_level r - oic_quantity order_item);
                DeleteOrder order_id]
               (delete_order order_id
                  (insert_order_item order_id (oic_item_id order_item)
                     (oic_quantity order_item) (store w)).2).2 w).
Proof.
  intros Hc Hf Hq. unfold commit_line. rewrite bind_eq.
  rewrite execute_quiet.
  2:{ rewrite Hf. apply quiet_S. right. eexists. split; [done|apply quiet_0]. }
  cbn [insert_order_item fst snd]. rewrite Hc, bind_eq. unfold execute at 1.
  cbn [faults after_call]. rewrite Hf. cbn [tail head].
  rewrite rollback_quiet by (simpl; by rewrite Hf).
  rewrite !after_call_calls, !after_calls_compose. done.
Qed.

Lemma filter_snoc_out order_id (rows : list OrderItemRow) row :
  oi_order_id row = order_id →
  filter (λ r, oi_order_id r ≠ order_id) (rows ++ [row]) =
  filter (λ r, oi_order_id r ≠ order_id) rows.
Proof.
  intros H. rewrite filter_app, filter_cons_False by (by intros ?).
  by rewrite filter_nil, app_nil_r.
Qed.

Lemma commit_store_other_lines order_id cached st order_item :
  filter (λ r, oi_order_id r ≠ order_id)
         (order_items (commit_store order_id cached st order_item)) =
  filter (λ r, oi_order_id r ≠ order_id) (order_items st).
Proof.
  unfold commit_store. destruct (cached !! _); [|done].
  cbn [update_stock_level insert_order_item snd order_items].
  by apply filter_snoc_out.
Qed.

(** The commit loop when the store answers the lines before [order_item]
    and then comes back empty, on the insertion of that line ([stage = 0])
    or on its stock write ([stage = 1]), and answers the deletion. *)
Lemma commit_lines_compensates order_id cached before order_item after :
  ∀ acc w (stage : nat) rest,
  (∀ oi, oi ∈ before ++ [order_item] →
     is_Some (cached !! oic_item_id oi) ∧
     is_Some (store_row (store w) (oic_item_id oi))) →
  (stage ≤ 1)%nat →
  faults w = replicate (2 * length before + stage) NoFault ++
             EmptyResult :: rest →
  quiet 1 rest →
  ∃ msg w',
    commit_lines order_id cached (before ++ order_item :: after) acc w =
      (RaiseHTTP (internal_error msg), w') ∧
    inventory_items (store w') =
      inventory_items (foldl (commit_store order_id cached) (store w) before) ∧
    orders (store w') = filter (λ r, ord_id r ≠ order_id) (orders (store w)) ∧
    order_items (store w') =
      filter (λ r, oi_order_id r ≠ order_id) (order_items (store w)) ∧
    last (calls w') = Some (DeleteOrder order_id) ∧
    faults w' = tail rest.
Proof.
  induction before as [|y before IH]; intros acc w stage rest Hc Hs Hf Hq.
  - cbn [app commit_lines foldl]. rewrite bind_eq.
    destruct (Hc order_item) as [[r Hr] _]; [by left|].
    destruct stage as [|[|stage]]; [| |lia]; simpl in Hf.
    + rewrite (commit_line_insert_empty _ _ _ _ rest) by done.
      eexists _, _. split; [done|]. cbn [store after_calls calls faults].
      split_and!; try done.
      * by rewrite last_app.
      * rewrite Hf. simpl. by destruct rest.
    + rewrite (commit_line_update_empty _ _ _ r _ rest) by done.
      eexists _, _. split; [done|]. cbn [store after_calls calls faults].
      split_and!; try done.
      * cbn [delete_order insert_order_item snd order_items].
        by apply filter_snoc_out.
      * by rewrite last_app.
      * rewrite Hf. simpl. by destruct rest.
  - destruct (Hc y) as [[r Hr] Hy]; [by left|].
    cbn [app commit_lines]. rewrite bind_eq.
    assert (Hf' : faults w = replicate 2 NoFault ++
              (replicate (2 * length before + stage) NoFault ++
               EmptyResult :: rest)).
    { rewrite Hf, app_assoc, <- replicate_add. do 2 f_equal. simpl. lia. }
    rewrite (commit_line_quiet _ _ _ r);
      [|done|done|rewrite Hf'; by apply quiet_replicate].
    destruct (IH (acc ++ [line_response (fresh (used_ids (store w))) r y])
                (after_calls (commit_calls order_id cached y)
                   (commit_store order_id cached (store w) y) w)
                stage rest)
      as (msg & w' & Hrun & Hi & Ho & Hl & Hlast & Hfaults); [|done| |done|].
    + intros oi Hin. destruct (Hc oi) as [? ?]; [by right|].
      split; [done|]. cbn [store after_calls].
      by apply store_row_commit_is_Some.
    + cbn [faults after_calls]. unfold commit_calls. rewrite Hr, Hf'. done.
    + exists msg, w'. split; [done|]. cbn [store after_calls] in *.
      split_and!; try done.
      * rewrite Ho. unfold commit_store. by rewrite Hr.
      * rewrite Hl. apply commit_store_other_lines.
Qed.

Lemma filter_all {A} (P : A → Prop) `{∀ x, Decision (P x)} (l : list A) :
  Forall P l → filter P l = l.
Proof.
  induction 1 as [|x l Hx Hl IH]; [done|].
  by rewrite filter_cons_True, IH.
Qed.

Lemma fresh_order_id_others st :
  filter (λ r, ord_id r ≠ fresh (used_ids st)) (orders st) = orders st ∧
  filter (λ r, oi_order_id r ≠ fresh (used_ids st)) (order_items st) =
    order_items st.
Proof.
  pose proof (infinite_is_fresh (used_ids st)) as Hf. unfold used_ids in Hf.
  rewrite !elem_of_app in Hf. split; apply filter_all, Forall_forall.
  - intros r Hin Heq. destruct Hf. right; left.
    apply list_elem_of_fmap. by exists r.
  - intros r Hin Heq. destruct Hf. right; right; right.
    apply list_elem_of_fmap. by exists r.
Qed.

Lemma get_order_details_missing order_id current_user w :
  head (faults w) ≠ Some Raises →
  filter (λ r, ord_id r = order_id) (orders (store w)) = [] →
  ∃ w', get_order_details order_id current_user w =
          (RaiseHTTP (not_found "Order not found"), w') ∧
        store w' = store w.
Proof.
  intros Hf Hn. unfold get_order_details, try_except. rewrite bind_eq.
  destruct (execute _ _ w) as [o w1] eqn:E.
  pose proof (execute_inv _ _ _ _ _ E) as (_ & _ & Hcase).
  exists w1.
  destruct Hcase as [(-> & Hs & _)|[(-> & Hs & _)|(-> & Hs & _)]].
  - unfold execute in E. destruct (head (faults w)) as [[]|]; simplify_eq.
  - done.
  - cbn [select_order_by_id fst snd] in *. by rewrite Hn.
Qed.

Lemma stock_of_inventory st st' id :
  inventory_items st = inventory_items st' → stock_of st id = stock_of st' id.
Proof. unfold stock_of, store_row. by intros ->. Qed.

(** When a commit-phase call of line [k] comes back empty (the insertion
    of the line for [stage = 0], its stock write for [stage = 1]) after the
    store answered everything before, and the store answers the deletion:
    the creation answers 500, the last call issued is the deletion of the
    header, neither the header nor any line of the order is in the store,
    the order cannot be read, and the stock written for the lines before
    [k] stays as written. *)
Lemma compensation_on_empty_result order_data payload w k order_item
    (stage : nat) rest :
  role payload = "salesperson" →
  validation_errors (store w) (oc_items order_data) = [] →
  oc_items order_data !! k = Some order_item →
  (stage ≤ 1)%nat →
  faults w =
    replicate (length (oc_items order_data) + 1 + (2 * k + stage)) NoFault ++
    EmptyResult :: rest →
  quiet 1 rest →
  ∃ msg w',
    POST_orders order_data payload w = (RaiseHTTP (internal_error msg), w') ∧
    last (calls w') = Some (DeleteOrder (fresh (used_ids (store w)))) ∧
    orders (store w') = orders (store w) ∧
    order_items (store w') = order_items (store w) ∧
    (∀ reader, head (faults w') ≠ Some Raises →
       ∃ w'',
         GET_order (fresh (used_ids (store w))) reader w' =
           (RaiseHTTP (not_found "Order not found"), w'')) ∧
    (∀ id r, store_row (store w) id = Some r →
       stock_of (store w') id =
       Some (match last_line id (take k (oc_items order_data)) with
             | Some l => inv_stock_level r - oic_quantity l
             | None => inv_stock_level r
             end)).
Proof.
  intros Hrole Hv Hk Hs Hf Hq.
  set (items := oc_items order_data) in *.
  set (oid := fresh (used_ids (store w))).
  set (cached := cache_of (store w) items ∅).
  set (st1 := store_with_header order_data payload (store w)).
  assert (Hlen : length (take k items) = k).
  { apply lookup_lt_Some in Hk. rewrite length_take. lia. }
  assert (Hcov : ∀ oi, oi ∈ items →
            is_Some (cached !! oic_item_id oi) ∧
            is_Some (store_row st1 (oic_item_id oi))).
  { intros oi Hin. split; [by apply cached_items_covered|].
    rewrite validation_errors_nil in Hv. specialize (Hv _ Hin).
    apply satisfiable_line_error in Hv as (r & Hr & _). by exists r. }
  pose (w2 := after_calls
          (select_calls items ++
           [InsertOrder (oc_customer_name order_data) (user_id payload) PENDING])
          st1 w).
  destruct (commit_lines_compensates oid cached (take k items) order_item
              (drop (S k) items) [] w2 stage rest)
    as (msg & w' & Hrun & Hi & Ho & Hl & Hlast & Hfaults); [|done| |done|].
  { intros oi Hin. apply Hcov. rewrite <- (take_drop_middle items k order_item)
      by done. apply elem_of_app in Hin as [Hin|Hin%list_elem_of_singleton].
    - apply elem_of_app. by left.
    - subst oi. apply elem_of_app. right. by left. }
  { unfold w2. cbn [faults after_calls]. rewrite Hf, length_app.
    unfold select_calls. rewrite length_fmap, Hlen. simpl.
    apply drop_replicate_app. }
  rewrite take_drop_middle in Hrun by done.
  exists msg, w'. split_and!.
  - rewrite POST_orders_salesperson by done.
    unfold create_order, try_except, create_order_body.
    rewrite bind_eq, validate_stock_quiet
      by (rewrite Hf; apply quiet_replicate; unfold items; lia).
    cbn [fst snd]. fold items. rewrite Hv. cbn [app]. rewrite bind_eq.
    rewrite execute_quiet.
    2:{ cbn [faults after_calls]. unfold select_calls.
        rewrite length_fmap, Hf, <- Nat.add_assoc, drop_replicate_app.
        apply quiet_replicate. lia. }
    cbn [insert_order fst snd]. rewrite bind_eq, !after_call_calls.
    rewrite after_calls_compose. cbn [store after_calls snd].
    match goal with
    | |- context [commit_lines ?i ?c _ [] ?x] =>
        change (commit_lines i c items [] x)
          with (commit_lines oid cached items [] w2)
    end.
    by rewrite Hrun.
  - done.
  - rewrite Ho. unfold w2, st1, store_with_header, oid.
    cbn [store after_calls insert_order snd orders].
    rewrite filter_app, (proj1 (fresh_order_id_others (store w))).
    rewrite filter_cons_False by (by intros ?). by rewrite app_nil_r.
  - rewrite Hl. unfold w2, st1, store_with_header, oid.
    cbn [store after_calls insert_order snd order_items].
    apply fresh_order_id_others.
  - intros reader Hh. unfold GET_order. rewrite bind_eq. simpl.
    destruct (get_order_details_missing oid reader w') as (w'' & Hg & _);
      [done| |by exists w''].
    rewrite Ho. unfold w2, st1, store_with_header.
    cbn [store after_calls insert_order snd orders].
    apply filter_absent. intros Hin.
    apply list_elem_of_fmap in Hin as (r & Hid & Hin).
    apply list_elem_of_filter in Hin as [Hne _]. by destruct Hne.
  - intros id r Hr. rewrite (stock_of_inventory _ _ _ Hi).
    unfold w2. cbn [store after_calls].
    rewrite commit_store_stock.
    + destruct (last_line id (take k items)) as [oi|] eqn:Hlast'.
      * apply last_line_elem in Hlast' as [Hin <-].
        unfold cached. rewrite (cache_of_covers _ _ _ _ r); [done| |done].
        rewrite <- (take_drop k items). apply elem_of_app. by left.
      * unfold stock_of. change (store_row st1 id) with (store_row (store w) id).
        by rewrite Hr.
    + intros oi Hin. apply Hcov. rewrite <- (take_drop k items).
      apply elem_of_app. by left.
    + change (store_row st1 id) with (store_row (store w) id). by rewrite Hr.
Qed.


(** * Further properties of the order handlers *)

(** ** An order creation keeps what the store held *)

Lemma unused_fresh_order_id st : unused_order_id (fresh (used_ids st)) st.
Proof.
  pose proof (infinite_is_fresh (used_ids st)) as Hf. unfold used_ids in Hf.
  rewrite !elem_of_app in Hf. split; apply Forall_forall.
  - intros r Hin Heq. destruct Hf. right; left.
    apply list_elem_of_fmap. by exists r.
  - intros r Hin Heq. destruct Hf. right; right; right.
    apply list_elem_of_fmap. by exists r.
Qed.

Lemma records_kept_refl st : records_kept st st.
Proof. by split_and!. Qed.

Lemma item_identity_update id v l :
  item_identity <$> update_where (λ r, inv_id r = id) (set_stock v) l =
  item_identity <$> l.
Proof.
  unfold update_where. rewrite <- list_fmap_compose.
  apply list_fmap_ext. intros i r _. simpl. by case_decide.
Qed.

Lemma prefix_filter_unused {A} (P : A → Prop) `{∀ x, Decision (P x)}
    (l0 l : list A) :
  Forall P l0 → l0 `prefix_of` l → l0 `prefix_of` filter P l.
Proof.
  intros Hall [k ->]. rewrite filter_app, (filter_all P l0) by done.
  by apply prefix_app_r.
Qed.

Section keeps_records.
Context (st0 : Store) (order_id : string).
Context (Hunused : unused_order_id order_id st0).

Global Instance keeps_records_preorder : PreOrder (keeps_records st0).
Proof.
  split.
  - by intros w H.
  - intros w1 w2 w3 H1 H2 H. by apply H2, H1.
Qed.

Lemma keeps_records_execute {A} q (run : Store → list A * Store) :
  (∀ st, records_kept st0 st → records_kept st0 (run st).2) →
  preserves (keeps_records st0) (execute q run).
Proof.
  intros Hrun. apply (preserves_execute (keeps_records st0)).
  - by intros w H.
  - intros w _ H. by apply Hrun.
Qed.

Lemma records_kept_insert_item oid id q st :
  records_kept st0 st → records_kept st0 (insert_order_item oid id q st).2.
Proof.
  intros (Ho & Hl & Hi). split_and!; [done| |done].
  cbn [insert_order_item snd order_items]. by apply prefix_app_r.
Qed.

Lemma records_kept_insert_order c u s st :
  records_kept st0 st → records_kept st0 (insert_order c u s st).2.
Proof.
  intros (Ho & Hl & Hi). split_and!; [|done..].
  cbn [insert_order snd orders]. by apply prefix_app_r.
Qed.

Lemma records_kept_update_stock id v st :
  records_kept st0 st → records_kept st0 (update_stock_level id v st).2.
Proof.
  intros (Ho & Hl & Hi). split_and!; [done..|].
  cbn [update_stock_level snd inventory_items].
  by rewrite item_identity_update.
Qed.

Lemma records_kept_delete st :
  records_kept st0 st → records_kept st0 (delete_order order_id st).2.
Proof.
  destruct Hunused as [Huo Hul].
  intros (Ho & Hl & Hi). split_and!; [| |done].
  - cbn [delete_order snd orders]. by apply prefix_filter_unused.
  - cbn [delete_order snd order_items]. by apply prefix_filter_unused.
Qed.

Lemma keeps_records_rollback {A} msg :
  preserves (keeps_records st0) (@rollback A order_id msg).
Proof.
  unfold rollback. apply (preserves_bind (keeps_records st0)).
  - apply keeps_records_execute, records_kept_delete.
  - intros _. apply (preserves_raise (keeps_records st0)).
Qed.

Lemma keeps_records_commit_line cached order_item :
  preserves (keeps_records st0) (commit_line order_id cached order_item).
Proof.
  unfold commit_line. apply (preserves_bind (keeps_records st0)).
  - apply keeps_records_execute. intros st. apply records_kept_insert_item.
  - intros [|created_item rows]; [apply keeps_records_rollback|].
    destruct (cached !! oic_item_id order_item) as [r|];
      [|apply (preserves_raise_exception (keeps_records st0))].
    apply (preserves_bind (keeps_records st0)).
    + apply keeps_records_execute. intros st. apply records_kept_update_stock.
    + intros [|? ?]; [apply keeps_records_rollback|].
      apply (preserves_ret (keeps_records st0)).
Qed.

Lemma keeps_records_commit_lines cached items : ∀ acc,
  preserves (keeps_records st0) (commit_lines order_id cached items acc).
Proof.
  induction items as [|order_item items IH]; intros acc.
  - apply (preserves_ret (keeps_records st0)).
  - cbn [commit_lines]. apply (preserves_bind (keeps_records st0)).
    + apply keeps_records_commit_line.
    + intros l. apply IH.
Qed.
End keeps_records.

Lemma create_order_keeps_records order_data current_user w out w' :
  create_order order_data current_user w = (out, w') →
  records_kept (store w) (store w').
Proof.
  unfold create_order, try_except, create_order_body. rewrite bind_eq.
  destruct (validate_stock _ _ _ w) as [validated w1] eqn:V.
  pose proof (validate_stock_inv _ _ _ _ _ _ V) as (Hs1 & _ & _).
  assert (Hk1 : records_kept (store w) (store w1))
    by (rewrite Hs1; apply records_kept_refl).
  destruct validated as [validated|e|]; [|by intros [= <- <-]..].
  destruct (validated.1) as [|err errs]; [|by intros [= <- <-]].
  rewrite bind_eq. destruct (execute _ _ w1) as [o2 w2] eqn:E2.
  pose proof (execute_inv _ _ _ _ _ E2) as (_ & _ & Hcase).
  destruct Hcase as [(-> & Hs2 & _)|[(-> & Hs2 & _)|(-> & Hs2 & _)]].
  - intros [= <- <-]. by rewrite Hs2.
  - intros [= <- <-]. by rewrite Hs2.
  - cbn [insert_order fst snd] in *. rewrite bind_eq.
    destruct (commit_lines _ _ _ _ w2) as [o3 w3] eqn:C.
    assert (Hk3 : records_kept (store w) (store w3)).
    { eapply (keeps_records_commit_lines (store w)); [|exact C|].
      - cbn [ord_id]. rewrite Hs1. apply unused_fresh_order_id.
      - rewrite Hs2. by apply records_kept_insert_order. }
    destruct o3; by intros [= <- <-].
Qed.

(** X1.  Whatever the store does during an order creation, the orders and
    order lines it held are still there afterwards, in place and unaltered,
    and the inventory holds the same items under the same names: a creation
    only appends orders and lines and changes stock levels. *)
Theorem creation_keeps_records order_data payload w out w' :
  POST_orders order_data payload w = (out, w') →
  orders (store w) `prefix_of` orders (store w') ∧
  order_items (store w) `prefix_of` order_items (store w') ∧
  item_identity <$> inventory_items (store w') =
    item_identity <$> inventory_items (store w).
Proof.
  unfold POST_orders, require_salesperson. rewrite bind_eq. case_decide.
  - intros [= <- <-]. apply records_kept_refl.
  - apply create_order_keeps_records.
Qed.

Lemma creation_keeps_records_witness :
  let w := world_of store_fulfilled [NoFault; NoFault; NoFault; EmptyResult] in
  let run := POST_orders (request [line "A" 1; line "B" 1]) sales w in
  orders store_fulfilled `prefix_of` orders (store run.2) ∧
  order_items store_fulfilled `prefix_of` order_items (store run.2).
Proof.
  intros w run.
  destruct (creation_keeps_records (request [line "A" 1; line "B" 1]) sales
              w run.1 run.2 eq_refl) as (H1 & H2 & _).
  split; [exact H1|exact H2].
Defined.

(** ** A header that cannot be created *)

Lemma drop_lookup_head {A} (l : list A) n x :
  l !! n = Some x → head (drop n l) = Some x.
Proof.
  revert l. induction n as [|n IH]; intros [|y l] H; simplify_eq/=; [done|].
  by apply IH.
Qed.

(** X2.  When the request passes pre-validation and the insertion of the
    header comes back empty or raises, the creation answers 500 with the
    store as it was: the header insertion is the last call issued, no line
    and no stock level is written, and nothing is deleted. *)
Theorem header_failure_writes_nothing order_data payload w f :
  role payload = "salesperson" →
  validation_errors (store w) (oc_items order_data) = [] →
  quiet (length (oc_items order_data)) (faults w) →
  faults w !! length (oc_items order_data) = Some f →
  f ≠ NoFault →
  ∃ msg w',
    POST_orders order_data payload w = (RaiseHTTP (internal_error msg), w') ∧
    msg = match f with
          | Raises => "Internal server error during order creation"
          | _ => "Failed to create order"
          end ∧
    store w' = store w ∧
    new_calls w w' =
      select_calls (oc_items order_data) ++
      [InsertOrder (oc_customer_name order_data) (user_id payload) PENDING].
Proof.
  intros Hrole Hv Hq Hf Hne. rewrite POST_orders_salesperson by done.
  unfold create_order, try_except, create_order_body.
  rewrite bind_eq, validate_stock_quiet by done. cbn [fst snd].
  rewrite Hv. cbn [app]. rewrite bind_eq. unfold execute.
  cbn [faults after_calls]. unfold select_calls at 1. rewrite length_fmap.
  rewrite (drop_lookup_head _ _ _ Hf).
  destruct f; [done| |]; eexists _, _; (split; [done|]);
    rewrite after_call_calls, after_calls_compose;
    (split_and!; [done|done|by apply new_calls_app]).
Qed.

Lemma header_failure_writes_nothing_witness :
  ∃ w',
    POST_orders (request [line "A" 3; line "B" 1]) sales
                (world_of store_AB [NoFault; NoFault; EmptyResult]) =
      (RaiseHTTP (internal_error "Failed to create order"), w') ∧
    store w' = store_AB.
Proof.
  destruct (header_failure_writes_nothing (request [line "A" 3; line "B" 1])
              sales (world_of store_AB [NoFault; NoFault; EmptyResult])
              EmptyResult)
    as (msg & w' & H & -> & Hs & _).
  - reflexivity.
  - reflexivity.
  - unfold quiet. simpl. repeat constructor.
  - reflexivity.
  - discriminate.
  - exists w'. split; [exact H|exact Hs].
Defined.

(** ** Orders over distinct items *)

Lemma last_line_NoDup items order_item :
  NoDup (oic_item_id <$> items) →
  order_item ∈ items →
  last_line (oic_item_id order_item) items = Some order_item.
Proof.
  unfold last_line. induction items as [|x items IH]; intros Hnd Hin.
  - by apply elem_of_nil in Hin.
  - rewrite fmap_cons in Hnd. apply NoDup_cons in Hnd as [Hx Hnd].
    rewrite filter_cons. apply elem_of_cons in Hin as [->|Hin].
    + rewrite decide_True by done.
      assert (filter (λ oi, oic_item_id oi = oic_item_id x) items = [])
        as ->; [|done].
      destruct (filter _ items) as [|y ys] eqn:E; [done|].
      assert (y ∈ filter (λ oi, oic_item_id oi = oic_item_id x) items)
        as [Hy Hyin]%list_elem_of_filter by (rewrite E; by left).
      destruct Hx. rewrite <- Hy. apply list_elem_of_fmap. by exists y.
    + rewrite decide_False.
      * by apply IH.
      * intros Heq. destruct Hx. rewrite Heq.
        apply list_elem_of_fmap. by exists order_item.
Qed.

Lemma last_line_absent items id :
  id ∉ oic_item_id <$> items → last_line id items = None.
Proof.
  intros Hn. unfold last_line.
  destruct (filter _ items) as [|y ys] eqn:E; [done|].
  assert (y ∈ filter (λ oi, oic_item_id oi = id) items)
    as [Hy Hyin]%list_elem_of_filter by (rewrite E; by left).
  destruct Hn. rewrite <- Hy. apply list_elem_of_fmap. by exists y.
Qed.

(** X3.  When the lines of a request name pairwise distinct items, each on
    its own within the stock held, and the store answers every call, the
    creation succeeds and the books balance: every ordered item holds
    exactly its previous level less the quantity ordered, and every other
    item holds what it held. *)
Theorem distinct_items_decremented order_data payload w :
  role payload = "salesperson" →
  quiet (creation_calls (length (oc_items order_data))) (faults w) →
  NoDup (oic_item_id <$> oc_items order_data) →
  (∀ order_item, order_item ∈ oc_items order_data →
     ∃ r, store_row (store w) (oic_item_id order_item) = Some r ∧
          oic_quantity order_item ≤ inv_stock_level r) →
  ∃ resp w',
    POST_orders order_data payload w = (Return resp, w') ∧
    (∀ order_item r,
       order_item ∈ oc_items order_data →
       store_row (store w) (oic_item_id order_item) = Some r →
       stock_of (store w') (oic_item_id order_item) =
         Some (inv_stock_level r - oic_quantity order_item)) ∧
    (∀ id r,
       id ∉ oic_item_id <$> oc_items order_data →
       store_row (store w) id = Some r →
       stock_of (store w') id = Some (inv_stock_level r)).
Proof.
  intros Hrole Hq Hnd Hsat. apply satisfiable_no_errors in Hsat.
  eexists _, _. split; [by apply POST_orders_quiet|].
  cbn [store after_calls]. split.
  - intros oi r Hin Hr. rewrite (created_store_stock _ _ _ _ r) by done.
    by rewrite last_line_NoDup.
  - intros id r Hn Hr. rewrite (created_store_stock _ _ _ _ r) by done.
    by rewrite last_line_absent.
Qed.

Lemma distinct_items_decremented_witness :
  ∃ resp w',
    POST_orders (request [line "B" 2; line "A" 4]) sales
                (world_of store_AB []) = (Return resp, w') ∧
    stock_of (store w') "A" = Some 1 ∧
    stock_of (store w') "B" = Some 0.
Proof.
  destruct (distinct_items_decremented (request [line "B" 2; line "A" 4]) sales
              (world_of store_AB []))
    as (resp & w' & H & Hs & _).
  - reflexivity.
  - apply quiet_nil.
  - by apply (bool_decide_unpack _).
  - intros oi Hin. vm_compute in Hin.
    apply elem_of_cons in Hin as [->|Hin];
      [exists item_B; split; [reflexivity|simpl; lia]|].
    apply elem_of_cons in Hin as [->|Hin];
      [exists item_A; split; [reflexivity|simpl; lia]|].
    by apply elem_of_nil in Hin.
  - exists resp, w'. split; [exact H|]. split.
    + apply (Hs (line "A" 4) item_A); [|reflexivity]. right. by left.
    + apply (Hs (line "B" 2) item_B); [|reflexivity]. by left.
Defined.

(** ** One order after another *)

(** X4.  A later request is validated against the stock an earlier
    creation left: after an order over distinct items took [q1] of an
    item, a request with a line for that item asking for more than what is
    left is rejected with the insufficient-stock error, and the stock stays
    as the first order left it. *)
Theorem later_order_sees_decrement first second payload1 payload2
    w resp w1 line1 line2 r :
  POST_orders first payload1 w = (Return resp, w1) →
  NoDup (oic_item_id <$> oc_items first) →
  line1 ∈ oc_items first →
  store_row (store w) (oic_item_id line1) = Some r →
  line2 ∈ oc_items second →
  oic_item_id line2 = oic_item_id line1 →
  inv_stock_level r - oic_quantity line1 < oic_quantity line2 →
  role payload2 = "salesperson" →
  quiet (length (oc_items second)) (faults w1) →
  ∃ details w2,
    POST_orders second payload2 w1 =
      (RaiseHTTP (insufficient_stock details), w2) ∧
    store w2 = store w1 ∧
    stock_of (store w2) (oic_item_id line1) =
      Some (inv_stock_level r - oic_quantity line1).
Proof.
  intros H1 Hnd Hin1 Hr Hin2 Hid Hlt Hrole Hq.
  apply POST_orders_success in H1.
  pose proof (create_order_return _ _ _ _ _ H1) as [Hv _].
  apply create_order_success in H1 as [_ Hw1].
  assert (Hstock : stock_of (store w1) (oic_item_id line1) =
                   Some (inv_stock_level r - oic_quantity line1)).
  { rewrite Hw1. cbn [store after_calls].
    rewrite (created_store_stock _ _ _ _ r) by done.
    by rewrite last_line_NoDup. }
  eexists _, _. rewrite POST_orders_salesperson by done.
  rewrite create_order_rejected_quiet; [done|done|].
  apply unsatisfiable_errors. exists line2. split; [done|].
  unfold stock_of in Hstock. rewrite <- Hid in Hstock.
  destruct (store_row (store w1) (oic_item_id line2)) as [r1|] eqn:Hr1;
    [|by left].
  right. exists r1. split; [done|]. simpl in Hstock. simplify_eq. lia.
Qed.

Lemma later_order_sees_decrement_witness :
  ∃ resp w1 details w2,
    POST_orders (request [line "A" 3]) sales (world_of store_AB []) =
      (Return resp, w1) ∧
    POST_orders (request [line "B" 1; line "A" 3]) sales w1 =
      (RaiseHTTP (insufficient_stock details), w2) ∧
    stock_of (store w2) "A" = Some 2.
Proof.
  eexists _, _.
  destruct (later_order_sees_decrement (request [line "A" 3])
              (request [line "B" 1; line "A" 3]) sales sales
              (world_of store_AB []) _ _ (line "A" 3) (line "A" 3) item_A
              eq_refl)
    as (details & w2 & H & _ & Hs).
  - by apply (bool_decide_unpack _).
  - by left.
  - reflexivity.
  - right. by left.
  - reflexivity.
  - simpl. lia.
  - reflexivity.
  - apply quiet_nil.
  - exists details, w2. split; [reflexivity|]. split; [exact H|exact Hs].
Defined.


(** ** Reads and status transitions: what they touch *)

Global Instance reads_only_preorder : PreOrder reads_only.
Proof.
  split.
  - intros w. split; [done|]. exists []. by rewrite app_nil_r.
  - intros w1 w2 w3 [H1 (qs1 & Hc1 & Hq1)] [H2 (qs2 & Hc2 & Hq2)].
    split; [congruence|]. exists (qs1 ++ qs2).
    rewrite Hc2, Hc1, <- app_assoc. split; [done|]. by apply Forall_app.
Qed.

Lemma reads_only_execute {A} q (run : Store → list A * Store) :
  is_write q = false →
  (∀ st, (run st).2 = st) →
  preserves reads_only (execute q run).
Proof.
  intros Hq Hrun. apply (preserves_execute reads_only); intros w; [|intros _];
    (split; [by rewrite ?Hrun|]); exists [q]; by split; [|constructor].
Qed.

Lemma reads_only_read_order_items order_id :
  preserves reads_only (read_order_items order_id).
Proof.
  unfold read_order_items. apply (preserves_bind reads_only).
  - by apply reads_only_execute.
  - intros rows. destruct (order_item_responses rows).
    + apply (preserves_ret reads_only).
    + apply (preserves_raise_exception reads_only).
Qed.

(** X5.  Reading an order never writes: whatever the store does and
    whatever the outcome, the store is left as it was and every call issued
    is a read. *)
Theorem reading_never_writes order_id payload w out w' :
  GET_order order_id payload w = (out, w') →
  store w' = store w ∧
  Forall (λ q, is_write q = false) (new_calls w w').
Proof.
  intros H. assert (Hr : reads_only w w').
  { revert H. apply (preserves_bind reads_only).
    - apply (preserves_ret reads_only).
    - intros cu. apply (preserves_try_except reads_only).
      apply (preserves_bind reads_only).
      + by apply reads_only_execute.
      + intros [|order rows]; [apply (preserves_raise reads_only)|].
        apply (preserves_bind reads_only).
        * apply reads_only_read_order_items.
        * intros lines. apply (preserves_ret reads_only). }
  destruct Hr as [Hs (qs & Hc & Hq)]. split; [done|].
  by rewrite (new_calls_app _ _ _ Hc).
Qed.

Lemma reading_never_writes_witness :
  let w := world_of store_fulfilled [NoFault; Raises] in
  let run := GET_order "o1" sales w in
  store run.2 = store_fulfilled ∧
  Forall (λ q, is_write q = false) (new_calls w run.2).
Proof.
  intros w run.
  exact (reading_never_writes "o1" sales w run.1 run.2 eq_refl).
Defined.

(** X6.  A status transition touches nothing but the status of the order
    it names: whatever the store does and whatever the outcome, inventory
    and order lines are as they were, and every order row is as it was or
    is a row of that order under the requested status. *)
Theorem transition_touches_status_only order_id status_update payload w
    out w' :
  PUT_order_status order_id status_update payload w = (out, w') →
  inventory_items (store w') = inventory_items (store w) ∧
  order_items (store w') = order_items (store w) ∧
  Forall2 (λ r r', r' = r ∨
                   (ord_id r = order_id ∧
                    r' = set_status (osu_status status_update) r))
          (orders (store w)) (orders (store w')).
Proof.
  intros H. assert (Hs : store w' = store w).
  { unfold PUT_order_status, require_warehouse_manager_or_admin in H.
    rewrite bind_eq in H. case_decide.
    - unfold raise in H. by simplify_eq.
    - unfold ret in H. by apply update_order_status_inv in H as [? _]. }
  rewrite Hs. split_and!; [done..|].
  apply Forall_Forall2_diag, Forall_true. by left.
Qed.

Lemma transition_touches_status_only_witness :
  let w := world_of store_fulfilled [NoFault; NoFault; Raises] in
  let run := PUT_order_status "o1" (to_status PROCESSING) admin w in
  inventory_items (store run.2) = inventory_items store_fulfilled ∧
  order_items (store run.2) = order_items store_fulfilled.
Proof.
  intros w run.
  destruct (transition_touches_status_only "o1" (to_status PROCESSING) admin
              w run.1 run.2 eq_refl) as (H1 & H2 & _).
  split; [exact H1|exact H2].
Defined.

(** ** A line whose item is gone *)

Lemma order_item_responses_dangling st (rs : list OrderItemRow) row :
  row ∈ rs → store_row st (oi_item_id row) = None →
  order_item_responses ((λ r, (r, joined_name st r)) <$> rs) = None.
Proof.
  intros Hin Hnone. induction rs as [|r rs IH].
  - by apply elem_of_nil in Hin.
  - rewrite fmap_cons. cbn [order_item_responses].
    apply elem_of_cons in Hin as [<-|Hin].
    + unfold joined_name. unfold store_row in Hnone. by rewrite Hnone.
    + rewrite IH by done. by destruct (joined_name st r).
Qed.

(** X7.  When a line of the order references an item the inventory no
    longer holds, reading the order answers 500 rather than a partial
    order, and the store is unchanged. *)
Theorem read_with_dangling_line order_id payload w order row :
  quiet 2 (faults w) →
  head (filter (λ r, ord_id r = order_id) (orders (store w))) = Some order →
  row ∈ order_items (store w) →
  oi_order_id row = order_id →
  store_row (store w) (oi_item_id row) = None →
  ∃ w',
    GET_order order_id payload w =
      (RaiseHTTP (internal_error
         "Internal server error while retrieving order details"), w') ∧
    store w' = store w.
Proof.
  intros Hq Ho Hin Hid Hnone. unfold GET_order. rewrite bind_eq. simpl.
  unfold get_order_details, try_except.
  rewrite bind_eq, execute_quiet by (eapply quiet_le; [|done]; lia).
  cbn [select_order_by_id fst snd].
  destruct (filter _ (orders (store w))) as [|order' rows]; [done|].
  rewrite bind_eq. unfold read_order_items. rewrite bind_eq.
  rewrite execute_quiet by (simpl; by apply quiet_tail).
  cbn [select_order_items_joined fst snd store after_call].
  rewrite (order_item_responses_dangling _ _ row); [| |done].
  - eexists. split; [done|]. done.
  - apply list_elem_of_filter. done.
Qed.

Lemma read_with_dangling_line_witness :
  let st := {| inventory_items := [item_A];
               orders := orders store_fulfilled;
               order_items := order_items store_fulfilled |} in
  ∃ w',
    GET_order "o1" sales (world_of st []) =
      (RaiseHTTP (internal_error
         "Internal server error while retrieving order details"), w') ∧
    store w' = st.
Proof.
  intros st.
  apply (read_with_dangling_line "o1" sales (world_of st [])
           {| ord_id := "o1"; ord_customer_name := "Acme Joinery";
              ord_status := FULFILLED; ord_created_by := "u-sales" |}
           {| oi_id := "l1"; oi_order_id := "o1"; oi_item_id := "B";
              oi_quantity := 1 |}).
  - apply quiet_nil.
  - reflexivity.
  - by left.
  - reflexivity.
  - reflexivity.
Defined.

(** * Further properties of the inventory update *)

Lemma update_inventory_item_found item_id item_data current_user w
    existing rows :
  quiet 1 (faults w) →
  filter (λ r, inv_id r = item_id) (inventory_items (store w)) =
    existing :: rows →
  update_inventory_item item_id item_data current_user w =
  try_except
    (do _checked <~ check_name_free item_id item_data in
     if no_update item_data then ret (inventory_response existing)
     else
       do update_result <~
         execute (UpdateInventory item_id item_data)
                 (update_inventory_row item_id item_data) in
       match update_result with
       | [] =>
           raise HTTP_500_INTERNAL_SERVER_ERROR
                 (Text "Failed to update inventory item")
       | updated_item :: _ => ret (inventory_response updated_item)
       end)
    "Internal server error during inventory item update"
    (after_call (SelectInventory item_id) (store w) w).
Proof.
  intros Hq Hf. unfold update_inventory_item, try_except.
  rewrite bind_eq, execute_quiet by done.
  cbn [select_inventory_by_id fst snd]. by rewrite Hf.
Qed.

Lemma PUT_inventory_item_allowed item_id item_data payload w :
  role payload = "warehouse_manager" ∨ role payload = "admin" →
  PUT_inventory_item item_id item_data payload w =
  update_inventory_item item_id item_data payload w.
Proof.
  intros H. unfold PUT_inventory_item. rewrite bind_eq.
  by rewrite require_manager_ok.
Qed.

(** X10.  Renaming an item to a name another item already carries is
    refused with 409 Conflict before any write: the store is unchanged and
    only the two reads were issued. *)
Theorem rename_conflict_refused item_id item_data payload w name existing
    other :
  role payload = "warehouse_manager" ∨ role payload = "admin" →
  quiet 2 (faults w) →
  head (filter (λ r, inv_id r = item_id) (inventory_items (store w))) =
    Some existing →
  iiu_name item_data = Some name →
  other ∈ inventory_items (store w) →
  inv_name other = name → inv_id other ≠ item_id →
  ∃ w',
    PUT_inventory_item item_id item_data payload w =
      (RaiseHTTP {| status_code := HTTP_409_CONFLICT;
                    detail := Text "Another inventory item with this name already exists" |},
       w') ∧
    store w' = store w ∧
    new_calls w w' =
      [SelectInventory item_id; SelectInventoryByName name item_id].
Proof.
  intros Hrole Hq He Hn Hin Hname Hid.
  rewrite PUT_inventory_item_allowed by done.
  destruct (filter _ (inventory_items (store w))) as [|e rows] eqn:Hf; [done|].
  rewrite (update_inventory_item_found _ _ _ _ e rows);
    [|eapply quiet_le; [|done]; lia|done].
  unfold try_except. rewrite bind_eq. unfold check_name_free. rewrite Hn.
  rewrite bind_eq, execute_quiet by (simpl; by apply quiet_tail).
  cbn [select_inventory_by_name_except fst snd store after_call].
  destruct (filter (λ r, inv_name r = name ∧ inv_id r ≠ item_id)
                   (inventory_items (store w))) as [|c cs] eqn:Hc.
  - exfalso. eapply (filter_nil_not_elem_of _ _ other);
      [exact Hc|by split|done].
  - eexists. split; [done|]. split; [done|].
    rewrite !after_call_calls, after_calls_compose. by apply new_calls_app.
Qed.

Lemma rename_conflict_refused_witness :
  ∃ w',
    PUT_inventory_item "A" (rename_to "Birch plywood") manager
                       (world_of store_AB []) =
      (RaiseHTTP {| status_code := HTTP_409_CONFLICT;
                    detail := Text "Another inventory item with this name already exists" |},
       w') ∧
    store w' = store_AB.
Proof.
  destruct (rename_conflict_refused "A" (rename_to "Birch plywood") manager
              (world_of store_AB []) "Birch plywood" item_A item_B)
    as (w' & H & Hs & _).
  - left. reflexivity.
  - apply quiet_nil.
  - reflexivity.
  - reflexivity.
  - right. by left.
  - reflexivity.
  - discriminate.
  - exists w'. split; [exact H|exact Hs].
Defined.

(** X11.  An update that provides no field answers the item as stored and
    writes nothing: the only call is the lookup of the item. *)
Theorem empty_update_writes_nothing item_id item_data payload w existing :
  role payload = "warehouse_manager" ∨ role payload = "admin" →
  quiet 1 (faults w) →
  head (filter (λ r, inv_id r = item_id) (inventory_items (store w))) =
    Some existing →
  no_update item_data = true →
  ∃ w',
    PUT_inventory_item item_id item_data payload w =
      (Return (inventory_response existing), w') ∧
    store w' = store w ∧
    new_calls w w' = [SelectInventory item_id].
Proof.
  intros Hrole Hq He Hno. rewrite PUT_inventory_item_allowed by done.
  destruct (filter _ (inventory_items (store w))) as [|e rows] eqn:Hf; [done|].
  cbn [head] in He. simplify_eq.
  rewrite (update_inventory_item_found _ _ _ _ existing rows) by done.
  unfold try_except. rewrite bind_eq. unfold check_name_free.
  assert (iiu_name item_data = None) as ->.
  { unfold no_update in Hno. by destruct (iiu_name item_data). }
  unfold ret at 1. rewrite Hno. eexists. split; [done|]. split; [done|].
  rewrite after_call_calls. by apply new_calls_app.
Qed.

Lemma empty_update_writes_nothing_witness :
  ∃ w',
    PUT_inventory_item "B"
      {| iiu_name := None; iiu_description := None;
         iiu_stock_level := None; iiu_low_stock_threshold := None |}
      admin (world_of store_AB []) =
      (Return (inventory_response item_B), w') ∧
    store w' = store_AB.
Proof.
  destruct (empty_update_writes_nothing "B"
              {| iiu_name := None; iiu_description := None;
                 iiu_stock_level := None; iiu_low_stock_threshold := None |}
              admin (world_of store_AB []) item_B)
    as (w' & H & Hs & _).
  - right. reflexivity.
  - apply quiet_nil.
  - reflexivity.
  - reflexivity.
  - exists w'. split; [exact H|exact Hs].
Defined.

Section item_only.
Context (item_id : string) (u : InventoryItemUpdate).

Lemma apply_item_update_twice r :
  apply_item_update u (apply_item_update u r) = apply_item_update u r.
Proof.
  unfold apply_item_update. simpl.
  destruct (iiu_name u), (iiu_description u), (iiu_stock_level u),
    (iiu_low_stock_threshold u); done.
Qed.

Lemma item_changed_trans r1 r2 r3 :
  item_changed item_id u r1 r2 → item_changed item_id u r2 r3 →
  item_changed item_id u r1 r3.
Proof.
  intros [->|[Hid ->]] [->|[Hid' ->]].
  - by left.
  - by right.
  - by right.
  - right. by rewrite apply_item_update_twice.
Qed.

Global Instance item_only_preorder : PreOrder (item_only item_id u).
Proof.
  split.
  - intros w. split_and!; [done..|]. apply Forall_Forall2_diag, Forall_true.
    by left.
  - intros w1 w2 w3 (Ho1 & Hl1 & Hi1) (Ho2 & Hl2 & Hi2).
    split_and!; [congruence..|].
    eapply Forall2_trans; [|exact Hi1|exact Hi2].
    intros r1 r2 r3. apply item_changed_trans.
Qed.

Lemma item_only_read {A} q (run : Store → list A * Store) :
  (∀ st, (run st).2 = st) →
  preserves (item_only item_id u) (execute q run).
Proof.
  intros Hrun. apply (preserves_execute (item_only item_id u)); intros w;
    [|intros _]; (split_and!; cbn [after_call store]; rewrite ?Hrun;
                  [done..|]);
    apply Forall_Forall2_diag, Forall_true; by left.
Qed.

Lemma item_only_update :
  preserves (item_only item_id u)
    (execute (UpdateInventory item_id u) (update_inventory_row item_id u)).
Proof.
  apply (preserves_execute (item_only item_id u)); intros w; [|intros _].
  - split_and!; [done..|]. apply Forall_Forall2_diag, Forall_true. by left.
  - split_and!; [done..|].
    cbn [after_call store update_inventory_row snd inventory_items].
    unfold update_where. apply Forall2_fmap_r, Forall_Forall2_diag.
    apply Forall_true. intros r. unfold compose, item_changed.
    destruct (decide (inv_id r = item_id)); [by right|by left].
Qed.

Lemma item_only_PUT payload :
  preserves (item_only item_id u) (PUT_inventory_item item_id u payload).
Proof.
  apply (preserves_bind (item_only item_id u)).
  - unfold require_warehouse_manager_or_admin. case_decide.
    + apply (preserves_raise (item_only item_id u)).
    + apply (preserves_ret (item_only item_id u)).
  - intros cu. apply (preserves_try_except (item_only item_id u)).
    apply (preserves_bind (item_only item_id u)).
    + by apply item_only_read.
    + intros [|existing rows]; [apply (preserves_raise (item_only item_id u))|].
      apply (preserves_bind (item_only item_id u)).
      * unfold check_name_free. destruct (iiu_name u) as [name|].
        -- apply (preserves_bind (item_only item_id u)).
           ++ by apply item_only_read.
           ++ intros [|? ?].
              ** apply (preserves_ret (item_only item_id u)).
              ** apply (preserves_raise (item_only item_id u)).
        -- apply (preserves_ret (item_only item_id u)).
      * intros _. destruct (no_update u).
        -- apply (preserves_ret (item_only item_id u)).
        -- apply (preserves_bind (item_only item_id u)).
           ++ apply item_only_update.
           ++ intros [|? ?].
              ** apply (preserves_raise (item_only item_id u)).
              ** apply (preserves_ret (item_only item_id u)).
Qed.
End item_only.

(** X12.  Whatever the store does, an inventory update leaves orders and
    order lines alone and changes no item but the one it names, whose id it
    never changes; with counters that satisfy the model's [ge=0], stock
    levels that were non-negative stay non-negative. *)
Theorem update_touches_one_item item_id item_data payload w out w' :
  PUT_inventory_item item_id item_data payload w = (out, w') →
  orders (store w') = orders (store w) ∧
  order_items (store w') = order_items (store w) ∧
  inv_id <$> inventory_items (store w') = inv_id <$> inventory_items (store w) ∧
  Forall2 (λ r r', r' = r ∨
                   (inv_id r = item_id ∧ r' = apply_item_update item_data r))
          (inventory_items (store w)) (inventory_items (store w')) ∧
  (update_counters_valid item_data →
   stock_nonneg (store w) → stock_nonneg (store w')).
Proof.
  intros H. apply item_only_PUT in H as (Ho & Hl & Hi).
  split_and!; [done|done| |done|].
  - clear Ho Hl. induction Hi as [|r r' l l' Hr _ IH]; [done|].
    rewrite !fmap_cons, IH. f_equal. by destruct Hr as [->|[_ ->]].
  - intros [Hv _]. unfold stock_nonneg. clear Ho Hl.
    induction Hi as [|r r' l l' Hr _ IH]; [done|].
    rewrite !Forall_cons. intros [H0 Hrest]. split; [|by apply IH].
    destruct Hr as [->|[_ ->]]; [done|]. unfold apply_item_update. simpl.
    destruct (iiu_stock_level item_data) as [v|] eqn:E; simpl; [|done].
    by apply Hv.
Qed.

Lemma update_touches_one_item_witness :
  let u := {| iiu_name := None; iiu_description := Some "18 mm";
              iiu_stock_level := Some 7; iiu_low_stock_threshold := None |} in
  let run := PUT_inventory_item "A" u manager (world_of store_fulfilled []) in
  orders (store run.2) = orders store_fulfilled ∧
  order_items (store run.2) = order_items store_fulfilled ∧
  stock_nonneg (store run.2).
Proof.
  intros u run.
  destruct (update_touches_one_item "A" u manager
              (world_of store_fulfilled []) run.1 run.2 eq_refl)
    as (H1 & H2 & _ & _ & H5).
  split; [exact H1|]. split; [exact H2|]. apply H5.
  - split; intros v [= <-]; lia.
  - unfold stock_nonneg. simpl. repeat constructor; simpl; lia.
Defined.

(** ** Names stay unique *)

Lemma names_after_update_None item_id u (l : list InventoryRow) :
  iiu_name u = None →
  inv_name <$> update_where (λ r, inv_id r = item_id) (apply_item_update u) l =
  inv_name <$> l.
Proof.
  intros Hn. unfold update_where. rewrite <- list_fmap_compose.
  apply list_fmap_ext. intros i r _. simpl. case_decide; [|done].
  unfold apply_item_update. simpl. by rewrite Hn.
Qed.

Lemma names_after_rename_elem item_id u n (l : list InventoryRow) x :
  iiu_name u = Some n →
  x ∈ inv_name <$> update_where (λ r, inv_id r = item_id)
                     (apply_item_update u) l →
  x = n ∨ x ∈ inv_name <$> l.
Proof.
  intros Hn Hin. unfold update_where in Hin.
  apply list_elem_of_fmap in Hin as (r' & -> & Hin).
  apply list_elem_of_fmap in Hin as (r & -> & Hin).
  case_decide.
  - left. unfold apply_item_update. simpl. by rewrite Hn.
  - right. apply list_elem_of_fmap. by exists r.
Qed.

Lemma update_where_absent item_id u (l : list InventoryRow) :
  item_id ∉ inv_id <$> l →
  update_where (λ r, inv_id r = item_id) (apply_item_update u) l = l.
Proof.
  intros Hn. unfold update_where. rewrite <- (list_fmap_id l) at 2.
  apply list_fmap_ext. intros i r Hr. simpl. case_decide; [|done].
  destruct Hn. apply list_elem_of_fmap. exists r. split; [done|].
  by eapply list_elem_of_lookup_2.
Qed.

Lemma names_after_rename item_id u n (l : list InventoryRow) :
  iiu_name u = Some n →
  NoDup (inv_id <$> l) →
  NoDup (inv_name <$> l) →
  filter (λ r, inv_name r = n ∧ inv_id r ≠ item_id) l = [] →
  NoDup (inv_name <$> update_where (λ r, inv_id r = item_id)
                        (apply_item_update u) l).
Proof.
  intros Hn. induction l as [|x l IH]; intros Hids Hnames Hfree;
    [constructor|].
  rewrite fmap_cons in Hids, Hnames.
  apply NoDup_cons in Hids as [Hxid Hids].
  apply NoDup_cons in Hnames as [Hxname Hnames].
  rewrite filter_cons in Hfree.
  unfold update_where. rewrite fmap_cons, fmap_cons.
  fold (update_where (λ r, inv_id r = item_id) (apply_item_update u) l).
  destruct (decide (inv_id x = item_id)) as [Hid|Hne].
  - rewrite decide_False in Hfree by (intros [_ ?]; done).
    rewrite <- Hid in *. rewrite update_where_absent by done.
    apply NoDup_cons. split; [|done].
    unfold apply_item_update. simpl. rewrite Hn. simpl.
    intros Hin. apply list_elem_of_fmap in Hin as (r & Hr & Hin).
    eapply (filter_nil_not_elem_of _ _ r); [exact Hfree| |done].
    split; [done|]. intros Heq. destruct Hxid.
    apply list_elem_of_fmap. exists r. by split.
  - destruct (decide (inv_name x = n ∧ inv_id x ≠ item_id)) as [|Hnot];
      [done|].
    apply NoDup_cons. split; [|by apply IH].
    intros Hin. eapply names_after_rename_elem in Hin as [Heq|Hin]; [| |done].
    + destruct Hnot. done.
    + done.
Qed.

(** X13.  When the store answers, an inventory update keeps item names
    unique: if no two items share an id or a name before, no two items
    share a name afterwards, whatever the outcome of the update. *)
Theorem update_keeps_names_unique item_id item_data payload w out w' :
  quiet 3 (faults w) →
  NoDup (inv_id <$> inventory_items (store w)) →
  NoDup (inv_name <$> inventory_items (store w)) →
  PUT_inventory_item item_id item_data payload w = (out, w') →
  NoDup (inv_name <$> inventory_items (store w')).
Proof.
  intros Hq Hids Hnames. unfold PUT_inventory_item. rewrite bind_eq.
  unfold require_warehouse_manager_or_admin. case_decide;
    [by intros [= <- <-]|].
  unfold ret at 1. unfold update_inventory_item, try_except.
  rewrite bind_eq, execute_quiet by (eapply quiet_le; [|done]; lia).
  cbn [select_inventory_by_id fst snd].
  destruct (filter (λ r, inv_id r = item_id) (inventory_items (store w)))
    as [|existing rows]; [by intros [= <- <-]|].
  rewrite bind_eq. unfold check_name_free.
  destruct (iiu_name item_data) as [name|] eqn:Hn.
  - rewrite bind_eq, execute_quiet
      by (simpl; apply (quiet_le 1 2); [lia|]; by apply quiet_tail).
    cbn [select_inventory_by_name_except fst snd store after_call].
    destruct (filter (λ r, inv_name r = name ∧ inv_id r ≠ item_id)
                     (inventory_items (store w))) as [|c cs] eqn:Hfree;
      [|by intros [= <- <-]].
    unfold ret at 1.
    assert (no_update item_data = false) as ->
      by (unfold no_update; by rewrite Hn).
    rewrite bind_eq, execute_quiet by (simpl; by apply quiet_tail, quiet_tail).
    cbn [update_inventory_row fst snd store after_call].
    assert (NoDup (inv_name <$>
              update_where (λ r, inv_id r = item_id)
                (apply_item_update item_data) (inventory_items (store w))))
      by (by eapply names_after_rename).
    destruct (apply_item_update item_data <$> _); by intros [= <- <-].
  - unfold ret at 1. destruct (no_update item_data); [by intros [= <- <-]|].
    rewrite bind_eq, execute_quiet
      by (simpl; apply (quiet_le 1 2); [lia|]; by apply quiet_tail).
    cbn [update_inventory_row fst snd store after_call].
    assert (NoDup (inv_name <$>
              update_where (λ r, inv_id r = item_id)
                (apply_item_update item_data) (inventory_items (store w))))
      by (by rewrite names_after_update_None).
    destruct (apply_item_update item_data <$> _); by intros [= <- <-].
Qed.

Lemma update_keeps_names_unique_witness :
  let run := PUT_inventory_item "A" (rename_to "Maple plywood") manager
               (world_of store_AB []) in
  inv_name <$> inventory_items (store run.2) =
    ["Maple plywood"; "Birch plywood"] ∧
  NoDup (inv_name <$> inventory_items (store run.2)).
Proof.
  intros run. split; [reflexivity|].
  apply (update_keeps_names_unique "A" (rename_to "Maple plywood") manager
           (world_of store_AB []) run.1 run.2).
  - apply quiet_nil.
  - by apply (bool_decide_unpack _).
  - by apply (bool_decide_unpack _).
  - reflexivity.
Defined.


(** * Further properties of the role guards *)

Lemma require_admin_cases current_user :
  (role current_user = "admin" ∧ passes require_admin current_user) ∨
  (role current_user ≠ "admin" ∧ refuses require_admin current_user).
Proof.
  unfold passes, refuses, require_admin.
  destruct (decide (role current_user ≠ "admin")) as [Hne|Heq].
  - right. split; [done|]. intros w. by eexists.
  - left. split; [|done]. by destruct (decide (role current_user = "admin")).
Qed.

Lemma require_salesperson_cases current_user :
  (role current_user = "salesperson" ∧
   passes require_salesperson current_user) ∨
  (role current_user ≠ "salesperson" ∧
   refuses require_salesperson current_user).
Proof.
  unfold passes, refuses, require_salesperson.
  destruct (decide (role current_user ≠ "salesperson")) as [Hne|Heq].
  - right. split; [done|]. intros w. by eexists.
  - left. split; [|done].
    by destruct (decide (role current_user = "salesperson")).
Qed.

Lemma require_manager_cases current_user :
  ((role current_user = "warehouse_manager" ∨ role current_user = "admin") ∧
   passes require_warehouse_manager_or_admin current_user) ∨
  (role current_user ≠ "warehouse_manager" ∧ role current_user ≠ "admin" ∧
   refuses require_warehouse_manager_or_admin current_user).
Proof.
  unfold passes, refuses, require_warehouse_manager_or_admin, allowed_roles.
  destruct (decide (role current_user ∉ ["warehouse_manager"; "admin"]))
    as [Hn|Hin].
  - right. split_and!.
    + intros Heq. apply Hn. rewrite Heq. by left.
    + intros Heq. apply Hn. rewrite Heq. right. by left.
    + intros w. by eexists.
  - left. split; [|done].
    destruct (decide (role current_user = "warehouse_manager")); [by left|].
    destruct (decide (role current_user = "admin")); [by right|].
    destruct Hin. intros Hin.
    apply elem_of_cons in Hin as [?|Hin]; [done|].
    apply elem_of_cons in Hin as [?|Hin]; [done|].
    by apply elem_of_nil in Hin.
Qed.

Lemma require_sales_cases current_user :
  ((role current_user = "salesperson" ∨ role current_user = "admin") ∧
   passes require_salesperson_or_admin current_user) ∨
  (role current_user ≠ "salesperson" ∧ role current_user ≠ "admin" ∧
   refuses require_salesperson_or_admin current_user).
Proof.
  unfold passes, refuses, require_salesperson_or_admin, sales_roles.
  destruct (decide (role current_user ∉ ["salesperson"; "admin"]))
    as [Hn|Hin].
  - right. split_and!.
    + intros Heq. apply Hn. rewrite Heq. by left.
    + intros Heq. apply Hn. rewrite Heq. right. by left.
    + intros w. by eexists.
  - left. split; [|done].
    destruct (decide (role current_user = "salesperson")); [by left|].
    destruct (decide (role current_user = "admin")); [by right|].
    destruct Hin. intros Hin.
    apply elem_of_cons in Hin as [?|Hin]; [done|].
    apply elem_of_cons in Hin as [?|Hin]; [done|].
    by apply elem_of_nil in Hin.
Qed.

Lemma passes_not_refuses guard current_user :
  passes guard current_user → refuses guard current_user → False.
Proof.
  intros Hp Hr. destruct (Hr (world_of store_A [])) as [msg Hm].
  rewrite Hp in Hm. discriminate.
Qed.

(** X14.  The role guards form a hierarchy on the exact role string: each
    guard either passes the actor through unchanged or refuses with 403,
    touching nothing either way; an admin passes every guard but the
    salesperson-only one; a salesperson passes the salesperson-or-admin
    guard; no actor passes both the salesperson-only guard of order
    creation and the guard of status transitions and inventory updates;
    and an actor with any other role is refused by all of them. *)
Theorem guard_hierarchy current_user :
  (passes require_admin current_user ∨ refuses require_admin current_user) ∧
  (passes require_salesperson_or_admin current_user ∨
   refuses require_salesperson_or_admin current_user) ∧
  (passes require_admin current_user →
   passes require_warehouse_manager_or_admin current_user ∧
   passes require_salesperson_or_admin current_user ∧
   refuses require_salesperson current_user) ∧
  (passes require_salesperson current_user →
   passes require_salesperson_or_admin current_user ∧
   refuses require_admin current_user ∧
   refuses require_warehouse_manager_or_admin current_user) ∧
  (passes require_warehouse_manager_or_admin current_user →
   refuses require_salesperson current_user) ∧
  (role current_user ∉ ["admin"; "salesperson"; "warehouse_manager"] →
   refuses require_admin current_user ∧
   refuses require_salesperson current_user ∧
   refuses require_warehouse_manager_or_admin current_user ∧
   refuses require_salesperson_or_admin current_user ∧
   passes require_authenticated_user current_user).
Proof.
  destruct (require_admin_cases current_user) as [[Ha Hpa]|[Ha Hra]];
  destruct (require_salesperson_cases current_user) as [[Hs Hps]|[Hs Hrs]];
  destruct (require_manager_cases current_user)
    as [[Hm Hpm]|(Hm1 & Hm2 & Hrm)];
  destruct (require_sales_cases current_user)
    as [[Hsa Hpsa]|(Hsa1 & Hsa2 & Hrsa)];
  try congruence; try (destruct Hm; congruence);
    try (destruct Hsa; congruence);
    (split_and!; [auto|auto|
       intros Hp; try (exfalso; by eapply passes_not_refuses); by split_and!|
       intros Hp; try (exfalso; by eapply passes_not_refuses); by split_and!|
       intros Hp; try (exfalso; by eapply passes_not_refuses); done|
       intros Hn; try (exfalso; apply Hn; rewrite ?Ha, ?Hs;
                       first [by left|right; by left]);
       try (exfalso; destruct Hm as [Hm|Hm]; apply Hn; rewrite Hm;
            first [by left|right; right; by left]);
       try (exfalso; destruct Hsa as [Hsa|Hsa]; apply Hn; rewrite Hsa;
            first [by left|right; by left]);
       by split_and!]).
Qed.

Lemma guard_hierarchy_witness :
  passes require_warehouse_manager_or_admin admin ∧
  refuses require_salesperson admin ∧
  refuses require_warehouse_manager_or_admin sales ∧
  refuses require_salesperson_or_admin
    {| user_id := "u"; role := "Admin" |}.
Proof.
  destruct (guard_hierarchy admin) as (_ & _ & Hadmin & _).
  destruct (guard_hierarchy sales) as (_ & _ & _ & Hsales & _).
  destruct (guard_hierarchy {| user_id := "u"; role := "Admin" |})
    as (_ & _ & _ & _ & _ & Hother).
  destruct Hadmin as (H1 & _ & H2); [by intros w|].
  destruct Hsales as (_ & _ & H3); [by intros w|].
  destruct Hother as (_ & _ & _ & H4 & _).
  { intros Hin. apply elem_of_cons in Hin as [?|Hin]; [done|].
    apply elem_of_cons in Hin as [?|Hin]; [done|].
    apply elem_of_cons in Hin as [?|Hin]; [done|].
    by apply elem_of_nil in Hin. }
  by split_and!.
Defined.

(** * Properties of the text utilities *)

(** X15.  The three copies of the password policy agree: the checker of
    [auth/password.py] accepts exactly the passwords the checker of
    [utils/validators.py] accepts, its message is the first of the errors
    the other lists, the validator of the registration model raises exactly
    that message, and a password is accepted exactly when it has at least
    eight characters and one character of each of the four classes. *)
Theorem password_rules_agree (unicode_decimal : N → bool) (password : text) :
  let checked := validate_password_complexity unicode_decimal password in
  let listed := validate_password_strength unicode_decimal password in
  checked.1 = listed.1 ∧
  checked.2 = head listed.2 ∧
  is_password_valid unicode_decimal password = listed.1 ∧
  UserRegister_validate_password unicode_decimal password =
    match checked.2 with Some msg => inl msg | None => inr password end ∧
  (listed.1 = true ↔ listed.2 = []) ∧
  (checked.1 = true ↔
   (8 ≤ length password)%nat ∧
   re_search upper password = true ∧
   re_search lower password = true ∧
   re_search unicode_decimal password = true ∧
   re_search special password = true).
Proof.
  unfold is_password_valid, validate_password_complexity,
    validate_password_strength, UserRegister_validate_password.
  destruct (length password <? 8)%nat eqn:Hlen;
    [apply Nat.ltb_lt in Hlen|apply Nat.ltb_ge in Hlen];
    destruct (re_search upper password),
      (re_search lower password),
      (re_search unicode_decimal password),
      (re_search special password); simpl;
    (split_and!; try done; split; try done;
     try (intros (? & ? & ? & ? & ?); first [done|lia])).
Qed.

Lemma sanitize_sql_input_cons c value :
  sanitize_sql_input (c :: value) =
  (if (c =? quote)%N then [quote; quote] else [c]) ++ sanitize_sql_input value.
Proof. done. Qed.

Lemma sanitize_sql_input_paired value :
  quotes_paired (sanitize_sql_input value).
Proof.
  induction value as [|c value IH]; [constructor|].
  rewrite sanitize_sql_input_cons.
  destruct (N.eqb_spec c quote) as [->|Hne]; simpl.
  - by constructor.
  - by constructor.
Qed.

Lemma sanitize_sql_input_inj v1 : ∀ v2,
  sanitize_sql_input v1 = sanitize_sql_input v2 → v1 = v2.
Proof.
  induction v1 as [|c1 v1 IH]; intros [|c2 v2] H.
  - done.
  - rewrite sanitize_sql_input_cons in H.
    by destruct (c2 =? quote)%N.
  - rewrite sanitize_sql_input_cons in H.
    by destruct (c1 =? quote)%N.
  - rewrite !sanitize_sql_input_cons in H.
    destruct (N.eqb_spec c1 quote) as [->|Hne1],
             (N.eqb_spec c2 quote) as [->|Hne2]; simpl in H.
    + injection H as H. f_equal. by apply IH.
    + injection H as <- H. done.
    + injection H as -> H. done.
    + injection H as -> H. f_equal. by apply IH.
Qed.

(** X16.  Escaping for SQL leaves no lone single quote (every quote of the
    result is one of a pair), keeps every other character in place, adds
    one character per quote of the input, and loses nothing: two different
    inputs never escape to the same text. *)
Theorem sql_escaping_pairs_quotes :
  (∀ value,
     quotes_paired (sanitize_sql_input value) ∧
     filter (λ c, c ≠ quote) (sanitize_sql_input value) =
       filter (λ c, c ≠ quote) value ∧
     length (sanitize_sql_input value) =
       (length value + length (filter (λ c, c = quote) value))%nat) ∧
  (∀ v1 v2, sanitize_sql_input v1 = sanitize_sql_input v2 → v1 = v2).
Proof.
  split; [|intros v1 v2; apply sanitize_sql_input_inj].
  intros value. split; [apply sanitize_sql_input_paired|].
  induction value as [|c value [IH1 IH2]]; [done|].
  rewrite sanitize_sql_input_cons.
  destruct (N.eqb_spec c quote) as [->|Hne]; cbn [app].
  - rewrite !(filter_cons_False (λ c, c ≠ quote) quote) by (by intros ?).
    rewrite (filter_cons_True (λ c, c = quote)) by done.
    split; [done|]. cbn [length]. rewrite IH2. simpl.
    by rewrite Nat.add_succ_r.
  - rewrite !(filter_cons_True (λ c, c ≠ quote) c) by done.
    rewrite (filter_cons_False (λ c, c = quote)) by done.
    split; [by f_equal|]. cbn [length]. by rewrite IH2.
Qed.

Section text_properties.
Context (unicode_decimal py_isdigit py_isspace : N → bool).

Lemma sanitize_unbounded value :
  sanitize_string_input py_isspace value None =
  match value with
  | None => []
  | Some v => filter (λ c, is_control c = false) (strip py_isspace v)
  end.
Proof. by destruct value. Qed.

(** X17.  The sanitized string never contains one of the control
    characters of the pattern; a positive [max_length] bounds its length;
    a [max_length] of 0 is taken as no bound at all; a negative one cuts
    that many characters off the end; and [None] sanitizes to the empty
    string. *)
Theorem sanitized_string_bounds value max_length :
  Forall (λ c, is_control c = false)
         (sanitize_string_input py_isspace value max_length) ∧
  (∀ m, max_length = Some m → 0 < m →
        Z.of_nat (length (sanitize_string_input py_isspace value max_length))
          ≤ m) ∧
  (max_length = Some 0 →
   sanitize_string_input py_isspace value max_length =
   sanitize_string_input py_isspace value None) ∧
  (∀ m, max_length = Some m → m < 0 →
        sanitize_string_input py_isspace value max_length =
        take (Z.to_nat
                (Z.of_nat (length (sanitize_string_input py_isspace value None))
                 + m))
             (sanitize_string_input py_isspace value None)) ∧
  sanitize_string_input py_isspace None max_length = [].
Proof.
  split_and!; [| | | |done].
  - destruct value as [v|]; [|constructor]. simpl.
    assert (Hf : Forall (λ c, is_control c = false)
                   (filter (λ c, is_control c = false) (strip py_isspace v))).
    { apply Forall_forall. intros c Hc.
      by apply list_elem_of_filter in Hc as [? _]. }
    destruct max_length as [m|]; [|done].
    destruct (negb (m =? 0) && _); [|done].
    unfold slice_to. destruct (m <? 0); by apply Forall_take.
  - intros m -> Hm. destruct value as [v|]; simpl; [|lia].
    destruct (Z.eqb_spec m 0) as [->|_]; [lia|]. simpl.
    destruct (Z.ltb_spec m (Z.of_nat (length
      (filter (λ c, is_control c = false) (strip py_isspace v)))));
      [|lia].
    unfold slice_to. destruct (Z.ltb_spec m 0); [lia|].
    rewrite length_take. lia.
  - intros ->. by destruct value.
  - intros m -> Hm. destruct value as [v|]; simpl; [|by rewrite take_nil].
    destruct (Z.eqb_spec m 0) as [->|_]; [lia|]. simpl.
    destruct (Z.ltb_spec m (Z.of_nat (length
      (filter (λ c, is_control c = false) (strip py_isspace v)))));
      [|lia].
    unfold slice_to. by destruct (Z.ltb_spec m 0); [|lia].
Qed.

Context (Hdecimal : ∀ c, unicode_decimal c = true → py_isdigit c = true).

(** X18.  A phone number is accepted exactly when it holds between 10 and
    14 decimal digits, whatever other characters stand between them:
    everything that is not a digit is dropped before the count. *)
Theorem phone_number_counts_digits phone :
  validate_phone_number unicode_decimal py_isdigit phone = true ↔
  (10 ≤ length (filter (λ c, unicode_decimal c = true) phone) ≤ 14)%nat.
Proof.
  unfold validate_phone_number. destruct phone as [|c rest].
  - split; [done|]. intros [Hlo _]. simpl in Hlo. lia.
  - cbv zeta. unfold isdigit.
    match goal with
    | |- context [forallb py_isdigit ?d] => set (digits := d)
    end.
    assert (Hall : forallb py_isdigit digits = true).
    { apply forallb_forall. intros d Hd. apply Hdecimal.
      apply list_elem_of_In in Hd. unfold digits in Hd.
      by apply list_elem_of_filter in Hd as [? _]. }
    clearbody digits.
    rewrite !andb_true_iff, Nat.leb_le, Nat.leb_le. split.
    + intros [[? ?] _]. lia.
    + intros [? ?]. split; [done|]. by destruct digits; [simpl in *; lia|].
Qed.
End text_properties.

Lemma sanitized_string_bounds_witness :
  sanitize_string_input ascii_space (Some (text_of " ab cd  ")) (Some 3) =
    text_of "ab " ∧
  sanitize_string_input ascii_space (Some (text_of " ab cd  ")) (Some 0) =
    text_of "ab cd".
Proof.
  destruct (sanitized_string_bounds ascii_space
              (Some (text_of " ab cd  ")) (Some 3)) as (_ & H & _).
  destruct (sanitized_string_bounds ascii_space
              (Some (text_of " ab cd  ")) (Some 0)) as (_ & _ & H0 & _).
  specialize (H 3 eq_refl ltac:(lia)). specialize (H0 eq_refl).
  split; [reflexivity|]. rewrite H0. reflexivity.
Defined.

Lemma phone_number_counts_digits_witness :
  validate_phone_number ascii_digit ascii_digit
    (text_of "+1 (555) 123-4567") = true.
Proof.
  apply (phone_number_counts_digits ascii_digit ascii_digit).
  - done.
  - split; apply Nat.leb_le; reflexivity.
Defined.

Lemma sql_escaping_pairs_quotes_witness :
  sanitize_sql_input (text_of "O'Brien") = text_of "O''Brien" ∧
  quotes_paired (sanitize_sql_input (text_of "O'Brien")) ∧
  text_of "it's" ≠ text_of "its".
Proof.
  destruct sql_escaping_pairs_quotes as [H Hinj].
  split; [reflexivity|]. split; [apply H|].
  intros Heq. discriminate (f_equal sanitize_sql_input Heq).
Defined.

(** ** Stock after a creation, whatever the lines *)

Lemma commit_store_threshold order_id cached st items id :
  inv_low_stock_threshold <$>
    store_row (foldl (commit_store order_id cached) st items) id =
  inv_low_stock_threshold <$> store_row st id.
Proof.
  revert st. induction items as [|x items IH]; intros st; [done|].
  simpl. rewrite IH, store_row_commit_store.
  destruct (cached !! _); [|done]. case_decide; [|done].
  by destruct (store_row st id).
Qed.

Lemma last_line_present items id :
  id ∈ oic_item_id <$> items → is_Some (last_line id items).
Proof.
  intros (oi & -> & Hin)%list_elem_of_fmap. unfold last_line.
  destruct (filter _ items) as [|y ys] eqn:E using rev_ind.
  - assert (oi ∈ filter (λ o, oic_item_id o = oic_item_id oi) items)
      as Hf by (by apply list_elem_of_filter).
    rewrite E in Hf. by apply elem_of_nil in Hf.
  - rewrite last_snoc. by eexists.
Qed.

(** X19.  A successful creation only ever lowers stock: with every
    quantity positive, as the request model demands, each item of the
    store holds afterwards at most what it held, strictly less when a line
    names it and exactly as much when none does, whether or not lines
    repeat an item; and an item that counted as low on stock before still
    does. *)
Theorem creation_only_lowers_stock order_data payload w resp w' id r :
  POST_orders order_data payload w = (Return resp, w') →
  Forall (λ order_item, 0 < oic_quantity order_item) (oc_items order_data) →
  store_row (store w) id = Some r →
  ∃ r', store_row (store w') id = Some r' ∧
    inv_stock_level r' ≤ inv_stock_level r ∧
    (id ∈ oic_item_id <$> oc_items order_data →
       inv_stock_level r' < inv_stock_level r) ∧
    (id ∉ oic_item_id <$> oc_items order_data →
       inv_stock_level r' = inv_stock_level r) ∧
    (is_low_stock (inventory_response r) = true →
       is_low_stock (inventory_response r') = true).
Proof.
  intros H Hpos Hr. apply POST_orders_success in H.
  pose proof (create_order_return _ _ _ _ _ H) as [Hv _].
  apply create_order_success in H as [_ ->].
  pose proof (created_store_stock order_data payload _ _ _ Hv Hr) as Hs.
  pose proof (commit_store_threshold (fresh (used_ids (store w)))
                (cache_of (store w) (oc_items order_data) ∅)
                (store_with_header order_data payload (store w))
                (oc_items order_data) id) as Ht.
  change (store_row (store_with_header order_data payload (store w)) id)
    with (store_row (store w) id) in Ht.
  fold (created_store order_data payload (store w)) in Ht.
  cbn [after_calls store]. unfold stock_of in Hs. rewrite Hr in Ht.
  destruct (store_row (created_store order_data payload (store w)) id)
    as [r'|]; [|done].
  simpl in Hs, Ht. simplify_eq. exists r'.
  assert (Hlevel : inv_stock_level r' ≤ inv_stock_level r ∧
            (id ∈ oic_item_id <$> oc_items order_data →
               inv_stock_level r' < inv_stock_level r) ∧
            (id ∉ oic_item_id <$> oc_items order_data →
               inv_stock_level r' = inv_stock_level r)).
  { destruct (last_line id (oc_items order_data)) as [oi|] eqn:Hl.
    - pose proof Hl as [Hin Hid]%last_line_elem.
      rewrite Forall_forall in Hpos. specialize (Hpos _ Hin).
      split_and!; [lia|lia|].
      intros Hn. destruct Hn. subst id. apply list_elem_of_fmap. by exists oi.
    - split_and!; [lia| |done].
      intros Hin%last_line_present. rewrite Hl in Hin. by destruct Hin. }
  destruct Hlevel as (Hle & Hlt & Heq). split_and!; [done..|].
  unfold is_low_stock, inventory_response. cbn.
  rewrite !bool_decide_eq_true. lia.
Qed.


(** ** Handlers over the other collections *)

Section handler_facts.
Context {S Q : Type}.
Implicit Types d : Db S Q.

Lemma h_bind_eq {A B} (m : Handler S Q A) (k : A → Handler S Q B) d :
  h_bind m k d =
  match m d with
  | (Return a, d') => k a d'
  | (RaiseHTTP e, d') => (RaiseHTTP e, d')
  | (RaiseException, d') => (RaiseException, d')
  end.
Proof. done. Qed.

Lemma h_execute_quiet {A} (q : Q) (run : S → list A * S) d :
  quiet 1 (db_faults d) →
  h_execute q run d =
  (Return (run (db_store d)).1, db_after q (run (db_store d)).2 d).
Proof.
  rewrite quiet_S. unfold h_execute.
  intros [->|(fs' & -> & _)]; done.
Qed.

(** Whatever the store does, a call leaves it as [run] would or untouched. *)
Lemma h_execute_inv {A} (q : Q) (run : S → list A * S) d out d' :
  h_execute q run d = (out, d') →
  db_faults d' = tail (db_faults d) ∧ db_calls d' = db_calls d ++ [q] ∧
  ((out = RaiseException ∧ db_store d' = db_store d ∧
    ¬ quiet 1 (db_faults d)) ∨
   (out = Return [] ∧ db_store d' = db_store d ∧ ¬ quiet 1 (db_faults d)) ∨
   (out = Return (run (db_store d)).1 ∧ db_store d' = (run (db_store d)).2 ∧
    quiet 1 (db_faults d))).
Proof.
  unfold h_execute. intros H.
  destruct (db_faults d) as [|[] fs] eqn:Hf; simpl in H; simplify_eq; simpl;
    rewrite ?Hf; (split; [done|split; [done|]]).
  - right; right. split_and!; [done..|apply quiet_nil].
  - right; right. split_and!; [done..|]. apply quiet_S. right. eexists.
    split; [done|apply quiet_0].
  - right; left. split_and!; [done..|]. rewrite quiet_S.
    by intros [?|(? & ? & _)].
  - left. split_and!; [done..|]. rewrite quiet_S.
    by intros [?|(? & ? & _)].
Qed.

Lemma h_try_inv {A} (body : Handler S Q A) msg d out d' :
  h_try body msg d = (out, d') →
  ∃ out0, body d = (out0, d') ∧
    (out = out0 ∨
     (out0 = RaiseException ∧ out = RaiseHTTP (internal_error msg))).
Proof.
  unfold h_try. destruct (body d) as [[a|e|] d1]; intros; simplify_eq;
    eexists; eauto.
Qed.

Lemma h_try_return {A} (body : Handler S Q A) msg d a d' :
  h_try body msg d = (Return a, d') → body d = (Return a, d').
Proof.
  unfold h_try. by destruct (body d) as [[a'|e|] d1]; intros; simplify_eq.
Qed.

Lemma h_try_all_inv {A} (body : Handler S Q A) msg d out d' :
  h_try_all body msg d = (out, d') →
  ∃ out0, body d = (out0, d') ∧ ∀ a, out = Return a → out0 = Return a.
Proof.
  unfold h_try_all. destruct (body d) as [[a|e|] d1]; intros; simplify_eq;
    eexists; split; try done.
Qed.

Lemma h_built_inv {A} (o : option A) d out d' :
  h_built o d = (out, d') →
  d' = d ∧ ∀ a, out = Return a → o = Some a.
Proof.
  unfold h_built, h_ret, h_raise_exception.
  destruct o; intros H; simplify_eq; (split; [done|]).
  - by intros ? [= <-].
  - done.
Qed.

Lemma h_require_admin_inv (payload : Actor) d out d' :
  h_require_admin payload d = (out, d') →
  d' = d ∧ ∀ a, out = Return a → a = payload ∧ role payload = "admin".
Proof.
  unfold h_require_admin, h_raise, h_ret.
  case_decide as Hr; intros H; simplify_eq;
    (split; [done|]).
  - done.
  - intros a [= <-]. split; [done|].
    destruct (decide (role payload = "admin")); [done|by destruct Hr].
Qed.
End handler_facts.

Ltac h_call H E :=
  rewrite h_bind_eq in H;
  match type of H with
  | context [h_execute ?q ?run ?d] =>
      let o := fresh "o" in
      let d1 := fresh "d" in
      destruct (h_execute q run d) as [o d1] eqn:E;
      apply h_execute_inv in E
  end.

Lemma filter_key_nil {A B} `{EqDecision B} (f : A → B) (b : B) (l : list A) :
  filter (λ x, f x = b) l = [] ↔ b ∉ f <$> l.
Proof.
  split.
  - intros Hnil (x & -> & Hin)%list_elem_of_fmap.
    assert (x ∈ filter (λ y, f y = f x) l) as Hx
      by (by apply list_elem_of_filter).
    rewrite Hnil in Hx. by apply elem_of_nil in Hx.
  - intros Hn. destruct (filter _ l) as [|x xs] eqn:E; [done|].
    assert (x ∈ filter (λ y, f y = b) l) as [Hb Hin]%list_elem_of_filter
      by (rewrite E; by left).
    destruct Hn. apply list_elem_of_fmap. by exists x.
Qed.

Lemma filter_key_unique {A B} `{EqDecision B} (f : A → B) (x : A)
    (l : list A) :
  NoDup (f <$> l) → x ∈ l → filter (λ y, f y = f x) l = [x].
Proof.
  induction l as [|y l IH]; intros Hnd Hin; [by apply elem_of_nil in Hin|].
  rewrite fmap_cons in Hnd. apply NoDup_cons in Hnd as [Hy Hnd].
  rewrite filter_cons. apply elem_of_cons in Hin as [->|Hin].
  - rewrite decide_True by done. f_equal. by apply filter_key_nil.
  - rewrite decide_False; [by apply IH|].
    intros Heq. destruct Hy. rewrite Heq. apply list_elem_of_fmap. by exists x.
Qed.

(** *** Invitations *)

Lemma POST_users_invite_inv user_data payload d out d' :
  POST_users_invite user_data payload d = (out, d') →
  db_store d' = db_store d ∨
  (role payload = "admin" ∧
   role_value (uc_role user_data) ∈ invitable_roles ∧
   (quiet 1 (db_faults d) → uc_email user_data ∉ user_emails (db_store d)) ∧
   db_store d' =
     (insert_user (uc_email user_data) (role_value (uc_role user_data))
                  "invited" (db_store d)).2).
Proof.
  unfold POST_users_invite. rewrite h_bind_eq.
  destruct (h_require_admin payload d) as [guard d0] eqn:G.
  apply h_require_admin_inv in G as [-> G].
  destruct guard as [current_user|e|]; intros H; simplify_eq; auto.
  destruct (G _ eq_refl) as [-> Hadmin].
  apply h_try_inv in H as (out0 & H & _). h_call H E1.
  destruct E1 as (_ & _ & Hcase1).
  assert (Hd : db_store d0 = db_store d)
    by (destruct Hcase1 as [(_ & ? & _)|[(_ & ? & _)|(_ & ? & _)]]; done).
  destruct o as [existing|e|]; simplify_eq; auto.
  destruct existing; [|unfold h_raise in H; simplify_eq; auto].
  case_decide as Hrole; [unfold h_raise in H; simplify_eq; auto|].
  h_call H E2.
  destruct E2 as (_ & _ & [(-> & Hs & _)|[(-> & Hs & _)|(-> & Hs & _)]]);
    [unfold h_raise in H; simplify_eq; left; congruence..|].
  assert (db_store d' = db_store d1) as ->.
  { cbn [insert_user fst] in H. by apply h_built_inv in H as [-> _]. }
  right. rewrite Hs, Hd. split_and!; [done..| |done].
  intros Hq. destruct Hcase1 as [(? & _)|[(_ & _ & ?)|(Hsel & _ & _)]];
    [done..|].
  apply filter_key_nil. cbn in Hsel. by simplify_eq.
Qed.

(** X20.  An invitation never grants the admin role and never sets a
    password: whoever asks, whatever is asked and however the store
    answers, the collection of users is afterwards either what it was or
    what it was followed by one row, with an identifier no user had, for
    the e-mail address given, in status invited, with the role of a
    salesperson or warehouse manager and no password hash; and only an
    admin can cause the latter. *)
Theorem invitation_never_grants_admin user_data payload d out d' :
  POST_users_invite user_data payload d = (out, d') →
  db_store d' = db_store d ∨
  (role payload = "admin" ∧
   ∃ u, db_store d' = db_store d ++ [u] ∧
        invitation_for (uc_email user_data) u ∧
        usr_id u ∉ user_ids (db_store d)).
Proof.
  intros [?|(Ha & Hrole & _ & ->)]%POST_users_invite_inv; [by left|right].
  split; [done|]. eexists. split; [done|]. split.
  - by unfold invitation_for.
  - apply infinite_is_fresh.
Qed.

(** X21.  Invitations keep users apart: identifiers stay pairwise distinct
    whatever happens, and so do e-mail addresses as long as the store
    answers the look-up of the address. *)
Theorem invitation_keeps_users_distinct user_data payload d out d' :
  POST_users_invite user_data payload d = (out, d') →
  (NoDup (user_ids (db_store d)) → NoDup (user_ids (db_store d'))) ∧
  (quiet 1 (db_faults d) →
   NoDup (user_emails (db_store d)) → NoDup (user_emails (db_store d'))).
Proof.
  intros [->|(_ & _ & Hfree & ->)]%POST_users_invite_inv; [done|].
  unfold user_ids, user_emails in *. cbn [insert_user snd].
  rewrite !fmap_app. split.
  - intros Hnd. apply NoDup_app. split_and!; [done| |apply NoDup_singleton].
    intros x Hx ->%list_elem_of_singleton. revert Hx. apply infinite_is_fresh.
  - intros Hq Hnd. apply NoDup_app. split_and!; [done| |apply NoDup_singleton].
    intros x Hx ->%list_elem_of_singleton. by apply Hfree.
Qed.

(** *** Deleting and listing *)

Lemma DELETE_user_inv id payload d out d' :
  DELETE_user id payload d = (out, d') →
  (db_store d' = db_store d ∧ ∀ m, out ≠ Return m) ∨
  (role payload = "admin" ∧ id ≠ user_id payload ∧
   id ∈ user_ids (db_store d) ∧ out = Return "User deleted successfully" ∧
   db_store d' = filter (λ u, usr_id u ≠ id) (db_store d)).
Proof.
  unfold DELETE_user. rewrite h_bind_eq.
  destruct (h_require_admin payload d) as [guard d0] eqn:G.
  apply h_require_admin_inv in G as [-> G].
  destruct guard as [current_user|e|]; intros H; simplify_eq;
    [|by left..].
  destruct (G _ eq_refl) as [-> Hadmin].
  apply h_try_inv in H as (out0 & H & Hout). h_call H E1.
  destruct E1 as (_ & _ & [(-> & Hs & _)|[(-> & Hs & _)|(-> & Hs & _)]]).
  - simplify_eq. left. by destruct Hout as [->|[_ ->]].
  - unfold h_raise in H. simplify_eq. left.
    split; [done|]. by destruct Hout as [->|[? _]].
  - cbn [select_user_by_id fst snd] in *.
    destruct (filter _ (db_store d)) as [|u us] eqn:Hsel.
    { unfold h_raise in H. simplify_eq. left.
      split; [done|]. by destruct Hout as [->|[? _]]. }
    case_decide as Hself.
    { unfold h_raise in H. simplify_eq. left.
      split; [done|]. by destruct Hout as [->|[? _]]. }
    h_call H E2.
    destruct E2 as (_ & _ & [(-> & Hs2 & _)|[(-> & Hs2 & _)|(-> & Hs2 & _)]]).
    + simplify_eq. left. split; [congruence|].
      by destruct Hout as [->|[_ ->]].
    + unfold h_raise in H. simplify_eq. left. split; [congruence|].
      by destruct Hout as [->|[? _]].
    + cbn [delete_user_rows fst snd] in *. rewrite Hs, Hsel in H.
      unfold h_ret in H. simplify_eq. right.
      destruct Hout as [->|[? _]]; [|done].
      split_and!; [done..| |done|congruence].
      assert (u ∈ filter (λ u, usr_id u = id) (db_store d))
        as [Hu Hin]%list_elem_of_filter by (rewrite Hsel; by left).
      apply list_elem_of_fmap. by exists u.
Qed.

Lemma filter_filter_id (id keep : string) (us : list UserRow) :
  id ≠ keep →
  filter (λ u, usr_id u = keep) (filter (λ u, usr_id u ≠ id) us) =
  filter (λ u, usr_id u = keep) us.
Proof.
  intros Hne. induction us as [|u us IH]; [done|].
  rewrite filter_cons. case_decide as Hu.
  - rewrite !filter_cons. case_decide; by rewrite IH.
  - rewrite filter_cons, decide_False by congruence. done.
Qed.

(** X22.  Deleting a user spares everyone else, the actor included:
    whoever asks and however the store answers, the users with any other
    identifier than the one named are afterwards exactly those before, in
    the same order, the rows of the acting user are all still there, and
    a caller who is not an admin changes nothing. *)
Theorem deletion_spares_the_actor id payload d out d' :
  DELETE_user id payload d = (out, d') →
  filter (λ u, usr_id u ≠ id) (db_store d') =
    filter (λ u, usr_id u ≠ id) (db_store d) ∧
  filter (λ u, usr_id u = user_id payload) (db_store d') =
    filter (λ u, usr_id u = user_id payload) (db_store d) ∧
  (role payload ≠ "admin" → db_store d' = db_store d).
Proof.
  intros [[-> _]|(Ha & Hne & _ & _ & ->)]%DELETE_user_inv; [done|].
  split_and!.
  - apply filter_all, Forall_forall. by intros u [? _]%list_elem_of_filter.
  - by apply filter_filter_id.
  - done.
Qed.

Lemma user_responses_ids rows l :
  user_responses rows = Some l → ur_id <$> l = usr_id <$> rows.
Proof.
  unfold user_responses. rewrite mapM_Some.
  induction 1 as [|u r rows l Hu _ IH]; [done|].
  rewrite !fmap_cons, IH. f_equal. unfold user_response in Hu.
  destruct (to_role (usr_role u)); [|done].
  destruct (to_user_status (usr_status u)); [|done]. by simplify_eq.
Qed.

Lemma GET_users_inv reader d out d' :
  GET_users reader d = (out, d') →
  db_store d' = db_store d ∧
  ∀ l, out = Return l →
    role reader = "admin" ∧
    ∃ rows, user_responses rows = Some l ∧
      (rows = [] ∨
       rows = filter (λ u, usr_status u ∈ ["invited"; "active"]) (db_store d)).
Proof.
  unfold GET_users. rewrite h_bind_eq.
  destruct (h_require_admin reader d) as [guard d0] eqn:G.
  apply h_require_admin_inv in G as [-> G].
  destruct guard as [current_user|e|]; intros H; simplify_eq;
    [|by split..].
  destruct (G _ eq_refl) as [-> Hadmin].
  apply h_try_all_inv in H as (out0 & H & Hout). h_call H E1.
  destruct E1 as (_ & _ & Hcase).
  destruct o as [rows|e|]; simplify_eq;
    [|split; [by destruct Hcase as [(_ & ? & _)|[(_ & ? & _)|(_ & ? & _)]]|
              intros l ->; by specialize (Hout _ eq_refl)]..].
  apply h_built_inv in H as [-> Hb]. split.
  - by destruct Hcase as [(_ & ? & _)|[(_ & ? & _)|(_ & ? & _)]].
  - intros l ->. split; [done|]. exists rows. split; [exact (Hb _ (Hout _ eq_refl))|].
    destruct Hcase as [(? & _)|[(? & _)|(? & _)]]; simplify_eq; auto.
Qed.

(** X23.  A deleted user is gone: once a deletion has answered with
    success, no user carries the identifier any more, and no listing read
    from that collection of users shows it, however the store answers the
    listing. *)
Theorem deleted_user_is_gone id payload d m d' :
  DELETE_user id payload d = (Return m, d') →
  (id ∉ user_ids (db_store d')) ∧
  ∀ reader d1 l d2,
    db_store d1 = db_store d' →
    GET_users reader d1 = (Return l, d2) →
    id ∉ (ur_id <$> l).
Proof.
  intros [[_ Hn]|(_ & _ & _ & _ & Hs)]%DELETE_user_inv; [by destruct (Hn m)|].
  assert (Hgone : id ∉ user_ids (db_store d')).
  { rewrite Hs. unfold user_ids.
    intros (u & -> & [Hu _]%list_elem_of_filter)%list_elem_of_fmap. done. }
  split; [done|]. intros reader d1 l d2 Hd1 Hl.
  apply GET_users_inv in Hl as [_ Hl].
  destruct (Hl _ eq_refl) as (_ & rows & Hrows & Hcase).
  rewrite (user_responses_ids _ _ Hrows).
  destruct Hcase as [->| ->]; [apply not_elem_of_nil|].
  intros (u & -> & [_ Hu]%list_elem_of_filter)%list_elem_of_fmap.
  apply Hgone. rewrite <- Hd1. apply list_elem_of_fmap. by exists u.
Qed.

(** *** Registration and login *)

Lemma to_role_value r : to_role (role_value r) = Some r.
Proof. by destruct r. Qed.

Lemma to_role_Some v r : to_role v = Some r → role_value r = v.
Proof.
  unfold to_role. repeat case_decide; intros; by simplify_eq.
Qed.

Lemma update_where_app {A} (P : A → Prop) `{∀ x, Decision (P x)}
    (f : A → A) (l k : list A) :
  update_where P f (l ++ k) = update_where P f l ++ update_where P f k.
Proof. unfold update_where. apply fmap_app. Qed.

Lemma update_where_key_absent {A B} `{EqDecision B} (key : A → B) (b : B)
    (f : A → A) (l : list A) :
  filter (λ x, key x = b) l = [] →
  update_where (λ x, key x = b) f l = l.
Proof.
  intros Hn%filter_key_nil. unfold update_where.
  rewrite <- (list_fmap_id l) at 2.
  apply list_fmap_ext. intros i x Hx. simpl. case_decide as Hk; [|done].
  destruct Hn. apply list_elem_of_fmap. exists x. split; [done|].
  by apply list_elem_of_lookup_2 in Hx.
Qed.

Section authentication_facts.
Context (verify_password : string → string → bool).
Context (hash_password : string → option string).
Context (create_access_token : string → string → option string).

Lemma register_inv registration_data d out d' :
  register hash_password registration_data d = (out, d') →
  db_store d' = db_store d ∨
  ∃ u h, u ∈ db_store d ∧ usr_email u = reg_email registration_data ∧
       usr_status u = "invited" ∧
       hash_password (reg_password registration_data) = Some h ∧
       db_store d' =
         update_where (λ v, usr_id v = usr_id u)
           (registered registration_data h) (db_store d).
Proof.
  unfold register. intros H.
  apply h_try_inv in H as (out0 & H & _). h_call H E1.
  destruct E1 as (_ & _ & [(-> & Hs & _)|[(-> & Hs & _)|(-> & Hs & _)]]).
  - simplify_eq. by left.
  - unfold h_raise in H. simplify_eq. by left.
  - cbn [select_user_by_email fst snd] in *.
    destruct (filter _ (db_store d)) as [|u us] eqn:Hsel.
    { unfold h_raise in H. simplify_eq. by left. }
    assert (u ∈ filter (λ u, usr_email u = reg_email registration_data)
                       (db_store d))
      as [Hu Hin]%list_elem_of_filter by (rewrite Hsel; by left).
    case_decide as Hst.
    { case_decide; unfold h_raise in H; simplify_eq; by left. }
    rewrite h_bind_eq in H.
    destruct (h_built (hash_password _) d0) as [o1 d1] eqn:B.
    apply h_built_inv in B as [-> B].
    destruct o1 as [h|e|]; [|simplify_eq; by left..].
    specialize (B _ eq_refl). h_call H E2.
    destruct E2 as (_ & _ & [(-> & Hs2 & _)|[(-> & Hs2 & _)|(-> & Hs2 & _)]]).
    + simplify_eq. left. congruence.
    + unfold h_raise in H. simplify_eq. left. congruence.
    + right. exists u, h. split_and!; [done..|].
      cbn [update_user fst snd] in *.
      assert (db_store d' = db_store d1) as ->; [|congruence].
      destruct (_ <$> _); [unfold h_raise in H; by simplify_eq|].
      by apply h_built_inv in H as [-> _].
Qed.

(** X24.  Registration completes invitations only.  With pairwise
    distinct identifiers, whatever is submitted and however the store
    answers, every user row is afterwards in place with the identifier,
    e-mail address and role it had, and is either untouched or was the
    invitation for the address given and now carries the submitted
    details: no account that is already active, and no password hash once
    set, is ever overwritten, and nobody chooses their own role. *)
Theorem registration_completes_invitations_only registration_data d out d' :
  register hash_password registration_data d = (out, d') →
  NoDup (user_ids (db_store d)) →
  Forall2 (λ u u',
      usr_id u' = usr_id u ∧ usr_email u' = usr_email u ∧
      usr_role u' = usr_role u ∧
      registration_step registration_data
        (hash_password (reg_password registration_data)) u u')
    (db_store d) (db_store d').
Proof.
  intros [->|(u & h & Hin & Hemail & Hst & Hh & ->)]%register_inv Hnd.
  - apply Forall_Forall2_diag, Forall_true. intros u.
    split_and!; [done..|by left].
  - unfold update_where. apply Forall2_fmap_r, Forall_Forall2_diag.
    apply Forall_forall. intros v Hv. unfold compose.
    case_decide as Hid.
    + assert (v = u) as ->.
      { pose proof (filter_key_unique usr_id u _ Hnd Hin) as Hf.
        assert (v ∈ filter (λ y, usr_id y = usr_id u) (db_store d)) as Hvf
          by (by apply list_elem_of_filter).
        rewrite Hf in Hvf. by apply list_elem_of_singleton in Hvf. }
      split_and!; [done..|]. right. split_and!; [done..|]. by exists h.
    + split_and!; [done..|by left].
Qed.

(** X25.  Login is read-only and succeeds only against an active account
    whose stored hash verifies the password: however the store answers,
    the users are afterwards what they were, and a login that returns a
    response found a user with the e-mail address given, in status active,
    whose non-empty password hash [verify_password] accepts, and answers
    with a bearer token made for that user's identifier and role and with
    that user's details. *)
Theorem login_needs_active_verified_account login_data d out d' :
  login verify_password create_access_token login_data d = (out, d') →
  db_store d' = db_store d ∧
  ∀ resp, out = Return resp →
    ∃ u h, u ∈ db_store d ∧ usr_email u = lr_email login_data ∧
      usr_status u = "active" ∧ usr_password_hash u = Some h ∧ h ≠ "" ∧
      verify_password (lr_password login_data) h = true ∧
      create_access_token (usr_id u) (usr_role u) =
        Some (lg_access_token resp) ∧
      lg_token_type resp = "bearer" ∧
      user_response u = Some (lg_user resp).
Proof.
  unfold login. intros H.
  apply h_try_inv in H as (out0 & H & Hout). h_call H E1.
  destruct E1 as (_ & _ & [(-> & Hs & _)|[(-> & Hs & _)|(-> & Hs & _)]]).
  - simplify_eq. split; [done|]. intros resp ->.
    by destruct Hout as [?|[_ ?]].
  - unfold h_raise in H. simplify_eq. split; [done|]. intros resp ->.
    by destruct Hout as [?|[? _]].
  - cbn [select_user_by_email fst snd] in *.
    destruct (filter _ (db_store d)) as [|u us] eqn:Hsel.
    { unfold h_raise in H. simplify_eq. split; [done|]. intros resp ->.
      by destruct Hout as [?|[? _]]. }
    assert (u ∈ filter (λ u, usr_email u = lr_email login_data) (db_store d))
      as [Hu Hin]%list_elem_of_filter by (rewrite Hsel; by left).
    case_decide as Hst.
    { unfold h_raise in H. simplify_eq. split; [done|]. intros resp ->.
      by destruct Hout as [?|[? _]]. }
    destruct (has_hash u) eqn:Hh; cbn [negb] in H;
      [|unfold h_raise in H; simplify_eq; split; [done|]; intros resp ->;
        by destruct Hout as [?|[? _]]].
    unfold has_hash in Hh. destruct (usr_password_hash u) as [h|] eqn:Hp;
      [|done].
    apply negb_true_iff, bool_decide_eq_false in Hh. cbn [default from_option id] in H.
    destruct (verify_password (lr_password login_data) h) eqn:Hv;
      cbn [negb] in H;
      [|unfold h_raise in H; simplify_eq; split; [done|]; intros resp ->;
        by destruct Hout as [?|[? _]]].
    rewrite h_bind_eq in H.
    destruct (h_built (create_access_token _ _) d0) as [o2 d2] eqn:B1.
    apply h_built_inv in B1 as [-> B1].
    destruct o2 as [token|e|];
      [|simplify_eq; split; [done|]; intros resp ->;
        by destruct Hout as [?|[_ ?]]..].
    rewrite h_bind_eq in H.
    destruct (h_built (user_response u) d0) as [o3 d3] eqn:B2.
    apply h_built_inv in B2 as [-> B2].
    destruct o3 as [ur|e|];
      [|simplify_eq; split; [done|]; intros resp ->;
        by destruct Hout as [?|[_ ?]]..].
    unfold h_ret in H. simplify_eq. split; [done|]. intros resp ->.
    destruct Hout as [Hout|[? _]]; [|done]. simplify_eq.
    exists u, h. split_and!; try done.
    + by apply B1.
    + by apply B2.
Qed.

Lemma login_quiet login_data d u us h token r :
  quiet 1 (db_faults d) →
  filter (λ v, usr_email v = lr_email login_data) (db_store d) = u :: us →
  usr_status u = "active" →
  usr_password_hash u = Some h → h ≠ "" →
  verify_password (lr_password login_data) h = true →
  create_access_token (usr_id u) (usr_role u) = Some token →
  user_response u = Some r →
  login verify_password create_access_token login_data d =
  (Return {| lg_access_token := token; lg_token_type := "bearer";
             lg_user := r |},
   db_after (SelectUserByEmail (lr_email login_data)) (db_store d) d).
Proof.
  intros Hq Hsel Hst Hp Hh Hv Ht Hr. unfold login, h_try.
  rewrite h_bind_eq, h_execute_quiet by done.
  cbn [select_user_by_email fst snd]. rewrite Hsel.
  rewrite decide_False by (by intros []).
  unfold has_hash. rewrite Hp. rewrite bool_decide_eq_false_2 by done.
  cbn [negb default from_option id]. rewrite Hv. cbn [negb].
  rewrite h_bind_eq, Ht. cbn [h_built]. unfold h_ret at 1.
  rewrite h_bind_eq, Hr. cbn [h_built]. by unfold h_ret.
Qed.

Lemma login_not_active login_data d u us :
  quiet 1 (db_faults d) →
  filter (λ v, usr_email v = lr_email login_data) (db_store d) = u :: us →
  usr_status u ≠ "active" →
  login verify_password create_access_token login_data d =
  (RaiseHTTP {| status_code := 401;
                detail := Text "Account is not active. Please complete registration first." |},
   db_after (SelectUserByEmail (lr_email login_data)) (db_store d) d).
Proof.
  intros Hq Hsel Hst. unfold login, h_try.
  rewrite h_bind_eq, h_execute_quiet by done.
  cbn [select_user_by_email fst snd]. rewrite Hsel.
  by rewrite decide_True by done.
Qed.

Lemma register_quiet registration_data d u r hash :
  quiet 2 (db_faults d) →
  filter (λ v, usr_email v = reg_email registration_data) (db_store d) = [u] →
  filter (λ v, usr_id v = usr_id u) (db_store d) = [u] →
  usr_status u = "invited" →
  to_role (usr_role u) = Some r →
  hash_password (reg_password registration_data) = Some hash →
  register hash_password registration_data d =
  (Return {| ur_id := usr_id u; ur_email := usr_email u;
             ur_first_name := Some (reg_first_name registration_data);
             ur_last_name := Some (reg_last_name registration_data);
             ur_phone_number := Some (reg_phone_number registration_data);
             ur_emergency_contact_number :=
               Some (reg_emergency_contact_number registration_data);
             ur_role := r; ur_status := ACTIVE |},
   {| db_store := update_where (λ v, usr_id v = usr_id u)
                    (registered registration_data hash) (db_store d);
      db_faults := tail (tail (db_faults d));
      db_calls := (db_calls d ++
                   [SelectUserByEmail (reg_email registration_data)]) ++
                  [UpdateUser (usr_id u) registration_data hash] |}).
Proof.
  intros Hq Hsel Hid Hst Hr Hh. unfold register, h_try.
  rewrite h_bind_eq, h_execute_quiet by (by eapply quiet_le; [|done]; lia).
  cbn [select_user_by_email fst snd]. rewrite Hsel.
  rewrite decide_False by (by intros []).
  rewrite h_bind_eq, Hh. cbn [h_built]. unfold h_ret at 1.
  rewrite h_bind_eq, h_execute_quiet by (by apply quiet_tail).
  unfold db_after. cbn [update_user fst snd db_store db_faults db_calls].
  rewrite Hid. cbn [fmap list_fmap].
  unfold user_response, registered. cbn [usr_role usr_status]. rewrite Hr.
  done.
Qed.

Lemma register_hash_refused registration_data d u us :
  quiet 1 (db_faults d) →
  filter (λ v, usr_email v = reg_email registration_data) (db_store d) =
    u :: us →
  usr_status u = "invited" →
  hash_password (reg_password registration_data) = None →
  register hash_password registration_data d =
  (RaiseHTTP (internal_error "Internal server error during registration"),
   db_after (SelectUserByEmail (reg_email registration_data)) (db_store d) d).
Proof.
  intros Hq Hsel Hst Hh. unfold register, h_try.
  rewrite h_bind_eq, h_execute_quiet by done.
  cbn [select_user_by_email fst snd]. rewrite Hsel.
  rewrite decide_False by (by intros []).
  by rewrite h_bind_eq, Hh.
Qed.

(** X26.  Invitation, registration and login fit together.  When an admin
    invites an address no user has, for a role other than admin, and the
    store answers, the invitation succeeds; until the invitation is
    completed a login for the address is refused with 401.  A registration
    for the address then depends on [hash_password]: when it raises on the
    password, the registration answers 500 and writes nothing; when it
    makes a hash, the registration succeeds and activates the very user
    invited, with the role of the invitation, and a login with the
    registered password returns a bearer token made for that user and
    role, provided [verify_password] accepts that hash, which is not
    empty, and [create_access_token] makes the token. *)
Theorem invited_user_registers_and_logs_in user_data payload
    registration_data d :
  let password := reg_password registration_data in
  let login_data := {| lr_email := uc_email user_data;
                       lr_password := password |} in
  let id := fresh (user_ids (db_store d)) in
  role payload = "admin" →
  quiet 5 (db_faults d) →
  uc_email user_data ∉ user_emails (db_store d) →
  uc_role user_data ≠ ADMIN →
  reg_email registration_data = uc_email user_data →
  ∃ invited d1,
    POST_users_invite user_data payload d = (Return invited, d1) ∧
    ur_id invited = id ∧ ur_status invited = INVITED ∧
    (login verify_password create_access_token login_data d1).1 =
      RaiseHTTP {| status_code := 401;
                   detail := Text "Account is not active. Please complete registration first." |} ∧
    (hash_password password = None →
     ∃ d2,
       register hash_password registration_data d1 =
         (RaiseHTTP (internal_error
                       "Internal server error during registration"), d2) ∧
       db_store d2 = db_store d1) ∧
    (∀ hash, hash_password password = Some hash →
     ∃ active d2,
       register hash_password registration_data d1 = (Return active, d2) ∧
       ur_id active = id ∧ ur_email active = uc_email user_data ∧
       ur_role active = uc_role user_data ∧ ur_status active = ACTIVE ∧
       ∀ token,
         verify_password password hash = true →
         hash ≠ "" →
         create_access_token id (role_value (uc_role user_data)) =
           Some token →
         ∃ d3,
           login verify_password create_access_token login_data d2 =
             (Return {| lg_access_token := token; lg_token_type := "bearer";
                        lg_user := active |}, d3)).
Proof.
  intros password login_data id Hadmin Hq Hfree Hrole Hemail.
  set (fs := db_faults d) in *.
  set (row := {| usr_id := id;
                 usr_email := uc_email user_data;
                 usr_first_name := None; usr_last_name := None;
                 usr_phone_number := None;
                 usr_emergency_contact_number := None;
                 usr_role := role_value (uc_role user_data);
                 usr_status := "invited"; usr_password_hash := None |}).
  assert (Hnone : filter (λ v, usr_email v = uc_email user_data) (db_store d)
                  = []) by (by apply filter_key_nil).
  assert (Hfresh : filter (λ v, usr_id v = usr_id row) (db_store d) = []).
  { apply filter_key_nil, infinite_is_fresh. }
  (* the invitation *)
  assert (Hinvite : POST_users_invite user_data payload d =
    (Return {| ur_id := usr_id row; ur_email := uc_email user_data;
               ur_first_name := None; ur_last_name := None;
               ur_phone_number := None; ur_emergency_contact_number := None;
               ur_role := uc_role user_data; ur_status := INVITED |},
     {| db_store := db_store d ++ [row]; db_faults := tail (tail fs);
        db_calls := (db_calls d ++ [SelectUserByEmail (uc_email user_data)]) ++
                    [InsertUser (uc_email user_data)
                                (role_value (uc_role user_data)) "invited"] |})).
  { unfold POST_users_invite, h_require_admin.
    rewrite decide_False by (by intros []). rewrite h_bind_eq. unfold h_ret.
    unfold invite_user, h_try.
    rewrite h_bind_eq, h_execute_quiet by (by eapply quiet_le; [|done]; lia).
    cbn [select_user_by_email fst snd]. rewrite Hnone.
    rewrite decide_False.
    2:{ intros Hn. apply Hn. unfold invitable_roles.
        destruct (uc_role user_data); [done|by left|by right; left]. }
    rewrite h_bind_eq, h_execute_quiet
      by (apply quiet_tail; by eapply quiet_le; [|done]; lia).
    cbn [insert_user fst snd db_after db_store db_faults db_calls].
    unfold user_response. cbn [usr_role usr_status].
    rewrite to_role_value. done. }
  set (d1 := {| db_store := db_store d ++ [row] |}) in Hinvite.
  assert (Hq1 : quiet 3 (db_faults d1)).
  { cbn [d1 db_faults]. by do 2 apply quiet_tail. }
  assert (Hsel1 : filter (λ v, usr_email v = uc_email user_data) (db_store d1)
                  = [row]).
  { cbn. rewrite filter_app, Hnone, filter_cons, decide_True by done. done. }
  assert (Hid1 : filter (λ v, usr_id v = usr_id row) (db_store d1) = [row]).
  { cbn [d1 db_store]. rewrite filter_app, Hfresh, filter_cons.
    by rewrite decide_True by done. }
  eexists _, d1. split; [exact Hinvite|]. split; [done|]. split; [done|].
  split.
  { rewrite (login_not_active _ d1 row []); [done| |done..].
    by eapply quiet_le; [|done]; lia. }
  split.
  { intros Hh. eexists. split.
    - apply (register_hash_refused _ d1 row []); [|by rewrite Hemail|done..].
      by eapply quiet_le; [|done]; lia.
    - done. }
  intros hash Hh. eexists _, _. split.
  { apply (register_quiet _ d1 row (uc_role user_data) hash).
    - by eapply quiet_le; [|done]; lia.
    - by rewrite Hemail.
    - done.
    - done.
    - apply to_role_value.
    - done. }
  split_and!; [done..|]. intros token Hv Hne Ht. eexists.
  apply (login_quiet _ _ (registered registration_data hash row) [] hash).
  - cbn [d1 db_faults]. by do 4 apply quiet_tail.
  - cbn [db_store d1]. rewrite update_where_app.
    rewrite update_where_key_absent by done.
    unfold update_where at 1. cbn [fmap list_fmap].
    rewrite decide_True by done. unfold login_data. cbn [lr_email].
    rewrite filter_app, Hnone, filter_cons, decide_True by done. done.
  - done.
  - done.
  - done.
  - done.
  - done.
  - unfold user_response. cbn [registered usr_role usr_status row].
    by rewrite to_role_value.
Qed.
End authentication_facts.

(** *** The catalogue *)

Lemma POST_inventory_inv item_data payload d out d' :
  POST_inventory item_data payload d = (out, d') →
  db_store d' = db_store d ∨
  (role payload ∈ allowed_roles ∧
   (quiet 1 (db_faults d) →
    iic_name item_data ∉ inv_name <$> inventory_items (db_store d)) ∧
   db_store d' = (insert_item item_data (db_store d)).2).
Proof.
  unfold POST_inventory, h_require_warehouse_manager_or_admin.
  rewrite h_bind_eq. case_decide as Hrole;
    [unfold h_raise; intros; simplify_eq; by left|].
  unfold h_ret. unfold create_inventory_item. intros H.
  apply h_try_inv in H as (out0 & H & _). h_call H E1.
  destruct E1 as (_ & _ & Hcase1).
  assert (Hd : db_store d0 = db_store d)
    by (destruct Hcase1 as [(_ & ? & _)|[(_ & ? & _)|(_ & ? & _)]]; done).
  destruct o as [existing|e|]; simplify_eq; auto.
  destruct existing; [|unfold h_raise in H; simplify_eq; auto].
  h_call H E2.
  destruct E2 as (_ & _ & [(-> & Hs & _)|[(-> & Hs & _)|(-> & Hs & _)]]);
    [unfold h_raise in H; simplify_eq; left; congruence..|].
  cbn [insert_item fst] in H. unfold h_ret in H. simplify_eq.
  right. rewrite Hs, Hd. split_and!; [done| |done].
  intros Hq. destruct Hcase1 as [(? & _)|[(_ & _ & ?)|(Hsel & _ & _)]];
    [done..|].
  apply filter_key_nil. cbn in Hsel. by simplify_eq.
Qed.

(** X27.  Creating an inventory item keeps the catalogue well formed.
    Whoever asks and however the store answers, the items held before are
    afterwards still there, unchanged and in place, and so are all orders
    and order lines; identifiers stay pairwise distinct; names stay
    pairwise distinct as long as the store answers the look-up of the
    name; stock levels stay non-negative when the level submitted is, as
    the request model demands; and a caller who is neither warehouse
    manager nor admin changes nothing. *)
Theorem item_creation_keeps_catalogue item_data payload d out d' :
  POST_inventory item_data payload d = (out, d') →
  let before := inventory_items (db_store d) in
  let after := inventory_items (db_store d') in
  before `prefix_of` after ∧
  orders (db_store d') = orders (db_store d) ∧
  order_items (db_store d') = order_items (db_store d) ∧
  (NoDup (inv_id <$> before) → NoDup (inv_id <$> after)) ∧
  (quiet 1 (db_faults d) →
   NoDup (inv_name <$> before) → NoDup (inv_name <$> after)) ∧
  (0 ≤ iic_stock_level item_data →
   stock_nonneg (db_store d) → stock_nonneg (db_store d')) ∧
  (role payload ∉ allowed_roles → db_store d' = db_store d).
Proof.
  intros [->|(Hrole & Hfree & ->)]%POST_inventory_inv; cbn zeta.
  { split_and!; done. }
  cbn [insert_item snd inventory_items orders order_items].
  split_and!; [by apply prefix_app_r|done|done| | | |done].
  - intros Hnd. rewrite fmap_app. apply NoDup_app.
    split_and!; [done| |apply NoDup_singleton].
    intros x Hx ->%list_elem_of_singleton.
    apply (infinite_is_fresh (used_ids (db_store d))).
    unfold used_ids. apply elem_of_app. by left.
  - intros Hq Hnd. rewrite fmap_app. apply NoDup_app.
    split_and!; [done| |apply NoDup_singleton].
    intros x Hx ->%list_elem_of_singleton. by apply Hfree.
  - intros Hlevel Hst. unfold stock_nonneg in *.
    cbn [inventory_items]. apply Forall_app. split; [done|].
    by apply Forall_singleton.
Qed.

(** X28.  A created item shows up in the listing.  When a warehouse
    manager or admin submits an item under a name no item has and the
    store answers, the creation returns the item as submitted, and the
    listing any user then asks for shows the items held before, in their
    order, followed by exactly that item; the item counts as low on stock
    precisely when the level submitted does not exceed its threshold. *)
Theorem created_item_is_listed item_data payload reader d :
  role payload ∈ allowed_roles →
  quiet 3 (db_faults d) →
  iic_name item_data ∉ inv_name <$> inventory_items (db_store d) →
  ∃ created d1 d2,
    POST_inventory item_data payload d = (Return created, d1) ∧
    iir_name created = iic_name item_data ∧
    iir_description created = iic_description item_data ∧
    iir_stock_level created = iic_stock_level item_data ∧
    iir_low_stock_threshold created = iic_low_stock_threshold item_data ∧
    is_low_stock created =
      bool_decide (iic_stock_level item_data ≤
                   iic_low_stock_threshold item_data) ∧
    GET_inventory reader d1 =
      (Return ((inventory_response <$> inventory_items (db_store d)) ++
               [created]), d2).
Proof.
  intros Hrole Hq Hfree. eexists _, _, _.
  unfold POST_inventory, h_require_warehouse_manager_or_admin.
  rewrite decide_False by (by intros []). rewrite h_bind_eq. unfold h_ret.
  unfold create_inventory_item, h_try.
  rewrite h_bind_eq, h_execute_quiet by (by eapply quiet_le; [|done]; lia).
  cbn [select_items_by_name fst snd].
  apply (filter_key_nil inv_name) in Hfree. rewrite Hfree.
  rewrite h_bind_eq, h_execute_quiet
    by (apply quiet_tail; by eapply quiet_le; [|done]; lia).
  cbn [insert_item fst snd]. split; [done|].
  split_and!; [done..|].
  unfold GET_inventory, h_require_authenticated_user.
  rewrite h_bind_eq. unfold h_ret.
  unfold list_inventory_items, h_try_all.
  rewrite h_bind_eq, h_execute_quiet by (by do 2 apply quiet_tail).
  cbn [select_all_items fst snd db_after db_store inventory_items].
  by rewrite fmap_app.
Qed.

(** *** Instances *)

Lemma invitation_never_grants_admin_witness :
  let run := POST_users_invite (invitation "lee@example.com" ADMIN) admin
               (db_of sample_users []) in
  db_store run.2 = sample_users ∨
  (role admin = "admin" ∧
   ∃ u, db_store run.2 = sample_users ++ [u] ∧
        invitation_for "lee@example.com" u ∧
        usr_id u ∉ user_ids sample_users).
Proof.
  exact (invitation_never_grants_admin
           (invitation "lee@example.com" ADMIN) admin (db_of sample_users [])
           _ _ (surjective_pairing _)).
Defined.

Lemma invitation_keeps_users_distinct_witness :
  NoDup (user_emails
           (db_store (POST_users_invite
                        (invitation "lee@example.com" SALESPERSON) admin
                        (db_of sample_users [])).2)).
Proof.
  destruct (invitation_keeps_users_distinct
              (invitation "lee@example.com" SALESPERSON) admin
              (db_of sample_users []) _ _ (surjective_pairing _)) as [_ H].
  apply H; [apply quiet_nil|].
  apply (bool_decide_unpack _). vm_compute. exact I.
Defined.

Lemma deletion_spares_the_actor_witness :
  filter (λ u, usr_id u = "u-admin")
    (db_store (DELETE_user "u-admin" admin (db_of sample_users [])).2) =
  [sample_admin_row].
Proof.
  destruct (deletion_spares_the_actor "u-admin" admin (db_of sample_users [])
              _ _ (surjective_pairing _)) as (_ & H & _).
  etrans; [exact H|reflexivity].
Defined.

Lemma deleted_user_is_gone_witness :
  "u-kim" ∉ user_ids
    (db_store (DELETE_user "u-kim" admin (db_of sample_users [])).2).
Proof.
  exact (proj1 (deleted_user_is_gone "u-kim" admin (db_of sample_users [])
                  "User deleted successfully" _ eq_refl)).
Defined.

Lemma registration_completes_invitations_only_witness :
  let registration_data := registration "kim@example.com" "Secret1!" in
  Forall2 (λ u u',
      usr_id u' = usr_id u ∧ usr_email u' = usr_email u ∧
      usr_role u' = usr_role u ∧
      registration_step registration_data (sample_hash "Secret1!") u u')
    sample_users
    (db_store (register sample_hash registration_data
                 (db_of sample_users [])).2).
Proof.
  apply (registration_completes_invitations_only sample_hash
           (registration "kim@example.com" "Secret1!")
           (db_of sample_users []) _ _ (surjective_pairing _)).
  apply (bool_decide_unpack _). vm_compute. exact I.
Defined.

Lemma login_needs_active_verified_account_witness :
  db_store (login sample_verify sample_token
              (credentials "root@example.com" "Secret1!")
              (db_of sample_users [])).2 = sample_users.
Proof.
  exact (proj1 (login_needs_active_verified_account sample_verify sample_token
                  (credentials "root@example.com" "Secret1!")
                  (db_of sample_users []) _ _ (surjective_pairing _))).
Defined.

Lemma invited_user_registers_and_logs_in_witness :
  ∃ invited d1 active d2 d3,
    POST_users_invite (invitation "lee@example.com" SALESPERSON) admin
      (db_of sample_users []) = (Return invited, d1) ∧
    register sample_hash (registration "lee@example.com" "Secret1!") d1 =
      (Return active, d2) ∧
    ur_status active = ACTIVE ∧
    login sample_verify sample_token
      (credentials "lee@example.com" "Secret1!") d2 =
      (Return {| lg_access_token :=
                   String.append (fresh (user_ids sample_users))
                                 ":salesperson";
                 lg_token_type := "bearer"; lg_user := active |}, d3).
Proof.
  destruct (invited_user_registers_and_logs_in sample_verify sample_hash
              sample_token (invitation "lee@example.com" SALESPERSON) admin
              (registration "lee@example.com" "Secret1!")
              (db_of sample_users []))
    as (invited & d1 & H1 & _ & _ & _ & _ & Hreg).
  - reflexivity.
  - apply quiet_nil.
  - apply (bool_decide_unpack _). vm_compute. exact I.
  - discriminate.
  - reflexivity.
  - destruct (Hreg "#Secret1!" eq_refl)
      as (active & d2 & H2 & _ & _ & _ & H3 & Hlogin).
    destruct (Hlogin (String.append (fresh (user_ids sample_users))
                                    ":salesperson"))
      as [d3 H4].
    + vm_compute. reflexivity.
    + discriminate.
    + reflexivity.
    + exists invited, d1, active, d2, d3.
      split; [exact H1|]. split; [exact H2|]. split; [exact H3|exact H4].
Defined.

Lemma item_creation_keeps_catalogue_witness :
  NoDup (inv_name <$> inventory_items
           (db_store (POST_inventory sample_item manager
                        (db_of store_AB [])).2)).
Proof.
  destruct (item_creation_keeps_catalogue sample_item manager
              (db_of store_AB []) _ _ (surjective_pairing _))
    as (_ & _ & _ & _ & H & _).
  apply H; [apply quiet_nil|].
  apply (bool_decide_unpack _). vm_compute. exact I.
Defined.

Lemma created_item_is_listed_witness :
  ∃ created d1 d2,
    POST_inventory sample_item manager (db_of store_AB []) =
      (Return created, d1) ∧
    is_low_stock created = false ∧
    GET_inventory sales d1 =
      (Return ((inventory_response <$> [item_A; item_B]) ++ [created]), d2).
Proof.
  destruct (created_item_is_listed sample_item manager sales
              (db_of store_AB []))
    as (created & d1 & d2 & H1 & _ & _ & _ & _ & H2 & H3).
  - unfold allowed_roles. by left.
  - apply quiet_nil.
  - apply (bool_decide_unpack _). vm_compute. exact I.
  - exists created, d1, d2. split; [exact H1|]. split; [|exact H3].
    rewrite H2. reflexivity.
Defined.

Lemma creation_only_lowers_stock_witness :
  ∃ r', store_row (store (POST_orders (request [line "A" 2; line "A" 1]) sales
                            (world_of store_AB [])).2) "A" = Some r' ∧
        inv_stock_level r' < inv_stock_level item_A.
Proof.
  destruct (creation_only_lowers_stock
              (request [line "A" 2; line "A" 1]) sales (world_of store_AB [])
              _ _ "A" item_A eq_refl) as (r' & Hr' & _ & Hlt & _).
  - repeat constructor.
  - reflexivity.
  - exists r'. split; [exact Hr'|]. apply Hlt. by left.
Defined.
